(** * Live-sanctuary session store and two-stage moderation pipeline

    A shallow embedding of [RedisSessionManager] (session snapshots, roster
    updates, voice configurations, the moderation log and its reading,
    emergency alerts) and of [AIModerationService] (rule stage, AI stage,
    merge, action dispatch, behaviour analysis, session summary), followed
    by the properties of the design document that concern them and by
    further properties of the same code.

    Conventions of the embedding
    - a JavaScript string is a [string]; every character stands for one
      UTF-16 code unit in the range U+0000..U+00FF;
    - a JavaScript number holding a count, a TTL or an instant is a [Z] (or a
      [nat] for [Array.length]); a confidence score is a rational [Q]
      ([Math.max] and [>] are exact on the values involved);
    - an object used as a bag of fields is a [gmap string JsVal]; the spread
      [{...a, ...b}] is the union [b ∪ a], in which [b] wins;
    - [undefined] fields are [None];
    - effects (the Redis client, the process globals of the in-memory
      fallback, the console, the socket server, the classifier, the clock)
      live in one [World], threaded through a state-and-exception monad. *)

From Stdlib Require Import QArith Ascii.
From stdpp Require Import base numbers strings pretty list gmap.

Open Scope Z_scope.
Open Scope string_scope.

(* ===================================================================== *)
(** * JavaScript strings *)
(* ===================================================================== *)

Module Js.

(** One code unit of [String.prototype.toLowerCase]: A-Z, and the
    Latin-1 capitals U+00C0..U+00DE except the multiplication sign. *)
Definition lower_unit (c : ascii) : ascii :=
  let n := Ascii.N_of_ascii c in
  if ((65 <=? n) && (n <=? 90) ||
      (192 <=? n) && (n <=? 222) && negb (n =? 215))%N
  then Ascii.ascii_of_N (n + 32) else c.

Fixpoint toLowerCase (s : string) : string :=
  match s with
  | EmptyString => EmptyString
  | String c t => String (lower_unit c) (toLowerCase t)
  end.

Fixpoint startsWith (needle hay : string) : bool :=
  match needle, hay with
  | EmptyString, _ => true
  | String _ _, EmptyString => false
  | String a n', String b h' => if decide (a = b) then startsWith n' h' else false
  end.

(** [hay.indexOf(needle)] counted from offset [i]; [None] is JavaScript's -1. *)
Fixpoint indexOf_from (i : Z) (needle hay : string) : option Z :=
  if startsWith needle hay then Some i
  else match hay with
       | EmptyString => None
       | String _ t => indexOf_from (i + 1) needle t
       end.

Definition indexOf (hay needle : string) : Z :=
  default (-1) (indexOf_from 0 needle hay).

Definition includes (hay needle : string) : bool :=
  bool_decide (is_Some (indexOf_from 0 needle hay)).

(** Template-literal rendering of a possibly [undefined] string. *)
Definition render (o : option string) : string := default "undefined" o.

(** The value of [x || d] for a string-valued field: [undefined] and the
    empty string are falsy. *)
Definition or_str (o : option string) (d : string) : string :=
  match o with
  | Some s => if decide (s = "") then d else s
  | None => d
  end.

(** The property names a plain object inherits from [Object.prototype]:
    a lookup of one of them on an object that has no such property of its
    own yields a function, or the prototype itself for [__proto__]. *)
Definition inheritedNames : list string :=
  [ "constructor"; "__defineGetter__"; "__defineSetter__"; "hasOwnProperty";
    "__lookupGetter__"; "__lookupSetter__"; "isPrototypeOf"; "propertyIsEnumerable";
    "toString"; "valueOf"; "__proto__"; "toLocaleString" ].

End Js.

(* ===================================================================== *)
(** * The three regular expressions of the spam rule *)
(* ===================================================================== *)

Module Regex.

Inductive Pattern :=
| RepeatedChars   (* /(.)\1{10,}/          *)
| AllCaps         (* /[A-Z]{20,}/          *)
| Url.            (* /https?:\/\/[^\s]+/gi *)

#[global] Instance Pattern_eq_dec : EqDecision Pattern.
Proof. solve_decision. Defined.

(** [pattern.toString()] *)
Definition toString (p : Pattern) : string :=
  match p with
  | RepeatedChars => "/(.)\1{10,}/"
  | AllCaps => "/[A-Z]{20,}/"
  | Url => "/https?:\/\/[^\s]+/gi"
  end.

Definition code (c : ascii) : N := Ascii.N_of_ascii c.

(** [.] without the [s] flag rejects the line terminators. *)
Definition is_line_terminator (c : ascii) : bool :=
  ((code c =? 10) || (code c =? 13))%N.

(** [\s] restricted to U+0000..U+00FF. *)
Definition is_space (c : ascii) : bool :=
  ((9 <=? code c) && (code c <=? 13) || (code c =? 32) || (code c =? 160))%N.

Definition is_upper (c : ascii) : bool := ((65 <=? code c) && (code c <=? 90))%N.

(** The longest prefix of [s] whose characters all satisfy [p]: what a
    greedy [x*] consumes. *)
Fixpoint span (p : ascii -> bool) (s : string) : string :=
  match s with
  | EmptyString => EmptyString
  | String c t => if p c then String c (span p t) else EmptyString
  end.

(** Match of [(.)\1{10,}] anchored at the head of [s]. *)
Definition repeated_here (s : string) : option string :=
  match s with
  | EmptyString => None
  | String c t =>
      if is_line_terminator c then None
      else let run := span (fun d => bool_decide (d = c)) t in
           if (10 <=? String.length run)%nat then Some (String c run) else None
  end.

(** Match of [[A-Z]{20,}] anchored at the head of [s]. *)
Definition caps_here (s : string) : option string :=
  let run := span is_upper s in
  if (20 <=? String.length run)%nat then Some run else None.

(** Case-insensitive literal prefix (the [i] flag on ASCII letters);
    returns the consumed text and the rest. *)
Fixpoint lit_ci (lit s : string) : option (string * string) :=
  match lit, s with
  | EmptyString, _ => Some (EmptyString, s)
  | String _ _, EmptyString => None
  | String a l', String b s' =>
      if decide (Js.lower_unit a = Js.lower_unit b) then
        match lit_ci l' s' with
        | Some (m, r) => Some (String b m, r)
        | None => None
        end
      else None
  end.

(** Match of [https?:\/\/[^\s]+] anchored at the head of [s]. *)
Definition url_here (s : string) : option string :=
  match lit_ci "http" s with
  | None => None
  | Some (m1, r1) =>
      let try_rest (pre r : string) : option string :=
        match lit_ci "://" r with
        | None => None
        | Some (m2, r2) =>
            let tail := span (fun c => negb (is_space c)) r2 in
            if decide (tail = "") then None else Some (pre ++ m2 ++ tail)
        end in
      match lit_ci "s" r1 with
      | Some (ms, r1') =>
          match try_rest (m1 ++ ms) r1' with
          | Some m => Some m
          | None => try_rest m1 r1
          end
      | None => try_rest m1 r1
      end
  end.

Definition here (p : Pattern) : string -> option string :=
  match p with
  | RepeatedChars => repeated_here
  | AllCaps => caps_here
  | Url => url_here
  end.

(** Leftmost match: the first offset at which the anchored match succeeds. *)
Fixpoint first_match (p : Pattern) (s : string) : option string :=
  match here p s with
  | Some m => Some m
  | None => match s with
            | EmptyString => None
            | String _ t => first_match p t
            end
  end.

(** [pattern.test(content)].  The [g] flag of the URL pattern makes
    [test] start at [lastIndex]; every successful [test] in the rule
    stage is followed by [content.match(pattern)], which leaves
    [lastIndex] at 0, and a failed [test] resets it, so each [test]
    starts at offset 0. *)
Definition test (p : Pattern) (s : string) : bool :=
  bool_decide (is_Some (first_match p s)).

(** [content.match(pattern)?.[0]] *)
Definition match0 (p : Pattern) (s : string) : option string := first_match p s.

End Regex.

(* ===================================================================== *)
(** * Flags and rules *)
(* ===================================================================== *)

Inductive Flag :=
| KeywordFlag (type keyword : string) (position : Z)
| PatternFlag (type pattern : string) (matched : option string)
| AIFlag (type reason : string).

#[global] Instance Flag_eq_dec : EqDecision Flag.
Proof. solve_decision. Defined.

Record Rule := {
  keywords : option (list string);
  patterns : option (list Regex.Pattern);
  severity : string;
  action : string
}.

(* ===================================================================== *)
(** * Data of the store and of the moderation service *)
(* ===================================================================== *)

Inductive JsVal :=
| VStr (s : string)
| VNum (n : Z)
| VBool (b : bool).

#[global] Instance JsVal_eq_dec : EqDecision JsVal.
Proof. solve_decision. Defined.

(** [new Date(ms).toISOString()], kept symbolic. *)
Inductive IsoString := ISO (ms : Z).

(** A roster entry: [{ id, ...participantData }]. *)
Abbreviation Participant := (gmap string JsVal).

(** A live session snapshot.  [participants], [currentParticipants],
    [timestamp] and [lastUpdated] are the fields the manager reads or
    writes; [fields] holds every other field and travels with each spread. *)
Record SessionState := {
  participants : option (list Participant);
  currentParticipants : option Z;
  timestamp : option Z;
  lastUpdated : option IsoString;
  fields : gmap string JsVal
}.

(** [{ ...voiceConfig, timestamp, sessionId, participantId }] *)
Record VoiceData := {
  vc_config : gmap string JsVal;
  vc_timestamp : Z;
  vc_sessionId : string;
  vc_participantId : string
}.

(** The [event] handed to [redisSessionManager.logModerationEvent]. *)
Record ModerationEvent := {
  me_type : string;
  me_participantId : option string;
  me_content : string;
  me_severity : string;
  me_flags : list Flag;
  me_action : string;
  me_confidence : Q;
  me_aiAnalysis : option string
}.

(** [{ ...event, sessionId, timestamp, id: key }] *)
Record ModerationEntry := {
  ml_event : ModerationEvent;
  ml_sessionId : option string;
  ml_timestamp : Z;
  ml_id : string
}.

(** The [alert] handed to [storeEmergencyAlert]. *)
Record EmergencyAlert := {
  ea_type : string;
  ea_participantId : string;
  ea_content : string;
  ea_severity : option string;
  ea_autoResponse : option string
}.

(** [{ ...alert, sessionId, timestamp, id: key, severity: alert.severity || 'high' }] *)
Record AlertEntry := {
  al_alert : EmergencyAlert;
  al_sessionId : string;
  al_timestamp : Z;
  al_id : string;
  al_severity : string
}.

(** What [JSON.stringify] writes under a key and [JSON.parse] reads back. *)
Inductive Stored :=
| SSession (s : SessionState)
| SVoice (v : VoiceData)
| SModeration (e : ModerationEntry)
| SAlert (a : AlertEntry).

(** Commands sent to the Redis client. *)
Inductive RedisCmd :=
| SETEX (key : string) (ttl : Z) (value : Stored)
| GET (key : string)
| LPUSH (key : string) (value : string)
| EXPIRE (key : string) (ttl : Z).

(** The server side of the client: string keys with the TTL (in seconds)
    they were written with, and lists with the TTL of their last EXPIRE.
    Expiry itself is not modelled. *)
Record RedisDb := {
  kv : gmap string (Z * Stored);
  lists : gmap string (list string);
  list_ttl : gmap string Z
}.

Definition emptyDb : RedisDb := {| kv := ∅; lists := ∅; list_ttl := ∅ |}.

(** The [flags] field of the classifier's JSON: falsy (absent, [null],
    [false], [0], empty string), an array, or a truthy value that cannot
    be spread (a number, [true], a plain object). *)
Inductive FlagsField :=
| FlagsFalsy
| FlagsArray (l : list Flag)
| FlagsNotIterable.

Record AIJson := {
  j_severity : option string;
  j_flags : FlagsField;
  j_action : option string;
  j_confidence : option Q;
  j_supportive_response : option string;
  j_details : option string
}.

(** What one call of the classifier leads to in [performAIAnalysis]. *)
Inductive AIReply :=
| AIRejects                 (* [generateContent] rejects, or [response.text()] throws *)
| AIUnparsable              (* [JSON.parse] throws, or yields [null] *)
| AIObject (j : AIJson).    (* [JSON.parse] yields a value with these fields *)

(** The socket server: [io.to(room).emit(event, payload)]. *)
Inductive Payload :=
| CrisisAlert (sessionId participantId content severity : string) (at_ : IsoString)
| SystemMessage (type message : string) (at_ : IsoString)
| ModerationWarning (participantId type message : string) (at_ : IsoString)
| MessageFiltered (participantId reason : string) (at_ : IsoString).

Record Emission := { room : string; event : string; payload : Payload }.

(* ===================================================================== *)
(** * The world and its monad *)
(* ===================================================================== *)

Record World := {
  redis : option RedisDb;                       (* [this.redis]; [None] is memory mode *)
  redisFault : nat -> bool;                     (* does the n-th command issued reject? *)
  redisLog : list RedisCmd;                     (* commands issued so far, oldest first *)
  clock : nat -> Z;                             (* the n-th reading of the clock *)
  clockReads : nat;
  sessionStates : gmap string SessionState;     (* [global.sessionStates] *)
  voiceConfigs : gmap string VoiceData;         (* [global.voiceConfigs] *)
  moderationLogs : list ModerationEntry;        (* [global.moderationLogs] *)
  emergencyAlerts : list AlertEntry;            (* [global.emergencyAlerts] *)
  console : list string;                        (* [console.error] lines *)
  classifier : string -> AIReply;               (* the model's answer for a message *)
  aiCalls : list string;                        (* messages sent to the classifier *)
  emitted : list Emission                       (* socket emissions, oldest first *)
}.

Definition with_redis (v : option RedisDb) (w : World) : World :=
  {| redis := v; redisFault := redisFault w; redisLog := redisLog w;
     clock := clock w; clockReads := clockReads w;
     sessionStates := sessionStates w; voiceConfigs := voiceConfigs w;
     moderationLogs := moderationLogs w; emergencyAlerts := emergencyAlerts w;
     console := console w; classifier := classifier w; aiCalls := aiCalls w;
     emitted := emitted w |}.

Definition with_redisLog (v : list RedisCmd) (w : World) : World :=
  {| redis := redis w; redisFault := redisFault w; redisLog := v;
     clock := clock w; clockReads := clockReads w;
     sessionStates := sessionStates w; voiceConfigs := voiceConfigs w;
     moderationLogs := moderationLogs w; emergencyAlerts := emergencyAlerts w;
     console := console w; classifier := classifier w; aiCalls := aiCalls w;
     emitted := emitted w |}.

Definition with_clockReads (v : nat) (w : World) : World :=
  {| redis := redis w; redisFault := redisFault w; redisLog := redisLog w;
     clock := clock w; clockReads := v;
     sessionStates := sessionStates w; voiceConfigs := voiceConfigs w;
     moderationLogs := moderationLogs w; emergencyAlerts := emergencyAlerts w;
     console := console w; classifier := classifier w; aiCalls := aiCalls w;
     emitted := emitted w |}.

Definition with_sessionStates (v : gmap string SessionState) (w : World) : World :=
  {| redis := redis w; redisFault := redisFault w; redisLog := redisLog w;
     clock := clock w; clockReads := clockReads w;
     sessionStates := v; voiceConfigs := voiceConfigs w;
     moderationLogs := moderationLogs w; emergencyAlerts := emergencyAlerts w;
     console := console w; classifier := classifier w; aiCalls := aiCalls w;
     emitted := emitted w |}.

Definition with_voiceConfigs (v : gmap string VoiceData) (w : World) : World :=
  {| redis := redis w; redisFault := redisFault w; redisLog := redisLog w;
     clock := clock w; clockReads := clockReads w;
     sessionStates := sessionStates w; voiceConfigs := v;
     moderationLogs := moderationLogs w; emergencyAlerts := emergencyAlerts w;
     console := console w; classifier := classifier w; aiCalls := aiCalls w;
     emitted := emitted w |}.

Definition with_moderationLogs (v : list ModerationEntry) (w : World) : World :=
  {| redis := redis w; redisFault := redisFault w; redisLog := redisLog w;
     clock := clock w; clockReads := clockReads w;
     sessionStates := sessionStates w; voiceConfigs := voiceConfigs w;
     moderationLogs := v; emergencyAlerts := emergencyAlerts w;
     console := console w; classifier := classifier w; aiCalls := aiCalls w;
     emitted := emitted w |}.

Definition with_emergencyAlerts (v : list AlertEntry) (w : World) : World :=
  {| redis := redis w; redisFault := redisFault w; redisLog := redisLog w;
     clock := clock w; clockReads := clockReads w;
     sessionStates := sessionStates w; voiceConfigs := voiceConfigs w;
     moderationLogs := moderationLogs w; emergencyAlerts := v;
     console := console w; classifier := classifier w; aiCalls := aiCalls w;
     emitted := emitted w |}.

Definition with_console (v : list string) (w : World) : World :=
  {| redis := redis w; redisFault := redisFault w; redisLog := redisLog w;
     clock := clock w; clockReads := clockReads w;
     sessionStates := sessionStates w; voiceConfigs := voiceConfigs w;
     moderationLogs := moderationLogs w; emergencyAlerts := emergencyAlerts w;
     console := v; classifier := classifier w; aiCalls := aiCalls w;
     emitted := emitted w |}.

Definition with_aiCalls (v : list string) (w : World) : World :=
  {| redis := redis w; redisFault := redisFault w; redisLog := redisLog w;
     clock := clock w; clockReads := clockReads w;
     sessionStates := sessionStates w; voiceConfigs := voiceConfigs w;
     moderationLogs := moderationLogs w; emergencyAlerts := emergencyAlerts w;
     console := console w; classifier := classifier w; aiCalls := v;
     emitted := emitted w |}.

Definition with_emitted (v : list Emission) (w : World) : World :=
  {| redis := redis w; redisFault := redisFault w; redisLog := redisLog w;
     clock := clock w; clockReads := clockReads w;
     sessionStates := sessionStates w; voiceConfigs := voiceConfigs w;
     moderationLogs := moderationLogs w; emergencyAlerts := emergencyAlerts w;
     console := console w; classifier := classifier w; aiCalls := aiCalls w;
     emitted := v |}.

(** A computation either returns or throws; either way it leaves a world. *)
Inductive Outcome (A : Type) :=
| Ok (a : A)
| Throw (message : string).
Arguments Ok {A} a.
Arguments Throw {A} message.

Definition M (A : Type) : Type := World -> Outcome A * World.

#[global] Instance M_ret : MRet M := λ A a w, (Ok a, w).

#[global] Instance M_bind : MBind M := λ A B k m w,
  match m w with
  | (Ok a, w') => k a w'
  | (Throw e, w') => (Throw e, w')
  end.

Definition throw {A} (message : string) : M A := λ w, (Throw message, w).

(** [try { body } catch (error) { handler(error.message) }] *)
Definition try_catch {A} (body : M A) (handler : string -> M A) : M A := λ w,
  match body w with
  | (Ok a, w') => (Ok a, w')
  | (Throw e, w') => handler e w'
  end.

Definition get_world : M World := λ w, (Ok w, w).
Definition modify (f : World -> World) : M unit := λ w, (Ok tt, f w).

(** [console.error(label, error)] *)
Definition consoleError (label : string) : M unit :=
  modify (λ w, with_console (console w ++ [label]) w).

(** [Date.now()] *)
Definition dateNow : M Z := λ w,
  (Ok (clock w (clockReads w)), with_clockReads (S (clockReads w)) w).

(** [new Date().toISOString()] *)
Definition isoNow : M IsoString := t ← dateNow; mret (ISO t).

(** [io.to(room).emit(event, payload)], with [io] taken to be a socket
    server: the emission is recorded, and the call returns. *)
Definition emit (room event : string) (payload : Payload) : M unit :=
  modify (λ w, with_emitted (emitted w ++ [ {| room := room; event := event; payload := payload |} ]) w).

(* ===================================================================== *)
(** * The Redis client *)
(* ===================================================================== *)

(** What a command that succeeds does to the server. *)
Definition applyCmd (c : RedisCmd) (db : RedisDb) : RedisDb :=
  match c with
  | SETEX key ttl value =>
      {| kv := <[key := (ttl, value)]> (kv db); lists := lists db; list_ttl := list_ttl db |}
  | GET _ => db
  | LPUSH key value =>
      {| kv := kv db; lists := <[key := value :: default [] (lists db !! key)]> (lists db);
         list_ttl := list_ttl db |}
  | EXPIRE key ttl =>
      {| kv := kv db; lists := lists db; list_ttl := <[key := ttl]> (list_ttl db) |}
  end.

(** [await this.redis.cmd(...)]: the command is issued; it rejects when
    the fault oracle says so, and otherwise takes effect. *)
Definition issue (c : RedisCmd) : M unit := λ w,
  let n := length (redisLog w) in
  let w1 := with_redisLog (redisLog w ++ [c]) w in
  if redisFault w n then (Throw "redis command failed", w1)
  else (Ok tt, with_redis (applyCmd c <$> redis w1) w1).

Definition setex (key : string) (ttl : Z) (value : Stored) : M unit :=
  issue (SETEX key ttl value).

Definition lpush (key value : string) : M unit := issue (LPUSH key value).

Definition expire (key : string) (ttl : Z) : M unit := issue (EXPIRE key ttl).

(** [await this.redis.get(key)] *)
Definition get (key : string) : M (option Stored) :=
  issue (GET key);;
  w ← get_world;
  mret (snd <$> ((kv <$> redis w) ≫= (.!! key))).

(** The elements [0 .. stop] of a list as the server's LRANGE counts them:
    a negative [stop] counts from the end of the list, [-1] being its
    last element, and a range that ends before it starts is empty. *)
Definition rangeFromStart {A} (stop : Z) (l : list A) : list A :=
  let stop' := if bool_decide (stop < 0) then Z.of_nat (length l) + stop else stop in
  if bool_decide (stop' < 0) then [] else take (Z.to_nat (stop' + 1)) l.

(** [await this.redis.lrange(key, 0, stop)]; a key that holds no list
    reads as the empty list.  The command type has no constructor for
    LRANGE: in the command log it appears as the read of the list key,
    which takes its place in the sequence of commands and, like it, can
    reject. *)
Definition lrange (key : string) (stop : Z) : M (list string) :=
  issue (GET key);;
  w ← get_world;
  mret (rangeFromStart stop (default [] ((lists <$> redis w) ≫= (.!! key)))).

(* ===================================================================== *)
(** * RedisSessionManager *)
(* ===================================================================== *)

Module RedisSessionManager.

(** [{ ...state, timestamp: t }] *)
Definition stampMemory (state : SessionState) (t : Z) : SessionState :=
  {| participants := participants state;
     currentParticipants := currentParticipants state;
     timestamp := Some t;
     lastUpdated := lastUpdated state;
     fields := fields state |}.

(** [{ ...state, timestamp: t, lastUpdated: iso }] *)
Definition stampRedis (state : SessionState) (t : Z) (iso : IsoString) : SessionState :=
  {| participants := participants state;
     currentParticipants := currentParticipants state;
     timestamp := Some t;
     lastUpdated := Some iso;
     fields := fields state |}.

Definition sessionKey (sessionId : string) : string := "live_sanctuary:" ++ sessionId.

(** The store of the memory fallback, the plain object
    [global.sessionStates], is read as a finite map from identifiers to
    snapshots.  Two things of the object are outside the map: the copy the
    source stores is shallow, so that the stored snapshot shares the array
    [participants] with the [state] of the caller; and an assignment under
    ["__proto__"] replaces the prototype of the store instead of adding a
    key. *)
Definition setSessionState (sessionId : string) (state : SessionState) : M bool :=
  try_catch
    (w ← get_world;
     match redis w with
     | None =>
         t ← dateNow;
         modify (λ w, with_sessionStates (<[sessionId := stampMemory state t]> (sessionStates w)) w);;
         mret true
     | Some _ =>
         let key := sessionKey sessionId in
         t ← dateNow;
         iso ← isoNow;
         setex key 86400 (SSession (stampRedis state t iso));;
         mret true
     end)
    (λ _, consoleError "Failed to set session state:";; mret false).

(** [JSON.parse(data)] read as a session snapshot.  Only [setSessionState]
    writes under the [live_sanctuary:] prefix; a value of another kind
    has none of the fields of a snapshot. *)
Definition asSession (v : Stored) : SessionState :=
  match v with
  | SSession s => s
  | _ => {| participants := None; currentParticipants := None; timestamp := None;
            lastUpdated := None; fields := ∅ |}
  end.

(** [null] is [None].  In memory mode the identifiers are taken outside
    [Js.inheritedNames]: a name that the store inherits from
    [Object.prototype] and that has not been written reads in the source
    as the inherited member, not as [null]. *)
Definition getSessionState (sessionId : string) : M (option SessionState) :=
  try_catch
    (w ← get_world;
     match redis w with
     | None => mret (sessionStates w !! sessionId)
     | Some _ =>
         let key := sessionKey sessionId in
         data ← get key;
         mret (asSession <$> data)
     end)
    (λ _, consoleError "Failed to get session state:";; mret None).

(** [p => p.id === participantId] *)
Definition hasId (participantId : string) (p : Participant) : Prop :=
  p !! "id" = Some (VStr participantId).

#[global] Instance hasId_dec participantId p : Decision (hasId participantId p).
Proof. unfold hasId. apply _. Defined.

(** The roster after the update-or-add step of [updateParticipant]. *)
Definition upsert (participantId : string) (participantData : gmap string JsVal)
    (roster : list Participant) : list Participant :=
  match list_find (hasId participantId) roster with
  | Some (participantIndex, p) =>
      <[participantIndex := participantData ∪ p]> roster
  | None =>
      roster ++ [ participantData ∪ {[ "id" := VStr participantId ]} ]
  end.

(** [sessionState.participants = ps; sessionState.currentParticipants = ps.length] *)
Definition withRoster (sessionState : SessionState) (ps : list Participant) : SessionState :=
  {| participants := Some ps;
     currentParticipants := Some (Z.of_nat (length ps));
     timestamp := timestamp sessionState;
     lastUpdated := lastUpdated sessionState;
     fields := fields sessionState |}.

(** In memory mode the snapshot read is the very object the store holds,
    and the roster and the count are updated on it in place before
    [setSessionState] replaces it by a stamped copy; nothing can fail in
    between, so the stored value after the call is the one computed here. *)
Definition updateParticipant (sessionId participantId : string)
    (participantData : gmap string JsVal) : M bool :=
  try_catch
    (found ← getSessionState sessionId;
     match found with
     | None => mret false
     | Some sessionState =>
         let roster := default [] (participants sessionState) in
         let roster' := upsert participantId participantData roster in
         setSessionState sessionId (withRoster sessionState roster')
     end)
    (λ _, consoleError "Failed to update participant:";; mret false).

Definition removeParticipant (sessionId participantId : string) : M bool :=
  try_catch
    (found ← getSessionState sessionId;
     match found with
     | None => mret false
     | Some sessionState =>
         let roster' := filter (λ p, ¬ hasId participantId p)
                          (default [] (participants sessionState)) in
         setSessionState sessionId (withRoster sessionState roster')
     end)
    (λ _, consoleError "Failed to remove participant:";; mret false).

Definition voiceKey (sessionId participantId : string) : string :=
  "voice_config:" ++ sessionId ++ ":" ++ participantId.

Definition setVoiceConfig (sessionId participantId : string)
    (voiceConfig : gmap string JsVal) : M bool :=
  try_catch
    (let key := voiceKey sessionId participantId in
     t ← dateNow;
     let data := {| vc_config := voiceConfig; vc_timestamp := t;
                    vc_sessionId := sessionId; vc_participantId := participantId |} in
     w ← get_world;
     match redis w with
     | None =>
         modify (λ w, with_voiceConfigs (<[key := data]> (voiceConfigs w)) w);;
         mret true
     | Some _ =>
         setex key 3600 (SVoice data);;
         mret true
     end)
    (λ _, consoleError "Failed to set voice config:";; mret false).

(** Decimal rendering of an instant inside a template literal. *)
Definition showInstant (t : Z) : string := pretty t.

Definition moderationKey (sessionId : option string) (t : Z) : string :=
  "moderation:" ++ Js.render sessionId ++ ":" ++ showInstant t.

Definition moderationListKey (sessionId : option string) : string :=
  "moderation_list:" ++ Js.render sessionId.

Definition logModerationEvent (sessionId : option string) (event : ModerationEvent) : M bool :=
  try_catch
    (t1 ← dateNow;
     let key := moderationKey sessionId t1 in
     t2 ← dateNow;
     let data := {| ml_event := event; ml_sessionId := sessionId;
                    ml_timestamp := t2; ml_id := key |} in
     w ← get_world;
     match redis w with
     | None =>
         modify (λ w, with_moderationLogs (moderationLogs w ++ [data]) w);;
         mret true
     | Some _ =>
         setex key 604800 (SModeration data);;
         let listKey := moderationListKey sessionId in
         lpush listKey key;;
         expire listKey 604800;;
         mret true
     end)
    (λ _, consoleError "Failed to log moderation event:";; mret false).

Definition emergencyKey (sessionId : string) (t : Z) : string :=
  "emergency:" ++ sessionId ++ ":" ++ showInstant t.

Definition emergencyListKey (sessionId : string) : string :=
  "emergency_list:" ++ sessionId.

Definition storeEmergencyAlert (sessionId : string) (alert : EmergencyAlert) : M bool :=
  try_catch
    (t1 ← dateNow;
     let key := emergencyKey sessionId t1 in
     t2 ← dateNow;
     let data := {| al_alert := alert; al_sessionId := sessionId;
                    al_timestamp := t2; al_id := key;
                    al_severity := Js.or_str (ea_severity alert) "high" |} in
     w ← get_world;
     match redis w with
     | None =>
         modify (λ w, with_emergencyAlerts (emergencyAlerts w ++ [data]) w);;
         mret true
     | Some _ =>
         setex key 2592000 (SAlert data);;
         let listKey := emergencyListKey sessionId in
         lpush listKey key;;
         expire listKey 2592000;;
         mret true
     end)
    (λ _, consoleError "Failed to store emergency alert:";; mret false).

(** [data ? JSON.parse(data) : null], respectively
    [global.voiceConfigs[key] || null]; [null] is [None]. *)
Definition getVoiceConfig (sessionId participantId : string) : M (option Stored) :=
  try_catch
    (let key := voiceKey sessionId participantId in
     w ← get_world;
     match redis w with
     | None => mret (SVoice <$> voiceConfigs w !! key)
     | Some _ => get key
     end)
    (λ _, consoleError "Failed to get voice config:";; mret None).

(** [array.slice(0, limit)] for an integer [limit]: a negative [limit]
    counts from the end of the array. *)
Definition slice0 {A} (limit : Z) (l : list A) : list A :=
  if bool_decide (limit < 0) then take (Z.to_nat (Z.of_nat (length l) + limit)) l
  else take (Z.to_nat limit) l.

(** The loop [for (const key of keys)] of [getModerationLogs]. *)
Fixpoint fetchLogs (keys : list string) (logs : list Stored) : M (list Stored) :=
  match keys with
  | [] => mret logs
  | key :: keys =>
      data ← get key;
      fetchLogs keys (match data with Some v => (logs ++ [v])%list | None => logs end)
  end.

(** The default of the parameter [limit]. *)
Definition defaultLimit : Z := 50.

(** The logs are returned as the objects they are: the entries of the
    process-wide array, or whatever [JSON.parse] reads under the keys of
    the list. *)
Definition getModerationLogs (sessionId : string) (limit : Z) : M (list Stored) :=
  try_catch
    (w ← get_world;
     match redis w with
     | None =>
         mret (SModeration <$>
                 slice0 limit (filter (λ log, ml_sessionId log = Some sessionId)
                                      (moderationLogs w)))
     | Some _ =>
         let listKey := moderationListKey (Some sessionId) in
         keys ← lrange listKey (limit - 1);
         fetchLogs keys []
     end)
    (λ _, consoleError "Failed to get moderation logs:";; mret []).

End RedisSessionManager.

Import RedisSessionManager.

(* ===================================================================== *)
(** * AIModerationService *)
(* ===================================================================== *)

Module AIModerationService.

(** [this.moderationRules], in the order [Object.entries] yields it. *)
Definition moderationRules : list (string * Rule) :=
  [ ("crisis_detection",
     {| keywords := Some
          [ "suicide"; "kill myself"; "end it all"; "not worth living";
            "hurt myself"; "self harm"; "cutting"; "overdose";
            "want to die"; "better off dead"; "can't take it anymore" ];
        patterns := None;
        severity := "critical";
        action := "immediate_intervention" |});
    ("harassment",
     {| keywords := Some
          [ "hate"; "kill you"; "threat"; "violence"; "attack";
            "racist"; "sexist"; "homophobic"; "transphobic" ];
        patterns := None;
        severity := "high";
        action := "warn_and_monitor" |});
    ("spam",
     {| keywords := None;
        patterns := Some [ Regex.RepeatedChars; Regex.AllCaps; Regex.Url ];
        severity := "medium";
        action := "auto_filter" |});
    ("inappropriate_content",
     {| keywords := Some [ "explicit"; "sexual"; "drug dealing"; "illegal" ];
        patterns := None;
        severity := "medium";
        action := "content_filter" |}) ].

(** [getSeverityLevel]: [levels[severity] || 0].  A name that is not a key
    of the table yields 0.  (For a name inherited from [Object.prototype]
    the lookup yields a function, which [>] converts to NaN; every
    comparison it takes part in is then false, as it is with 0.) *)
Definition getSeverityLevel (severity : string) : Z :=
  if decide (severity = "none") then 0
  else if decide (severity = "low") then 1
  else if decide (severity = "medium") then 2
  else if decide (severity = "high") then 3
  else if decide (severity = "critical") then 4
  else 0.

(** The [result] object of [applyRuleBasedModeration]. *)
Record RuleResult := {
  r_flags : list Flag;
  r_severity : string;
  r_action : string;
  r_confidence : Q;
  r_definitive : bool
}.

Definition initialRuleResult : RuleResult :=
  {| r_flags := []; r_severity := "none"; r_action := "none";
     r_confidence := 0; r_definitive := false |}.

(** Body of the keyword loop for one keyword. *)
Definition keywordStep (lowerContent category : string) (rule : Rule)
    (result : RuleResult) (keyword : string) : RuleResult :=
  if Js.includes lowerContent (Js.toLowerCase keyword) then
    let flag := KeywordFlag category keyword
                  (Js.indexOf lowerContent (Js.toLowerCase keyword)) in
    if decide (getSeverityLevel (severity rule) > getSeverityLevel (r_severity result)) then
      {| r_flags := r_flags result ++ [flag];
         r_severity := severity rule;
         r_action := action rule;
         r_confidence := 0.8;
         r_definitive := bool_decide (severity rule = "critical") |}
    else
      {| r_flags := r_flags result ++ [flag];
         r_severity := r_severity result;
         r_action := r_action result;
         r_confidence := r_confidence result;
         r_definitive := r_definitive result |}
  else result.

(** Body of the pattern loop for one pattern. *)
Definition patternStep (content category : string) (rule : Rule)
    (result : RuleResult) (pattern : Regex.Pattern) : RuleResult :=
  if Regex.test pattern content then
    let flag := PatternFlag category (Regex.toString pattern)
                  (Regex.match0 pattern content) in
    if decide (getSeverityLevel (severity rule) > getSeverityLevel (r_severity result)) then
      {| r_flags := r_flags result ++ [flag];
         r_severity := severity rule;
         r_action := action rule;
         r_confidence := 0.7;
         r_definitive := r_definitive result |}
    else
      {| r_flags := r_flags result ++ [flag];
         r_severity := r_severity result;
         r_action := r_action result;
         r_confidence := r_confidence result;
         r_definitive := r_definitive result |}
  else result.

(** Body of the loop over rule categories. *)
Definition ruleStep (content : string) (result : RuleResult)
    (entry : string * Rule) : RuleResult :=
  let '(category, rule) := entry in
  let result1 :=
    match keywords rule with
    | Some ks => foldl (keywordStep (Js.toLowerCase content) category rule) result ks
    | None => result
    end in
  match patterns rule with
  | Some ps => foldl (patternStep content category rule) result1 ps
  | None => result1
  end.

(** [applyRuleBasedModeration], over an arbitrary rule table. *)
Definition applyRules (rules : list (string * Rule)) (content : string) : RuleResult :=
  foldl (ruleStep content) initialRuleResult rules.

Definition applyRuleBasedModeration (content : string) : RuleResult :=
  applyRules moderationRules content.

(** A value about to be spread into [push(...)]. *)
Inductive Spreadable :=
| Arr (l : list Flag)
| NotIterable.

(** The object [performAIAnalysis] returns. *)
Record AIResult := {
  ai_severity : string;
  ai_flags : Spreadable;
  ai_action : string;
  ai_confidence : Q;
  ai_supportiveResponse : option string;
  ai_details : option string;
  ai_error : option string
}.

Definition aiUnavailable : AIResult :=
  {| ai_severity := "none"; ai_flags := Arr []; ai_action := "none";
     ai_confidence := 0; ai_supportiveResponse := None; ai_details := None;
     ai_error := Some "AI analysis unavailable" |}.

(** [await this.model.generateContent(prompt)] then [JSON.parse]: the
    message is sent, and the reply is what the classifier makes of it. *)
Definition askClassifier (content : string) : M AIJson := λ w,
  let w1 := with_aiCalls (aiCalls w ++ [content]) w in
  match classifier w content with
  | AIRejects => (Throw "generateContent rejected", w1)
  | AIUnparsable => (Throw "Unexpected token in JSON", w1)
  | AIObject j => (Ok j, w1)
  end.

(** The object built from the parsed reply: [analysis.severity || 'none'],
    [analysis.flags || []], and so on. *)
Definition aiResultOf (analysis : AIJson) : AIResult :=
  {| ai_severity := Js.or_str (j_severity analysis) "none";
     ai_flags := match j_flags analysis with
                 | FlagsFalsy => Arr []
                 | FlagsArray l => Arr l
                 | FlagsNotIterable => NotIterable
                 end;
     ai_action := Js.or_str (j_action analysis) "none";
     ai_confidence := default 0%Q (j_confidence analysis);
     ai_supportiveResponse := j_supportive_response analysis;
     ai_details := j_details analysis;
     ai_error := None |}.

Definition performAIAnalysis (content : string) : M AIResult :=
  try_catch
    (analysis ← askClassifier content;
     mret (aiResultOf analysis))
    (λ _, consoleError "AI analysis failed:";; mret aiUnavailable).

(** [context = {}] *)
Record Context := {
  c_sessionId : option string;
  c_participantId : option string
}.

(** The verdict [analyzeContent] returns. *)
Record Analysis := {
  a_content : string;
  a_timestamp : option IsoString;
  a_severity : string;
  a_flags : list Flag;
  a_action : string;
  a_confidence : Q;
  a_sessionId : option string;
  a_participantId : option string;
  a_aiAnalysis : option string;
  a_error : option string
}.

(** [Math.max(a, b)] *)
Definition Math_max (a b : Q) : Q := if Qlt_le_dec a b then b else a.

(** The verdict once the rule stage has been folded in. *)
Definition afterRules (content : string) (context : Context) (stamp : IsoString)
    (ruleBasedResult : RuleResult) : Analysis :=
  let adopt := bool_decide (r_severity ruleBasedResult ≠ "none") in
  {| a_content := content;
     a_timestamp := Some stamp;
     a_severity := if adopt then r_severity ruleBasedResult else "none";
     a_flags := [] ++ r_flags ruleBasedResult;
     a_action := if adopt then r_action ruleBasedResult else "none";
     a_confidence := if adopt then r_confidence ruleBasedResult else 0%Q;
     a_sessionId := c_sessionId context;
     a_participantId := c_participantId context;
     a_aiAnalysis := None;
     a_error := None |}.

(** "Combine results (take higher severity)": the three assignments under
    the [if]. *)
Definition combine (analysis : Analysis) (aiResult : AIResult) : Analysis :=
  if decide (getSeverityLevel (ai_severity aiResult) > getSeverityLevel (a_severity analysis)) then
    {| a_content := a_content analysis;
       a_timestamp := a_timestamp analysis;
       a_severity := ai_severity aiResult;
       a_flags := a_flags analysis;
       a_action := ai_action aiResult;
       a_confidence := Math_max (a_confidence analysis) (ai_confidence aiResult);
       a_sessionId := a_sessionId analysis;
       a_participantId := a_participantId analysis;
       a_aiAnalysis := a_aiAnalysis analysis;
       a_error := a_error analysis |}
  else analysis.

(** The verdict after [analysis.flags.push] of the elements [l] and
    [analysis.aiAnalysis = details]. *)
Definition withAI (analysis : Analysis) (l : list Flag) (details : option string) : Analysis :=
  {| a_content := a_content analysis;
     a_timestamp := a_timestamp analysis;
     a_severity := a_severity analysis;
     a_flags := a_flags analysis ++ l;
     a_action := a_action analysis;
     a_confidence := a_confidence analysis;
     a_sessionId := a_sessionId analysis;
     a_participantId := a_participantId analysis;
     a_aiAnalysis := details;
     a_error := a_error analysis |}.

Definition notIterable : string :=
  "Spread syntax requires ...iterable[Symbol.iterator] to be a function".

(** [analysis.flags.push(...aiResult.flags); analysis.aiAnalysis = aiResult.details] *)
Definition pushFlags (analysis : Analysis) (aiResult : AIResult) : M Analysis :=
  match ai_flags aiResult with
  | NotIterable => throw notIterable
  | Arr l => mret (withAI analysis l (ai_details aiResult))
  end.

(** The event [AIModerationService.logModerationEvent] builds. *)
Definition eventOf (analysis : Analysis) : ModerationEvent :=
  {| me_type := "content_analysis";
     me_participantId := a_participantId analysis;
     me_content := a_content analysis;
     me_severity := a_severity analysis;
     me_flags := a_flags analysis;
     me_action := a_action analysis;
     me_confidence := a_confidence analysis;
     me_aiAnalysis := a_aiAnalysis analysis |}.

(** [logModerationEvent(analysis)], the helper of the service. *)
Definition logModerationEvent (analysis : Analysis) : M unit :=
  try_catch
    (RedisSessionManager.logModerationEvent (a_sessionId analysis) (eventOf analysis);;
     mret tt)
    (λ _, consoleError "Failed to log moderation event:").

(** The verdict of the [catch] block of [analyzeContent]. *)
Definition fallbackVerdict (content message : string) : Analysis :=
  {| a_content := content; a_timestamp := None; a_severity := "none";
     a_flags := []; a_action := "none"; a_confidence := 0;
     a_sessionId := None; a_participantId := None; a_aiAnalysis := None;
     a_error := Some message |}.

(** The guard of the AI stage. *)
Definition aiStageDue (content : string) (ruleBasedResult : RuleResult) : bool :=
  bool_decide (Z.of_nat (String.length content) > 10) && negb (r_definitive ruleBasedResult).

Definition analyzeContent (content : string) (context : Context) : M Analysis :=
  try_catch
    (stamp ← isoNow;
     let ruleBasedResult := applyRuleBasedModeration content in
     let analysis := afterRules content context stamp ruleBasedResult in
     analysis ←
       (if aiStageDue content ruleBasedResult then
          aiResult ← performAIAnalysis content;
          pushFlags (combine analysis aiResult) aiResult
        else mret analysis);
     logModerationEvent analysis;;
     mret analysis)
    (λ message,
       consoleError "Content analysis failed:";;
       mret (fallbackVerdict content message)).

(** One entry of [this.emergencyProtocols]; a field the entry does not
    have is [None]. *)
Record Protocol := {
  notify_moderators : option bool;
  emergency_contact : option bool;
  session_pause : option bool;
  escalate_to_admin : option bool;
  auto_response : option string;
  auto_warning : option bool;
  increase_monitoring : option bool;
  strike_system : option bool;
  block_message : option bool;
  warn_user : option bool;
  log_incident : option bool
}.

Definition noProtocolFields : Protocol :=
  {| notify_moderators := None; emergency_contact := None; session_pause := None;
     escalate_to_admin := None; auto_response := None; auto_warning := None;
     increase_monitoring := None; strike_system := None; block_message := None;
     warn_user := None; log_incident := None |}.

(** [this.emergencyProtocols[action]]: an action that names no protocol
    yields [undefined].  A name inherited from [Object.prototype] yields
    the inherited member, a truthy value that has none of the fields of a
    protocol. *)
Definition emergencyProtocols (action : string) : option Protocol :=
  if decide (action = "immediate_intervention") then
    Some {| notify_moderators := Some true; emergency_contact := Some true;
            session_pause := Some false; escalate_to_admin := Some true;
            auto_response := Some "I'm concerned about what you've shared. You're not alone, and help is available. A trained moderator will join shortly.";
            auto_warning := None; increase_monitoring := None; strike_system := None;
            block_message := None; warn_user := None; log_incident := None |}
  else if decide (action = "warn_and_monitor") then
    Some {| notify_moderators := Some true; emergency_contact := None;
            session_pause := None; escalate_to_admin := None; auto_response := None;
            auto_warning := Some true; increase_monitoring := Some true;
            strike_system := Some true;
            block_message := None; warn_user := None; log_incident := None |}
  else if decide (action = "auto_filter") then
    Some {| notify_moderators := None; emergency_contact := None;
            session_pause := None; escalate_to_admin := None; auto_response := None;
            auto_warning := None; increase_monitoring := None; strike_system := None;
            block_message := Some true; warn_user := Some true; log_incident := Some true |}
  else if decide (action ∈ Js.inheritedNames) then Some noProtocolFields
  else None.

Definition truthy (b : option bool) : bool := default false b.

(** [analysis.aiAnalysis?.supportiveResponse]: [aiAnalysis] holds the
    classifier's [details], a string or [undefined]; reading a property
    that a string does not have yields [undefined]. *)
Definition supportiveResponseOf (aiAnalysis : option string) : option string :=
  match aiAnalysis with
  | Some _details => None
  | None => None
  end.

Record ActionResults := {
  ar_action : string;
  ar_executed : list string;
  ar_timestamp : IsoString
}.

Inductive ActionReturn :=
| ReturnsUndefined
| ReturnsResults (r : ActionResults)
| ReturnsError (message : string).

(** The block under [if (analysis.action === 'immediate_intervention')];
    yields the names pushed on [actionResults.executed]. *)
Definition interveneNow (protocol : Protocol) (analysis : Analysis)
    (sessionId participantId : string) : M (list string) :=
  ex1 ← (if truthy (notify_moderators protocol) then
           iso ← isoNow;
           emit "moderators" "crisis_alert"
             (CrisisAlert sessionId participantId (a_content analysis) (a_severity analysis) iso);;
           mret ["moderator_notification"]
         else mret []);
  ex2 ← (match supportiveResponseOf (a_aiAnalysis analysis) with
         | Some message =>
             if decide (message = "") then mret []
             else
               iso ← isoNow;
               emit ("sanctuary_" ++ sessionId) "system_message"
                 (SystemMessage "support" message iso);;
               mret ["supportive_response"]
         | None => mret []
         end);
  storeEmergencyAlert sessionId
    {| ea_type := "crisis_intervention";
       ea_participantId := participantId;
       ea_content := a_content analysis;
       ea_severity := Some "critical";
       ea_autoResponse := supportiveResponseOf (a_aiAnalysis analysis) |};;
  mret (ex1 ++ ex2 ++ ["emergency_alert_logged"])%list.

Definition executeModerationAction (analysis : Analysis)
    (sessionId participantId : string) : M ActionReturn :=
  try_catch
    (match emergencyProtocols (a_action analysis) with
     | None => mret ReturnsUndefined
     | Some protocol =>
         stamp ← isoNow;
         ex1 ← (if decide (a_action analysis = "immediate_intervention")
                then interveneNow protocol analysis sessionId participantId
                else mret []);
         ex2 ← (if bool_decide (a_action analysis = "warn_and_monitor")
                   && truthy (auto_warning protocol) then
                  iso ← isoNow;
                  emit ("sanctuary_" ++ sessionId) "moderation_warning"
                    (ModerationWarning participantId "content_warning"
                       "Please keep the conversation supportive and appropriate for all participants."
                       iso);;
                  mret ["warning_sent"]
                else mret []);
         ex3 ← (if bool_decide (a_action analysis = "auto_filter")
                   && truthy (block_message protocol) then
                  iso ← isoNow;
                  emit ("sanctuary_" ++ sessionId) "message_filtered"
                    (MessageFiltered participantId "Content filtered by automated moderation" iso);;
                  mret ["message_blocked"]
                else mret []);
         mret (ReturnsResults {| ar_action := a_action analysis;
                                 ar_executed := (ex1 ++ ex2 ++ ex3)%list;
                                 ar_timestamp := stamp |})
     end)
    (λ message,
       consoleError "Failed to execute moderation action:";;
       mret (ReturnsError message)).

(** ** Reading a log entry

    The objects [getModerationLogs] returns are read by property name.
    A moderation entry is [{ ...event, sessionId, timestamp, id }], an
    alert [{ ...alert, sessionId, timestamp, id, severity }], a voice
    configuration [{ ...voiceConfig, timestamp, sessionId, participantId }]
    and a session snapshot [{ ...state, timestamp, lastUpdated }]; a
    property the object does not have is [undefined], here [None]. *)

(** [log.participantId] *)
Definition participantIdOf (log : Stored) : option JsVal :=
  match log with
  | SModeration e => VStr <$> me_participantId (ml_event e)
  | SAlert a => Some (VStr (ea_participantId (al_alert a)))
  | SVoice v => Some (VStr (vc_participantId v))
  | SSession s => fields s !! "participantId"
  end.

(** [log.timestamp] *)
Definition timestampOf (log : Stored) : option Z :=
  match log with
  | SModeration e => Some (ml_timestamp e)
  | SAlert a => Some (al_timestamp a)
  | SVoice v => Some (vc_timestamp v)
  | SSession s => timestamp s
  end.

(** [log.severity] *)
Definition severityOf (log : Stored) : option JsVal :=
  match log with
  | SModeration e => Some (VStr (me_severity (ml_event e)))
  | SAlert a => Some (VStr (al_severity a))
  | SVoice v => vc_config v !! "severity"
  | SSession s => fields s !! "severity"
  end.

(** [log.action] *)
Definition actionOf (log : Stored) : option JsVal :=
  match log with
  | SModeration e => Some (VStr (me_action (ml_event e)))
  | SAlert _ => None
  | SVoice v => vc_config v !! "action"
  | SSession s => fields s !! "action"
  end.

Definition flagType (flag : Flag) : string :=
  match flag with
  | KeywordFlag type _ _ => type
  | PatternFlag type _ _ => type
  | AIFlag type _ => type
  end.

(** [log.flags.forEach]: the flags of a moderation entry, or the message
    of the TypeError the call throws on an object whose [flags] is
    [undefined] or a value without [forEach]. *)
Definition flagsField (log : Stored) : string + list Flag :=
  let ofField (field : option JsVal) : string + list Flag :=
    match field with
    | None => inl "Cannot read properties of undefined (reading 'forEach')"
    | Some _ => inl "log.flags.forEach is not a function"
    end in
  match log with
  | SModeration e => inr (me_flags (ml_event e))
  | SAlert _ => ofField None
  | SVoice v => ofField (vc_config v !! "flags")
  | SSession s => ofField (fields s !! "flags")
  end.

(** A value used as a property key: [String(value)]. *)
Definition keyOf (value : option JsVal) : string :=
  match value with
  | None => "undefined"
  | Some (VStr s) => s
  | Some (VNum n) => pretty n
  | Some (VBool true) => "true"
  | Some (VBool false) => "false"
  end.

(** [counts[key] = (counts[key] || 0) + 1].  (Keys inherited from
    [Object.prototype] are not modelled.) *)
Definition bump (key : string) (counts : gmap string nat) : gmap string nat :=
  <[key := S (default 0%nat (counts !! key))]> counts.

(** [counts.key || 0], and [counts.key > 0] *)
Definition countOf (key : string) (counts : gmap string nat) : nat :=
  default 0%nat (counts !! key).

(** The filter of [analyzeParticipantBehavior]:
    [log.participantId === participantId && Date.now() - log.timestamp < timeWindow].
    The clock is read for the entries of the participant only. *)
Fixpoint recentLogsOf (participantId : string) (timeWindow : Z) (logs : list Stored)
    : M (list Stored) :=
  match logs with
  | [] => mret []
  | log :: logs =>
      keep ← ((if bool_decide (participantIdOf log = Some (VStr participantId)) then
                now ← dateNow;
                mret (match timestampOf log with
                      | Some t => bool_decide (now - t < timeWindow)
                      | None => false
                      end)
              else mret false) : M bool);
      rest ← recentLogsOf participantId timeWindow logs;
      mret (if (keep : bool) then (log :: rest)%list else rest)
  end.

(** [log => log.severity !== 'none'] *)
Definition flagged (log : Stored) : Prop := severityOf log ≠ Some (VStr "none").

#[global] Instance flagged_dec log : Decision (flagged log).
Proof. unfold flagged. apply _. Defined.

(** [flaggedCount / messageCount > 0.3].  With no message the quotient is
    NaN and the comparison false; otherwise both counts are small
    integers, for which the comparison of the quotient with the literal
    agrees with the comparison of [10 * flaggedCount] with
    [3 * messageCount]. *)
Definition frequentlyFlagged (flaggedCount messageCount : nat) : bool :=
  bool_decide (messageCount ≠ 0%nat)
  && bool_decide (3 * Z.of_nat messageCount < 10 * Z.of_nat flaggedCount).

Record Behavior := {
  b_participantId : string;
  b_timeWindow : Q;
  b_messageCount : nat;
  b_flaggedCount : nat;
  b_severityDistribution : gmap string nat;
  b_patterns : list string;
  b_riskScore : Z
}.

Inductive BehaviorReturn :=
| BehaviorOf (analysis : Behavior)
| BehaviorError (message : string).

(** The default of the parameter [timeWindow]: five minutes. *)
Definition defaultTimeWindow : Z := 300000.

(** The [analysis] object built from the entries that passed the filter. *)
Definition behaviorOf (participantId : string) (timeWindow : Z)
    (participantLogs : list Stored) : Behavior :=
  let messageCount := length participantLogs in
  let flaggedCount := length (filter flagged participantLogs) in
  let severityDistribution :=
    foldl (λ counts log, bump (keyOf (severityOf log)) counts) ∅ participantLogs in
  let patterns :=
    ((if bool_decide (10 < messageCount)%nat then ["high_volume"] else [])
     ++ (if frequentlyFlagged flaggedCount messageCount then ["frequently_flagged"] else [])
     ++ (if bool_decide (0 < countOf "critical" severityDistribution)%nat
         then ["crisis_indicators"] else []))%list in
  let riskScore :=
    Z.min 100 (Z.of_nat flaggedCount * 10
               + Z.of_nat (countOf "critical" severityDistribution) * 50
               + Z.of_nat (countOf "high" severityDistribution) * 20
               + Z.of_nat (length patterns) * 5) in
  {| b_participantId := participantId;
     b_timeWindow := (inject_Z timeWindow / 1000)%Q;
     b_messageCount := messageCount;
     b_flaggedCount := flaggedCount;
     b_severityDistribution := severityDistribution;
     b_patterns := patterns;
     b_riskScore := riskScore |}.

Definition analyzeParticipantBehavior (sessionId participantId : string) (timeWindow : Z)
    : M BehaviorReturn :=
  try_catch
    (logs ← getModerationLogs sessionId 100;
     participantLogs ← recentLogsOf participantId timeWindow logs;
     mret (BehaviorOf (behaviorOf participantId timeWindow participantLogs)))
    (λ message, consoleError "Behavior analysis failed:";; mret (BehaviorError message)).

(** The loop [logs.forEach] of [generateSessionSummary]; it stops at the
    first entry whose flags cannot be walked. *)
Fixpoint tally (logs : list Stored) (severityBreakdown topFlags : gmap string nat)
    : M (gmap string nat * gmap string nat) :=
  match logs with
  | [] => mret (severityBreakdown, topFlags)
  | log :: logs =>
      let severityBreakdown := bump (keyOf (severityOf log)) severityBreakdown in
      match flagsField log with
      | inl message => throw message
      | inr flags =>
          tally logs severityBreakdown
            (foldl (λ counts flag, bump (flagType flag) counts) topFlags flags)
      end
  end.

Record Summary := {
  s_sessionId : string;
  s_totalMessages : nat;
  s_flaggedMessages : nat;
  s_severityBreakdown : gmap string nat;
  s_topFlags : gmap string nat;
  s_interventions : nat;
  s_overallRisk : string
}.

Inductive SummaryReturn :=
| SummaryOf (summary : Summary)
| SummaryError (message : string).

(** The [summary] object once the loop has run. *)
Definition summaryOf (sessionId : string) (logs : list Stored)
    (severityBreakdown topFlags : gmap string nat) : Summary :=
  let interventions :=
    length (filter (λ log, actionOf log = Some (VStr "immediate_intervention")) logs) in
  let overallRisk :=
    if bool_decide (0 < interventions)%nat
       || bool_decide (0 < countOf "critical" severityBreakdown)%nat then "high"
    else if bool_decide (3 < countOf "high" severityBreakdown)%nat then "medium"
    else "low" in
  {| s_sessionId := sessionId;
     s_totalMessages := length logs;
     s_flaggedMessages := length (filter flagged logs);
     s_severityBreakdown := severityBreakdown;
     s_topFlags := topFlags;
     s_interventions := interventions;
     s_overallRisk := overallRisk |}.

Definition generateSessionSummary (sessionId : string) : M SummaryReturn :=
  try_catch
    (logs ← getModerationLogs sessionId defaultLimit;
     '(severityBreakdown, topFlags) ← tally logs ∅ ∅;
     mret (SummaryOf (summaryOf sessionId logs severityBreakdown topFlags)))
    (λ message, consoleError "Failed to generate session summary:";; mret (SummaryError message)).

End AIModerationService.

Import AIModerationService.

(* ===================================================================== *)
(** * Worlds to run examples in *)
(* ===================================================================== *)

(** A world to run examples in: memory mode, nothing stored, a classifier
    that answers every message with [reply]. *)
Definition blankWorld (reply : AIReply) : World :=
  {| redis := None; redisFault := λ _, false; redisLog := [];
     clock := λ n, 1700000000000 + Z.of_nat n; clockReads := 0;
     sessionStates := ∅; voiceConfigs := ∅; moderationLogs := []; emergencyAlerts := [];
     console := []; classifier := λ _, reply; aiCalls := []; emitted := [] |}.

(** The same with a connected Redis client whose commands fail as [fault] says. *)
Definition redisWorld (reply : AIReply) (fault : nat -> bool) : World :=
  with_redis (Some emptyDb)
    {| redis := None; redisFault := fault; redisLog := [];
       clock := λ n, 1700000000000 + Z.of_nat n; clockReads := 0;
       sessionStates := ∅; voiceConfigs := ∅; moderationLogs := []; emergencyAlerts := [];
       console := []; classifier := λ _, reply; aiCalls := []; emitted := [] |}.

(* ===================================================================== *)
(** * Vocabulary of the properties *)
(* ===================================================================== *)

(** The verdict a computation returned, and the world it left. *)
Definition result {A} (r : Outcome A * World) : option A :=
  match r.1 with Ok a => Some a | Throw _ => None end.

Definition world_of {A} (r : Outcome A * World) : World := r.2.

(** The keyword test of the rule loop. *)
Definition keywordHit (content keyword : string) : bool :=
  Js.includes (Js.toLowerCase content) (Js.toLowerCase keyword).

(** A rule matches when one of its keywords or one of its patterns does. *)
Definition ruleMatched (content : string) (rule : Rule) : bool :=
  existsb (keywordHit content) (default [] (keywords rule))
  || existsb (λ p, Regex.test p content) (default [] (patterns rule)).

Definition matchedRules (content : string) (rules : list (string * Rule)) :
    list (string * Rule) :=
  filter (λ entry, ruleMatched content entry.2 = true) rules.

(** The greatest level among the severities of [rules]; 0 (the level of
    ['none']) when there is none. *)
Definition maxLevel (rules : list (string * Rule)) : Z :=
  foldr (λ entry acc, Z.max (getSeverityLevel (severity entry.2)) acc) 0 rules.

(** Where the severity of a result comes from: it is the one the fold
    started with, or that of a rule that matched. *)
Definition from (content : string) (rule : Rule) (res0 res : RuleResult) : Prop :=
  r_severity res = r_severity res0
  ∨ (ruleMatched content rule = true ∧ r_severity res = severity rule).

(** The definitive mark is set exactly when the running severity is
    ['critical']. *)
Definition coherent (res : RuleResult) : Prop :=
  r_definitive res = bool_decide (r_severity res = "critical").

(** Only the keyword loop sets the mark: the table must not give a
    pattern rule the severity ['critical']. *)
Definition patternsBelowCritical (rule : Rule) : bool :=
  bool_decide (patterns rule = None) || negb (bool_decide (severity rule = "critical")).

(** What [performAIAnalysis] returns for a reply of the classifier. *)
Definition aiResultFor (reply : AIReply) : AIResult :=
  match reply with
  | AIObject j => aiResultOf j
  | AIRejects | AIUnparsable => aiUnavailable
  end.


(** The verdict of the rule stage alone, as [analyzeContent] holds it
    before the AI stage. *)
Definition ruleVerdict (content : string) (context : Context) (w : World) : Analysis :=
  afterRules content context (ISO (clock w (clockReads w))) (applyRuleBasedModeration content).

(** The AI stage was invoked by a run that led from [w] to [w']. *)
Definition aiInvoked (w w' : World) : bool :=
  bool_decide (aiCalls w' ≠ aiCalls w).

(** While no rule of a positive level has matched, the result still holds
    its initial severity, action and confidence. *)
Definition untouched (res : RuleResult) : Prop :=
  getSeverityLevel (r_severity res) = 0 →
  r_severity res = "none" ∧ r_action res = "none" ∧ r_confidence res = 0%Q.

(** The confidence of the verdict a run returned (0 if it threw). *)
Definition confidenceOf (r : Outcome Analysis * World) : Q :=
  default 0%Q (a_confidence <$> result r).

(** Contexts and classifier replies used in the examples. *)
Definition someContext : Context :=
  {| c_sessionId := Some "room-1"; c_participantId := Some "anon-7" |}.

Definition mildReply : AIJson :=
  {| j_severity := Some "low";
     j_flags := FlagsArray [AIFlag "tone" "irritated"];
     j_action := Some "monitor";
     j_confidence := Some 0.9%Q;
     j_supportive_response := None;
     j_details := Some "mild frustration" |}.

Definition alarmedReply : AIJson :=
  {| j_severity := Some "critical";
     j_flags := FlagsArray [AIFlag "crisis" "implicit ideation"];
     j_action := Some "intervention";
     j_confidence := Some 0.95%Q;
     j_supportive_response := Some "You matter.";
     j_details := Some "possible ideation" |}.

Definition brokenReply : AIJson :=
  {| j_severity := Some "low";
     j_flags := FlagsNotIterable;
     j_action := None;
     j_confidence := None;
     j_supportive_response := None;
     j_details := None |}.

(** The entries the store builds at the clock readings of [w]. *)
Definition alertEntryAt (sessionId : string) (alert : EmergencyAlert) (w : World) : AlertEntry :=
  {| al_alert := alert; al_sessionId := sessionId;
     al_timestamp := clock w (S (clockReads w));
     al_id := emergencyKey sessionId (clock w (clockReads w));
     al_severity := Js.or_str (ea_severity alert) "high" |}.

Definition moderationEntryAt (sessionId : option string) (event : ModerationEvent)
    (w : World) : ModerationEntry :=
  {| ml_event := event; ml_sessionId := sessionId;
     ml_timestamp := clock w (S (clockReads w));
     ml_id := moderationKey sessionId (clock w (clockReads w)) |}.

(** The alert [executeModerationAction] hands to the store. *)
Definition crisisAlertOf (analysis : Analysis) (participantId : string) : EmergencyAlert :=
  {| ea_type := "crisis_intervention";
     ea_participantId := participantId;
     ea_content := a_content analysis;
     ea_severity := Some "critical";
     ea_autoResponse := supportiveResponseOf (a_aiAnalysis analysis) |}.

(** The first command of a client fails, the later ones succeed. *)
Definition firstCommandFails (n : nat) : bool := bool_decide (n = 0%nat).

Definition noFault (n : nat) : bool := false.

Definition emptySession : SessionState :=
  {| participants := Some []; currentParticipants := Some 0;
     timestamp := None; lastUpdated := None; fields := {[ "topic" := VStr "night shift" ]} |}.

Definition sampleVoice : gmap string JsVal := {[ "voiceId" := VStr "calm-1" ]}.

Definition sampleEvent : ModerationEvent :=
  {| me_type := "content_analysis"; me_participantId := Some "anon-7";
     me_content := "hello"; me_severity := "none"; me_flags := [];
     me_action := "none"; me_confidence := 0; me_aiAnalysis := None |}.

Definition sampleAlert : EmergencyAlert :=
  {| ea_type := "crisis_intervention"; ea_participantId := "anon-7";
     ea_content := "I want to kill myself"; ea_severity := Some "critical";
     ea_autoResponse := None |}.

(** The names [executeModerationAction] reports as executed ([[]] when it
    returns nothing or an error). *)
Definition executedOf (r : Outcome ActionReturn * World) : list string :=
  match r.1 with
  | Ok (ReturnsResults report) => ar_executed report
  | _ => []
  end.

(** A verdict calling for an immediate intervention. *)
Definition crisisVerdict : Analysis :=
  {| a_content := "I want to kill myself"; a_timestamp := Some (ISO 1700000000000);
     a_severity := "critical";
     a_flags := [KeywordFlag "crisis_detection" "kill myself" 10];
     a_action := "immediate_intervention"; a_confidence := 0.8;
     a_sessionId := Some "room-1"; a_participantId := Some "anon-7";
     a_aiAnalysis := None; a_error := None |}.

(** The store accepts writes: the in-memory fallback, or a client none of
    whose commands rejects. *)
Definition storeAccepts (w : World) : Prop :=
  redis w = None ∨ ∀ n, redisFault w n = false.

(** An emergency alert is held by the store: in the process-wide array, or
    under its key with the 30-day TTL. *)
Definition alertStored (w : World) (e : AlertEntry) : Prop :=
  match redis w with
  | None => e ∈ emergencyAlerts w
  | Some db => kv db !! al_id e = Some (2592000, SAlert e)
  end.

(** A moderation event is held by the store: in the process-wide array, or
    under its key with the 7-day TTL. *)
Definition eventStored (w : World) (e : ModerationEntry) : Prop :=
  match redis w with
  | None => e ∈ moderationLogs w
  | Some db => kv db !! ml_id e = Some (604800, SModeration e)
  end.

(** The snapshot the store holds for a session, whatever the backend. *)
Definition storedSession (w : World) (sessionId : string) : option SessionState :=
  match redis w with
  | None => sessionStates w !! sessionId
  | Some db => asSession <$> (snd <$> kv db !! sessionKey sessionId)
  end.

(** [currentParticipants == participants.length] on a snapshot. *)
Definition counted (st : SessionState) : bool :=
  match participants st, currentParticipants st with
  | Some roster, Some n => bool_decide (n = Z.of_nat (length roster))
  | _, _ => false
  end.

(** Join/update and leave events, each aimed at a session. *)
Inductive RosterOp :=
| Join (participantId : string) (participantData : gmap string JsVal)
| Leave (participantId : string).

Definition runOp (sessionId : string) (op : RosterOp) : M bool :=
  match op with
  | Join participantId participantData =>
      updateParticipant sessionId participantId participantData
  | Leave participantId => removeParticipant sessionId participantId
  end.

(** What the caller of an operation sees: [true] only when it resolved to
    [true]. *)
Definition succeeded (r : Outcome bool * World) : bool :=
  match r.1 with Ok b => b | Throw _ => false end.

Record Step := {
  step_session : string;
  step_op : RosterOp;
  step_ok : bool;
  step_before : World;
  step_after : World
}.

(** Running a sequence of events, one after the other; one [Step] per event. *)
Fixpoint runOps (ops : list (string * RosterOp)) (w : World) : list Step :=
  match ops with
  | [] => []
  | (sessionId, op) :: rest =>
      let r := runOp sessionId op w in
      {| step_session := sessionId; step_op := op; step_ok := succeeded r;
         step_before := w; step_after := r.2 |} :: runOps rest r.2
  end.

(** How many roster entries carry the identifier [participantId]. *)
Definition occurrences (participantId : string) (roster : list Participant) : nat :=
  length (filter (hasId participantId) roster).

(** [participantData] does not rename the entry: it has no [id] field, or
    its [id] is [participantId]. *)
Definition keepsId (participantId : string) (participantData : gmap string JsVal) : Prop :=
  participantData !! "id" = None ∨ participantData !! "id" = Some (VStr participantId).

(** The body shared by [updateParticipant] and [removeParticipant]: read
    the snapshot, rewrite its roster with [g], write it back. *)
Definition rewriteRoster (sessionId : string) (g : list Participant → list Participant)
    (label : string) : M bool :=
  try_catch
    (found ← getSessionState sessionId;
     match found with
     | None => mret false
     | Some sessionState =>
         setSessionState sessionId
           (withRoster sessionState (g (default [] (participants sessionState))))
     end)
    (λ _, consoleError label;; mret false).

(** The roster after an event. *)
Definition rosterAfter (op : RosterOp) (roster : list Participant) : list Participant :=
  match op with
  | Join participantId participantData => upsert participantId participantData roster
  | Leave participantId => filter (λ p, ¬ hasId participantId p) roster
  end.

(** A step of a run left the snapshot of its session as the event says:
    an event that reports success has stored the rewritten roster and its
    length, with the other fields as they were; one that reports failure
    has left the snapshot as it was. *)
Definition stepSound (s : Step) : Prop :=
  if step_ok s then
    ∃ before after,
      storedSession (step_before s) (step_session s) = Some before
      ∧ storedSession (step_after s) (step_session s) = Some after
      ∧ participants after
        = Some (rosterAfter (step_op s) (default [] (participants before)))
      ∧ currentParticipants after
        = Some (Z.of_nat (length (rosterAfter (step_op s)
                                    (default [] (participants before)))))
      ∧ fields after = fields before
  else
    storedSession (step_after s) (step_session s)
    = storedSession (step_before s) (step_session s).

(** The snapshot the store holds for the session, if it holds one, has
    [currentParticipants == participants.length]. *)
Definition sessionCounted (w : World) (sessionId : string) : Prop :=
  ∀ st, storedSession w sessionId = Some st → counted st = true.

(** The events of one session. *)
Definition onSession (sessionId : string) (ops : list RosterOp) : list (string * RosterOp) :=
  (λ op, (sessionId, op)) <$> ops.

(** A session with an empty roster, in memory mode. *)
Definition worldWithRoom : World :=
  with_sessionStates {[ "room-1" := emptySession ]} (blankWorld AIRejects).

Definition renaming : gmap string JsVal := {[ "id" := VStr "guest"; "alias" := VStr "Sky" ]}.

Definition plainData : gmap string JsVal := {[ "alias" := VStr "Sky" ]}.

Definition sampleOps : list RosterOp :=
  [ Join "anon-7" plainData;
    Join "anon-9" plainData;
    Join "anon-7" {[ "isMuted" := VBool true ]};
    Leave "anon-3";
    Leave "anon-9" ].

(** The roster the store holds for a session ([[]] when it holds none). *)
Definition storedRoster (w : World) (sessionId : string) : list Participant :=
  default [] (storedSession w sessionId ≫= participants).

(** The world after two joins under the identifier [anon-7], both with
    data that carries another [id]. *)
Definition afterTwoRenamingJoins : World :=
  world_of (updateParticipant "room-1" "anon-7" renaming
              (world_of (updateParticipant "room-1" "anon-7" renaming worldWithRoom))).

(** The commands issued between two worlds, and the TTLs they carry. *)
Definition issued (w w' : World) : list RedisCmd :=
  drop (length (redisLog w)) (redisLog w').

Definition ttlOf (c : RedisCmd) : option Z :=
  match c with
  | SETEX _ ttl _ => Some ttl
  | EXPIRE _ ttl => Some ttl
  | GET _ | LPUSH _ _ => None
  end.

Definition isSetex (c : RedisCmd) : bool :=
  match c with SETEX _ _ _ => true | _ => false end.

(** A computation leaves the observation [f] of the world as it found it. *)
Definition preserves {X A} (f : World → X) (m : M A) : Prop :=
  ∀ w, f (m w).2 = f w.

(** A computation never throws. *)
Definition total {A} (m : M A) : Prop := ∀ w, ∃ a, (m w).1 = Ok a.

(** Which backend is in use. *)
Definition memoryMode (w : World) : bool :=
  match redis w with None => true | Some _ => false end.

(** ** Vocabulary of the further properties *)

(** Severity, action, confidence and definitive mark of a rule result. *)
Definition tupleOf (res : RuleResult) : string * string * Q * bool :=
  (r_severity res, r_action res, r_confidence res, r_definitive res).

(** Whether the rule of a category matched. *)
Definition categoryMatched (content category : string) : bool :=
  match (list_to_map moderationRules : gmap string Rule) !! category with
  | Some rule => ruleMatched content rule
  | None => false
  end.

(** The flags one rule contributes: one per matching keyword, then one
    per matching pattern, in the order of the table. *)
Definition flagsOf (content : string) (entry : string * Rule) : list Flag :=
  (map (λ keyword, KeywordFlag entry.1 keyword
                     (Js.indexOf (Js.toLowerCase content) (Js.toLowerCase keyword)))
       (filter (λ keyword, keywordHit content keyword = true)
               (default [] (keywords entry.2)))
   ++ map (λ pattern, PatternFlag entry.1 (Regex.toString pattern)
                        (Regex.match0 pattern content))
          (filter (λ pattern, Regex.test pattern content = true)
                  (default [] (patterns entry.2))))%list.

(** The keywords of the crisis rule. *)
Definition crisisKeywords : list string :=
  [ "suicide"; "kill myself"; "end it all"; "not worth living";
    "hurt myself"; "self harm"; "cutting"; "overdose";
    "want to die"; "better off dead"; "can't take it anymore" ].

(** What one rule of the table makes of the running tuple: it takes over
    when it matches and lies strictly above the running severity; a
    keyword match gives confidence 0.8 and decides the definitive mark, a
    match by patterns alone gives 0.7 and leaves the mark. *)
Definition nextTuple (content : string) (rule : Rule)
    (t : string * string * Q * bool) : string * string * Q * bool :=
  if bool_decide (getSeverityLevel (severity rule) > getSeverityLevel t.1.1.1)%Z
  then
    if existsb (keywordHit content) (default [] (keywords rule))
    then (severity rule, action rule, 0.8%Q, bool_decide (severity rule = "critical"))
    else if existsb (λ p, Regex.test p content) (default [] (patterns rule))
         then (severity rule, action rule, 0.7%Q, t.2)
         else t
  else t.

(** What a run emitted on the socket server. *)
Definition newEmissions (w w' : World) : list Emission :=
  drop (length (emitted w)) (emitted w').

(** The actions the prompt of [performAIAnalysis] lets the classifier
    choose from: ["action": "none|monitor|warn|filter|intervention"]. *)
Definition promptActions : list string :=
  [ "none"; "monitor"; "warn"; "filter"; "intervention" ].

(** A message no rule matches, long enough for the AI stage. *)
Definition quietMessage : string := "everyone would be fine without me".

(** The voice configuration [setVoiceConfig] builds at the clock reading
    of [w]. *)
Definition voiceDataAt (sessionId participantId : string) (voiceConfig : gmap string JsVal)
    (w : World) : VoiceData :=
  {| vc_config := voiceConfig; vc_timestamp := clock w (clockReads w);
     vc_sessionId := sessionId; vc_participantId := participantId |}.

(** No command of the Redis client fails. *)
Definition reliable (w : World) : Prop := ∀ n, redisFault w n = false.

(** The entries of a session in the process-wide array, oldest first. *)
Definition sessionLogs (w : World) (sessionId : string) : list ModerationEntry :=
  filter (λ log, ml_sessionId log = Some sessionId) (moderationLogs w).

(** The keys on the moderation list of a session, newest first, and what
    is stored under a key. *)
Definition listedKeys (db : RedisDb) (sessionId : string) : list string :=
  default [] (lists db !! moderationListKey (Some sessionId)).

Definition readKey (db : RedisDb) (key : string) : option Stored :=
  snd <$> kv db !! key.

(** The server after an accepted [logModerationEvent] of the entry [e]:
    the entry under its key, the key at the head of the list of its
    session, both with the 7-day TTL. *)
Definition dbAfterLog (db : RedisDb) (e : ModerationEntry) : RedisDb :=
  applyCmd (EXPIRE (moderationListKey (ml_sessionId e)) 604800)
    (applyCmd (LPUSH (moderationListKey (ml_sessionId e)) (ml_id e))
       (applyCmd (SETEX (ml_id e) 604800 (SModeration e)) db)).

(** A second event, for the examples. *)
Definition laterEvent : ModerationEvent :=
  {| me_type := "content_analysis"; me_participantId := Some "anon-7";
     me_content := "I hate you"; me_severity := "high"; me_flags := [];
     me_action := "warn_and_monitor"; me_confidence := 0.8; me_aiAnalysis := None |}.

(** A clock that stands still. *)
Definition frozenClock (w : World) : World :=
  {| redis := redis w; redisFault := redisFault w; redisLog := redisLog w;
     clock := λ _, 1700000000000; clockReads := clockReads w;
     sessionStates := sessionStates w; voiceConfigs := voiceConfigs w;
     moderationLogs := moderationLogs w; emergencyAlerts := emergencyAlerts w;
     console := console w; classifier := classifier w; aiCalls := aiCalls w;
     emitted := emitted w |}.

(** The analysis a run returned, if it returned one. *)
Definition behaviorIn (r : Outcome BehaviorReturn * World) : option Behavior :=
  match r.1 with Ok (BehaviorOf b) => Some b | _ => None end.

Definition summaryIn (r : Outcome SummaryReturn * World) : option Summary :=
  match r.1 with Ok (SummaryOf s) => Some s | _ => None end.

(** The analysis of a participant of whom nothing is known. *)
Definition blankBehavior (participantId : string) (timeWindow : Z) : Behavior :=
  {| b_participantId := participantId;
     b_timeWindow := (inject_Z timeWindow / 1000)%Q;
     b_messageCount := 0; b_flaggedCount := 0; b_severityDistribution := ∅;
     b_patterns := []; b_riskScore := 0 |}.

(** The entries that pass the filter of [analyzeParticipantBehavior] when
    the clock is at its reading [n]: an entry of the participant is
    compared with the next reading of the clock, and kept if it is less
    than [timeWindow] old; the entries of others use no reading. *)
Fixpoint inWindow (clock : nat → Z) (n : nat) (participantId : string) (timeWindow : Z)
    (logs : list Stored) : list Stored :=
  match logs with
  | [] => []
  | log :: logs =>
      if bool_decide (participantIdOf log = Some (VStr participantId)) then
        let rest := inWindow clock (S n) participantId timeWindow logs in
        if match timestampOf log with
           | Some t => bool_decide (clock n - t < timeWindow)
           | None => false
           end
        then log :: rest else rest
      else inWindow clock n participantId timeWindow logs
  end.

(** The entries of [logs] whose severity, read as a property key, is [key]. *)
Definition ofSeverity (key : string) (logs : list Stored) : list Stored :=
  filter (λ log, keyOf (severityOf log) = key) logs.

(** A Redis client that rejects its fourth command and no other. *)
Definition fourthCommandFails (n : nat) : bool := bool_decide (n = 3%nat).

(** A critical event, for the examples. *)
Definition crisisEvent : ModerationEvent :=
  {| me_type := "content_analysis"; me_participantId := Some "anon-7";
     me_content := "I want to die"; me_severity := "critical"; me_flags := [];
     me_action := "immediate_intervention"; me_confidence := 0.8; me_aiAnalysis := None |}.

(** The context of a message of a participant in a session. *)
Definition contextOf (sessionId participantId : string) : Context :=
  {| c_sessionId := Some sessionId; c_participantId := Some participantId |}.

(** The summary of a session read from the process-wide array. *)
Definition memorySummary (sessionId : string) (entries : list ModerationEntry) : Summary :=
  summaryOf sessionId (SModeration <$> entries)
    (foldl (λ counts log, bump (keyOf (severityOf log)) counts) ∅ (SModeration <$> entries))
    (foldl (λ counts e, foldl (λ counts flag, bump (flagType flag) counts) counts
                          (me_flags (ml_event e))) ∅ entries).

(** [needle] occurs in [hay] as a run of consecutive code units. *)
Definition occursIn (needle hay : string) : Prop :=
  ∃ before after, hay = before ++ needle ++ after.

(** The message, in lower case, contains a keyword of the crisis rule. *)
Definition mentionsCrisis (content : string) : Prop :=
  ∃ keyword, keyword ∈ crisisKeywords ∧ occursIn keyword (Js.toLowerCase content).

(** A reply whose severity is not one of the five names. *)
Definition shoutedReply : AIJson :=
  {| j_severity := Some "CRITICAL";
     j_flags := FlagsArray [AIFlag "crisis" "explicit plan"];
     j_action := Some "intervention";
     j_confidence := Some 0.99%Q;
     j_supportive_response := None;
     j_details := Some "imminent danger" |}.

(** Every code unit of a string satisfies [p]. *)
Fixpoint every (p : ascii → bool) (s : string) : bool :=
  match s with
  | EmptyString => true
  | String c t => p c && every p t
  end.

(** [n] copies of a code unit. *)
Fixpoint repeatChar (c : ascii) (n : nat) : string :=
  match n with
  | O => EmptyString
  | S n => String c (repeatChar c n)
  end.

(** The three shapes the spam rule looks for: a code unit followed by ten
    or more copies of itself, twenty or more capital letters in a row,
    and an http or https address of at least one character. *)
Definition spamShape (u : string) : Prop :=
  (∃ c n, Regex.is_line_terminator c = false ∧ (10 ≤ n)%nat
          ∧ u = String c (repeatChar c n))
  ∨ (every Regex.is_upper u = true ∧ (20 ≤ String.length u)%nat)
  ∨ (∃ c rest, Regex.is_space c = false
               ∧ (u = "http://" ++ String c rest ∨ u = "https://" ++ String c rest)).

(** The snapshot [setSessionState] stores at the clock readings of [w]:
    the memory fallback stamps the instant only, the Redis path also
    [lastUpdated]. *)
Definition snapshotAt (state : SessionState) (w : World) : SessionState :=
  if memoryMode w then stampMemory state (clock w (clockReads w))
  else stampRedis state (clock w (clockReads w)) (ISO (clock w (S (clockReads w)))).

(* ===================================================================== *)
(** * The rule stage computes a maximum *)
(* ===================================================================== *)

Section RuleStage.

Variable content : string.

Lemma level_range s : (0 ≤ getSeverityLevel s ≤ 4)%Z.
Proof. unfold getSeverityLevel. repeat case_decide; lia. Qed.

Lemma level_top s : getSeverityLevel s = 4 → s = "critical".
Proof. unfold getSeverityLevel. repeat case_decide; lia || done. Qed.

Lemma level_critical : getSeverityLevel "critical" = 4.
Proof. reflexivity. Qed.

Lemma keywordStep_level category rule res keyword :
  getSeverityLevel (r_severity (keywordStep (Js.toLowerCase content) category rule res keyword))
  = Z.max (getSeverityLevel (r_severity res))
          (if keywordHit content keyword then getSeverityLevel (severity rule) else 0).
Proof.
  unfold keywordStep, keywordHit.
  pose proof (level_range (r_severity res)).
  destruct (Js.includes _ _); [|lia].
  case_decide; simpl; lia.
Qed.

Lemma patternStep_level category rule res pattern :
  getSeverityLevel (r_severity (patternStep content category rule res pattern))
  = Z.max (getSeverityLevel (r_severity res))
          (if Regex.test pattern content then getSeverityLevel (severity rule) else 0).
Proof.
  unfold patternStep.
  pose proof (level_range (r_severity res)).
  destruct (Regex.test _ _); [|lia].
  case_decide; simpl; lia.
Qed.

Lemma keywords_level category rule ks : ∀ res,
  getSeverityLevel (r_severity (foldl (keywordStep (Js.toLowerCase content) category rule) res ks))
  = Z.max (getSeverityLevel (r_severity res))
          (if existsb (keywordHit content) ks then getSeverityLevel (severity rule) else 0).
Proof.
  induction ks as [|k ks IH]; intros res; simpl.
  - pose proof (level_range (r_severity res)). lia.
  - rewrite IH, keywordStep_level.
    pose proof (level_range (severity rule)).
    destruct (keywordHit content k), (existsb (keywordHit content) ks); simpl; lia.
Qed.

Lemma patterns_level category rule ps : ∀ res,
  getSeverityLevel (r_severity (foldl (patternStep content category rule) res ps))
  = Z.max (getSeverityLevel (r_severity res))
          (if existsb (λ p, Regex.test p content) ps then getSeverityLevel (severity rule) else 0).
Proof.
  induction ps as [|p ps IH]; intros res; simpl.
  - pose proof (level_range (r_severity res)). lia.
  - rewrite IH, patternStep_level.
    pose proof (level_range (severity rule)).
    destruct (Regex.test p content), (existsb _ ps); simpl; lia.
Qed.

Lemma ruleStep_level res entry :
  getSeverityLevel (r_severity (ruleStep content res entry))
  = Z.max (getSeverityLevel (r_severity res))
          (if ruleMatched content entry.2 then getSeverityLevel (severity entry.2) else 0).
Proof.
  destruct entry as [category rule]. unfold ruleStep, ruleMatched. simpl.
  pose proof (level_range (r_severity res)).
  pose proof (level_range (severity rule)).
  destruct (keywords rule) as [ks|], (patterns rule) as [ps|]; simpl;
    rewrite ?patterns_level, ?keywords_level;
    repeat match goal with |- context [existsb ?f ?l] => destruct (existsb f l) end;
    simpl; lia.
Qed.

Lemma applyRules_level rules : ∀ res,
  getSeverityLevel (r_severity (foldl (ruleStep content) res rules))
  = Z.max (getSeverityLevel (r_severity res)) (maxLevel (matchedRules content rules)).
Proof.
  induction rules as [|entry rules IH]; intros res; simpl.
  - pose proof (level_range (r_severity res)). lia.
  - rewrite IH, ruleStep_level. unfold matchedRules.
    rewrite filter_cons. fold (matchedRules content rules).
    destruct (ruleMatched content entry.2) eqn:Hm.
    + rewrite decide_True by done. simpl. lia.
    + rewrite decide_False by (by intros ?). 
      pose proof (level_range (r_severity res)). lia.
Qed.

End RuleStage.

Section RuleStageProvenance.

Variable content : string.

(** A flag is only ever appended, and severity, action and confidence
    change only on a strictly greater level. *)
Lemma keywordStep_keeps category rule res keyword :
  ¬ (getSeverityLevel (severity rule) > getSeverityLevel (r_severity res))%Z →
  let res' := keywordStep (Js.toLowerCase content) category rule res keyword in
  r_severity res' = r_severity res ∧ r_action res' = r_action res
  ∧ r_confidence res' = r_confidence res ∧ r_definitive res' = r_definitive res.
Proof.
  intros Hle. unfold keywordStep. destruct (Js.includes _ _); [|done].
  rewrite decide_False by done. done.
Qed.

Lemma patternStep_keeps category rule res pattern :
  ¬ (getSeverityLevel (severity rule) > getSeverityLevel (r_severity res))%Z →
  let res' := patternStep content category rule res pattern in
  r_severity res' = r_severity res ∧ r_action res' = r_action res
  ∧ r_confidence res' = r_confidence res ∧ r_definitive res' = r_definitive res.
Proof.
  intros Hle. unfold patternStep. destruct (Regex.test _ _); [|done].
  rewrite decide_False by done. done.
Qed.

Lemma keywords_from category rule ks : ∀ res0 res,
  from content rule res0 res →
  (∀ k, k ∈ ks → keywordHit content k = true →
        existsb (keywordHit content) (default [] (keywords rule)) = true) →
  from content rule res0 (foldl (keywordStep (Js.toLowerCase content) category rule) res ks).
Proof.
  induction ks as [|k ks IH]; intros res0 res Hfrom Hin; simpl; [done|].
  apply IH; [|intros k' Hk'; apply Hin; by right].
  unfold keywordStep. fold (keywordHit content k).
  destruct (keywordHit content k) eqn:Hk; [|done].
  case_decide; simpl; [|done].
  right. split; [|done]. unfold ruleMatched.
  rewrite (Hin k); [done|by left|done].
Qed.

Lemma patterns_from category rule ps : ∀ res0 res,
  from content rule res0 res →
  (∀ p, p ∈ ps → Regex.test p content = true →
        existsb (λ p, Regex.test p content) (default [] (patterns rule)) = true) →
  from content rule res0 (foldl (patternStep content category rule) res ps).
Proof.
  induction ps as [|p ps IH]; intros res0 res Hfrom Hin; simpl; [done|].
  apply IH; [|intros p' Hp'; apply Hin; by right].
  unfold patternStep.
  destruct (Regex.test p content) eqn:Hp; [|done].
  case_decide; simpl; [|done].
  right. split; [|done]. unfold ruleMatched.
  rewrite (Hin p); [by rewrite orb_true_r|by left|done].
Qed.

Lemma existsb_intro {A} (f : A → bool) (l : list A) x :
  x ∈ l → f x = true → existsb f l = true.
Proof.
  intros Hin Hf. apply existsb_exists. exists x. split; [|done].
  by apply list_elem_of_In.
Qed.

Lemma ruleStep_from res entry :
  from content entry.2 res (ruleStep content res entry).
Proof.
  destruct entry as [category rule]. unfold ruleStep. simpl.
  destruct (keywords rule) as [ks|] eqn:Hks, (patterns rule) as [ps|] eqn:Hps.
  - apply patterns_from; [apply keywords_from; [by left|]|];
      intros x Hx Hhit; rewrite ?Hks, ?Hps; simpl; by eapply existsb_intro.
  - apply keywords_from; [by left|].
    intros x Hx Hhit; rewrite ?Hks; simpl; by eapply existsb_intro.
  - apply patterns_from; [by left|].
    intros x Hx Hhit; rewrite ?Hps; simpl; by eapply existsb_intro.
  - by left.
Qed.

Lemma applyRules_from rules : ∀ res,
  let res' := foldl (ruleStep content) res rules in
  r_severity res' = r_severity res
  ∨ ∃ entry, entry ∈ matchedRules content rules ∧ severity entry.2 = r_severity res'.
Proof.
  induction rules as [|entry rules IH]; intros res; simpl; [by left|].
  destruct (IH (ruleStep content res entry)) as [Heq|(e & He & Hsev)].
  - destruct (ruleStep_from res entry) as [Hkeep|[Hm Hsev]].
    + left. congruence.
    + right. exists entry. split; [|congruence].
      unfold matchedRules. apply list_elem_of_filter. split; [done|by left].
  - right. exists e. split; [|done].
    unfold matchedRules in *. apply list_elem_of_filter in He as [? ?].
    apply list_elem_of_filter. split; [done|by right].
Qed.

(** ** The definitive mark *)

Lemma keywords_coherent category rule ks : ∀ res,
  coherent res →
  coherent (foldl (keywordStep (Js.toLowerCase content) category rule) res ks).
Proof.
  induction ks as [|k ks IH]; intros res Hres; simpl; [done|].
  apply IH. unfold keywordStep. destruct (Js.includes _ _); [|done].
  case_decide; [|done]. by unfold coherent.
Qed.

Lemma patterns_coherent category rule ps : ∀ res,
  severity rule ≠ "critical" →
  coherent res →
  coherent (foldl (patternStep content category rule) res ps).
Proof.
  induction ps as [|p ps IH]; intros res Hrule Hres; simpl; [done|].
  apply IH; [done|]. unfold patternStep. destruct (Regex.test _ _); [|done].
  case_decide as Hgt; [|done]. unfold coherent in *. simpl.
  rewrite (bool_decide_eq_false_2 _ Hrule). rewrite Hres.
  apply bool_decide_eq_false_2. intros Hcrit. rewrite Hcrit in Hgt.
  pose proof (level_range (severity rule)). 
  change (getSeverityLevel "critical") with 4%Z in Hgt. lia.
Qed.

Lemma applyRules_coherent rules : ∀ res,
  forallb (λ entry, patternsBelowCritical entry.2) rules = true →
  coherent res →
  coherent (foldl (ruleStep content) res rules).
Proof.
  induction rules as [|[category rule] rules IH]; intros res Hwf Hres; simpl; [done|].
  simpl in Hwf. apply andb_true_iff in Hwf as [Hrule Hwf].
  apply IH; [done|]. unfold ruleStep.
  assert (coherent match keywords rule with
                   | Some ks => foldl (keywordStep (Js.toLowerCase content) category rule) res ks
                   | None => res
                   end) as H1.
  { destruct (keywords rule); [by apply keywords_coherent|done]. }
  destruct (patterns rule) as [ps|] eqn:Hps; [|done].
  apply patterns_coherent; [|done].
  unfold patternsBelowCritical in Hrule. rewrite Hps in Hrule.
  apply orb_true_iff in Hrule as [Hn|Hc].
  - by apply bool_decide_eq_true in Hn.
  - by apply negb_true_iff, bool_decide_eq_false in Hc.
Qed.

Lemma maxLevel_critical rules :
  maxLevel rules = 4%Z ↔ ∃ entry, entry ∈ rules ∧ severity entry.2 = "critical".
Proof.
  induction rules as [|entry rules IH]; simpl.
  - split; [lia|]. intros (e & He & _). by apply elem_of_nil in He.
  - pose proof (level_range (severity entry.2)) as Hr. split.
    + intros Hmax. destruct (decide (getSeverityLevel (severity entry.2) = 4%Z)) as [H4|H4].
      * exists entry. split; [by left|by apply level_top].
      * assert (maxLevel rules = 4%Z) as Hrest by (unfold maxLevel in *; lia).
        apply IH in Hrest as (e & He & Hsev). exists e. split; [by right|done].
    + intros (e & He & Hsev). apply elem_of_cons in He as [->|He].
      * rewrite Hsev. change (getSeverityLevel "critical") with 4%Z.
        assert (maxLevel rules ≤ 4)%Z; [|unfold maxLevel in *; lia].
        clear. induction rules as [|x xs IHx]; simpl; [lia|].
        pose proof (level_range (severity x.2)). lia.
      * assert (maxLevel rules = 4%Z) as Hrest by (apply IH; eauto).
        unfold maxLevel in *. lia.
Qed.

End RuleStageProvenance.

(* ===================================================================== *)
(** * Frame rules *)
(* ===================================================================== *)

Section Frames.

Context {X : Type} (f : World → X).

Lemma preserves_ret {A} (a : A) : preserves f (mret a).
Proof. by intros w. Qed.

Lemma preserves_throw {A} e : preserves f (throw (A:=A) e).
Proof. by intros w. Qed.

Lemma preserves_get_world : preserves f get_world.
Proof. by intros w. Qed.

Lemma preserves_bind {A B} (m : M A) (k : A → M B) :
  preserves f m → (∀ a, preserves f (k a)) → preserves f (m ≫= k).
Proof.
  intros Hm Hk w. unfold mbind, M_bind. specialize (Hm w).
  destruct (m w) as [[a|e] w']; simpl in *; [|done].
  by rewrite Hk.
Qed.

Lemma preserves_try {A} (m : M A) (h : string → M A) :
  preserves f m → (∀ e, preserves f (h e)) → preserves f (try_catch m h).
Proof.
  intros Hm Hh w. unfold try_catch. specialize (Hm w).
  destruct (m w) as [[a|e] w']; simpl in *; [done|].
  by rewrite Hh.
Qed.

End Frames.

Lemma total_ret {A} (a : A) : total (mret a).
Proof. intros w. by exists a. Qed.

Lemma total_try {A} (m : M A) (h : string → M A) :
  (∀ e, total (h e)) → total (try_catch m h).
Proof.
  intros Hh w. unfold try_catch.
  destruct (m w) as [[a|e] w']; [by exists a|apply Hh].
Qed.

Lemma total_bind {A B} (m : M A) (k : A → M B) :
  total m → (∀ a, total (k a)) → total (m ≫= k).
Proof.
  intros Hm Hk w. unfold mbind, M_bind. destruct (Hm w) as [a Ha].
  destruct (m w) as [[a'|e] w']; simpl in *; [apply Hk|done].
Qed.

Lemma total_console label : total (consoleError label).
Proof. intros w. by exists tt. Qed.

Lemma issue_memoryMode c : preserves memoryMode (issue c).
Proof.
  intros w. unfold issue, memoryMode.
  destruct (redisFault w _); simpl; by destruct (redis w).
Qed.

(** A primitive touches only its own part of the world. *)
Ltac frame_leaf :=
  let w := fresh "w" in
  intros w;
  unfold setex, lpush, expire, issue, askClassifier, dateNow, consoleError, emit, modify,
    memoryMode;
  simpl;
  repeat case_match; simplify_eq; try reflexivity;
  try (destruct (redis w); reflexivity).

(** Walk a computation down to its primitives. *)
Ltac frame :=
  repeat first
    [ progress intros
    | apply preserves_ret
    | apply preserves_throw
    | apply preserves_get_world
    | apply preserves_bind
    | apply preserves_try
    | match goal with
      | |- preserves _ (match ?x with _ => _ end) => destruct x
      end
    | apply issue_memoryMode
    | solve [frame_leaf] ].

Ltac never_throws :=
  repeat first
    [ progress intros
    | apply total_ret
    | apply total_console
    | apply total_try
    | apply total_bind ].

Lemma logModerationEvent_total sid ev : total (RedisSessionManager.logModerationEvent sid ev).
Proof. unfold RedisSessionManager.logModerationEvent. never_throws. Qed.

Lemma serviceLog_total a : total (AIModerationService.logModerationEvent a).
Proof. unfold AIModerationService.logModerationEvent. never_throws. Qed.

Lemma serviceLog_ok a w : (AIModerationService.logModerationEvent a w).1 = Ok tt.
Proof. destruct (serviceLog_total a w) as [[] H]. done. Qed.

Lemma serviceLog_aiCalls a : preserves aiCalls (AIModerationService.logModerationEvent a).
Proof. frame. Qed.

Lemma storeEmergencyAlert_total sid alert : total (storeEmergencyAlert sid alert).
Proof. unfold storeEmergencyAlert. never_throws. Qed.

Lemma setSessionState_total sid st : total (setSessionState sid st).
Proof. unfold setSessionState. never_throws. Qed.

Lemma getSessionState_total sid : total (getSessionState sid).
Proof. unfold getSessionState. never_throws. Qed.

Lemma updateParticipant_total sid pid data : total (updateParticipant sid pid data).
Proof. unfold updateParticipant. never_throws. Qed.

Lemma removeParticipant_total sid pid : total (removeParticipant sid pid).
Proof. unfold removeParticipant. never_throws. Qed.

Lemma performAIAnalysis_total content : total (performAIAnalysis content).
Proof. unfold performAIAnalysis. never_throws. Qed.

Lemma analyzeContent_total content ctx : total (analyzeContent content ctx).
Proof. unfold analyzeContent. never_throws. Qed.

Lemma executeModerationAction_total a sid pid : total (executeModerationAction a sid pid).
Proof. unfold executeModerationAction. never_throws. Qed.

Lemma serviceLog_memoryMode a : preserves memoryMode (AIModerationService.logModerationEvent a).
Proof. frame. Qed.

Lemma serviceLog_redisFault a : preserves redisFault (AIModerationService.logModerationEvent a).
Proof. frame. Qed.

(* ===================================================================== *)
(** * What [analyzeContent] computes *)
(* ===================================================================== *)

Arguments applyRuleBasedModeration : simpl never.

Lemma performAIAnalysis_run content w :
  performAIAnalysis content w =
    (Ok (aiResultFor (classifier w content)),
     match classifier w content with
     | AIObject _ => with_aiCalls (aiCalls w ++ [content]) w
     | AIRejects | AIUnparsable =>
         with_console (console w ++ ["AI analysis failed:"])
           (with_aiCalls (aiCalls w ++ [content]) w)
     end).
Proof.
  unfold performAIAnalysis, try_catch, askClassifier, mbind, M_bind, mret, M_ret.
  by destruct (classifier w content).
Qed.

Lemma performAIAnalysis_aiCalls content w :
  aiCalls (performAIAnalysis content w).2 = (aiCalls w ++ [content])%list.
Proof. rewrite performAIAnalysis_run. by destruct (classifier w content). Qed.

(** The AI stage is skipped: the verdict is the rule-stage verdict, and it
    is logged before it is returned. *)
Lemma analyzeContent_skipped content ctx w :
  aiStageDue content (applyRuleBasedModeration content) = false →
  analyzeContent content ctx w =
    (Ok (ruleVerdict content ctx w),
     (AIModerationService.logModerationEvent (ruleVerdict content ctx w)
        (with_clockReads (S (clockReads w)) w)).2).
Proof.
  intros Hskip. unfold analyzeContent, try_catch, isoNow, dateNow, mbind, M_bind, mret, M_ret.
  simpl. rewrite Hskip. fold (ruleVerdict content ctx w).
  pose proof (serviceLog_ok (ruleVerdict content ctx w) (with_clockReads (S (clockReads w)) w)) as Hok.
  destruct (AIModerationService.logModerationEvent _ _) as [[[]|e] w']; simpl in *; [done|done].
Qed.

(** The AI stage runs: the verdict is the merge, logged before it is
    returned, unless the classifier's flags cannot be spread. *)
Lemma analyzeContent_ran content ctx w :
  aiStageDue content (applyRuleBasedModeration content) = true →
  let w0 := with_clockReads (S (clockReads w)) w in
  let ai := aiResultFor (classifier w content) in
  let w1 := (performAIAnalysis content w0).2 in
  analyzeContent content ctx w =
    match ai_flags ai with
    | Arr l =>
        let v := withAI (combine (ruleVerdict content ctx w) ai) l (ai_details ai) in
        (Ok v, (AIModerationService.logModerationEvent v w1).2)
    | NotIterable =>
        (Ok (fallbackVerdict content notIterable),
         with_console (console w1 ++ ["Content analysis failed:"]) w1)
    end.
Proof.
  intros Hdue. unfold analyzeContent, try_catch, isoNow, dateNow, mbind, M_bind, mret, M_ret.
  simpl. rewrite Hdue. fold (ruleVerdict content ctx w).
  rewrite performAIAnalysis_run. simpl.
  unfold pushFlags. destruct (ai_flags _) as [l|]; simpl; [|done].
  match goal with |- context [AIModerationService.logModerationEvent ?v ?w1] =>
    pose proof (serviceLog_ok v w1) as Hok;
    destruct (AIModerationService.logModerationEvent v w1) as [[[]|e] w'] end;
  simpl in *; done.
Qed.

(** The classifier is called exactly when the guard of the AI stage holds. *)
Lemma analyzeContent_aiCalls content ctx w :
  aiCalls (analyzeContent content ctx w).2 =
    if aiStageDue content (applyRuleBasedModeration content)
    then (aiCalls w ++ [content])%list else aiCalls w.
Proof.
  destruct (aiStageDue _ _) eqn:Hdue.
  - rewrite analyzeContent_ran by done. simpl.
    destruct (ai_flags _); simpl.
    + rewrite serviceLog_aiCalls. by rewrite performAIAnalysis_aiCalls.
    + by rewrite performAIAnalysis_aiCalls.
  - rewrite analyzeContent_skipped by done. simpl.
    by rewrite serviceLog_aiCalls.
Qed.

Lemma aiInvoked_iff content ctx w :
  aiInvoked w (analyzeContent content ctx w).2
  = aiStageDue content (applyRuleBasedModeration content).
Proof.
  unfold aiInvoked. rewrite analyzeContent_aiCalls.
  destruct (aiStageDue _ _).
  - apply bool_decide_eq_true_2. intros Heq.
    apply (f_equal length) in Heq. rewrite length_app in Heq. simpl in Heq. lia.
  - by apply bool_decide_eq_false_2; intros ?.
Qed.

(* ===================================================================== *)
(** * Properties of the rule stage and of the merge *)
(* ===================================================================== *)

Lemma applyRules_untouched content rules : ∀ res,
  untouched res → untouched (foldl (ruleStep content) res rules).
Proof.
  induction rules as [|[category rule] rules IH]; intros res Hres; simpl; [done|].
  apply IH. unfold ruleStep.
  assert (∀ ks r, untouched r →
            untouched (foldl (keywordStep (Js.toLowerCase content) category rule) r ks)) as Hk.
  { induction ks as [|k ks IHk]; intros r Hr; simpl; [done|].
    apply IHk. unfold keywordStep. destruct (Js.includes _ _); [|done].
    case_decide as Hgt; [|done]. intros H0. simpl in H0.
    pose proof (level_range (r_severity r)). lia. }
  assert (∀ ps r, untouched r →
            untouched (foldl (patternStep content category rule) r ps)) as Hp.
  { induction ps as [|p ps IHp]; intros r Hr; simpl; [done|].
    apply IHp. unfold patternStep. destruct (Regex.test _ _); [|done].
    case_decide as Hgt; [|done]. intros H0. simpl in H0.
    pose proof (level_range (r_severity r)). lia. }
  destruct (keywords rule), (patterns rule); auto.
Qed.

Lemma applyRuleBasedModeration_untouched content :
  untouched (applyRuleBasedModeration content).
Proof. apply applyRules_untouched. by intros _. Qed.

(** The verdict [analyzeContent] holds after the rule stage carries the
    severity, action, confidence and flags of the rule stage. *)
Lemma ruleVerdict_fields content ctx w :
  let rr := applyRuleBasedModeration content in
  let v := ruleVerdict content ctx w in
  a_severity v = r_severity rr ∧ a_action v = r_action rr
  ∧ a_confidence v = r_confidence rr ∧ a_flags v = r_flags rr.
Proof.
  simpl. unfold ruleVerdict, afterRules. simpl.
  case_bool_decide as Hnone; [done|].
  assert (r_severity (applyRuleBasedModeration content) = "none") as Hs.
  { by destruct (decide (r_severity (applyRuleBasedModeration content) = "none")). }
  destruct (applyRuleBasedModeration_untouched content) as (_ & Ha & Hc).
  { by rewrite Hs. }
  by rewrite Hs, Ha, Hc.
Qed.

Lemma moderationRules_patterns_below_critical :
  forallb (λ entry, patternsBelowCritical entry.2) moderationRules = true.
Proof. reflexivity. Qed.

Lemma maxLevel_nonneg rules : (0 ≤ maxLevel rules)%Z.
Proof. induction rules as [|x l IH]; simpl; lia. Qed.

(** C2. For every content string the severity of the rule-stage verdict is
    the maximum, under none < low < medium < high < critical, of the
    severities of the rules that matched: its level is the greatest level
    among them, and it is ['none'] or the severity of a matched rule.  A
    keyword or pattern whose rule is not strictly above the running
    maximum leaves severity, action and confidence as they are.  The
    result is definitive exactly when a rule of severity ['critical']
    matched, and a definitive result keeps the AI stage from being
    invoked. *)
Theorem rule_stage_severity_is_maximum (content : string) :
  let res := applyRuleBasedModeration content in
  let matched := matchedRules content moderationRules in
  getSeverityLevel (r_severity res) = maxLevel matched
  ∧ (r_severity res = "none"
     ∨ ∃ entry, entry ∈ matched ∧ severity entry.2 = r_severity res)
  ∧ (∀ category rule running keyword,
       (getSeverityLevel (severity rule) ≤ getSeverityLevel (r_severity running))%Z →
       let res' := keywordStep (Js.toLowerCase content) category rule running keyword in
       r_severity res' = r_severity running ∧ r_action res' = r_action running
       ∧ r_confidence res' = r_confidence running)
  ∧ (∀ category rule running pattern,
       (getSeverityLevel (severity rule) ≤ getSeverityLevel (r_severity running))%Z →
       let res' := patternStep content category rule running pattern in
       r_severity res' = r_severity running ∧ r_action res' = r_action running
       ∧ r_confidence res' = r_confidence running)
  ∧ (r_definitive res = true
     ↔ ∃ entry, entry ∈ matched ∧ severity entry.2 = "critical")
  ∧ (∀ ctx w, r_definitive res = true →
       aiInvoked w (world_of (analyzeContent content ctx w)) = false).
Proof.
  cbv zeta.
  assert (getSeverityLevel (r_severity (applyRuleBasedModeration content))
          = maxLevel (matchedRules content moderationRules)) as Hmax.
  { unfold applyRuleBasedModeration, applyRules. rewrite applyRules_level.
    change (getSeverityLevel (r_severity initialRuleResult)) with 0%Z.
    pose proof (maxLevel_nonneg (matchedRules content moderationRules)). lia. }
  split; [exact Hmax|]. split.
  { destruct (applyRules_from content moderationRules initialRuleResult) as [H|H].
    - left. exact H.
    - right. exact H. }
  split.
  { intros category rule running keyword Hle.
    destruct (keywordStep_keeps content category rule running keyword) as (?&?&?&?); [lia|done]. }
  split.
  { intros category rule running pattern Hle.
    destruct (patternStep_keeps content category rule running pattern) as (?&?&?&?); [lia|done]. }
  split.
  { rewrite <- maxLevel_critical, <- Hmax.
    assert (coherent (applyRuleBasedModeration content)) as Hco.
    { apply applyRules_coherent; [exact moderationRules_patterns_below_critical|done]. }
    unfold coherent in Hco. rewrite Hco.
    rewrite bool_decide_eq_true. split.
    - by intros ->.
    - apply level_top. }
  intros ctx w Hdef. unfold world_of. rewrite aiInvoked_iff.
  unfold aiStageDue. rewrite Hdef. apply andb_false_r.
Qed.

(** C10. The AI stage is skipped for a message below a minimum length;
    with the guard [content.length > 10] that minimum, the least length at
    which a message can reach the AI stage, is 11: no shorter message is
    ever routed to it (one of 10 characters is not, definitive or not),
    and a message of exactly that length is routed to it if and only if
    the rule stage did not produce a definitive verdict.  Both cases
    occur at that length. *)
Theorem ai_stage_at_length_threshold :
  (∀ content rr, aiStageDue content rr = true → (11 ≤ String.length content)%nat)
  ∧ (∀ content ctx w, String.length content = 11%nat →
       aiInvoked w (world_of (analyzeContent content ctx w))
       = negb (r_definitive (applyRuleBasedModeration content)))
  ∧ (String.length "hello world" = 11%nat
     ∧ r_definitive (applyRuleBasedModeration "hello world") = false
     ∧ aiStageDue "hello world" (applyRuleBasedModeration "hello world") = true)
  ∧ (String.length "kill myself" = 11%nat
     ∧ r_definitive (applyRuleBasedModeration "kill myself") = true
     ∧ aiStageDue "kill myself" (applyRuleBasedModeration "kill myself") = false)
  ∧ (String.length "hello worl" = 10%nat
     ∧ r_definitive (applyRuleBasedModeration "hello worl") = false
     ∧ aiStageDue "hello worl" (applyRuleBasedModeration "hello worl") = false).
Proof.
  split; [|split; [|split; [|split]]].
  - intros content rr Hdue. unfold aiStageDue in Hdue.
    apply andb_true_iff in Hdue as [Hlen _]. apply bool_decide_eq_true in Hlen. lia.
  - intros content ctx w Hlen. unfold world_of. rewrite aiInvoked_iff.
    unfold aiStageDue. rewrite Hlen. done.
  - split; [reflexivity|]. split; vm_compute; reflexivity.
  - split; [reflexivity|]. split; vm_compute; reflexivity.
  - split; [reflexivity|]. split; vm_compute; reflexivity.
Qed.





Lemma combine_fields rv ai :
  let higher := bool_decide (getSeverityLevel (ai_severity ai) > getSeverityLevel (a_severity rv))%Z in
  a_severity (combine rv ai) = (if higher then ai_severity ai else a_severity rv)
  ∧ a_action (combine rv ai) = (if higher then ai_action ai else a_action rv)
  ∧ a_confidence (combine rv ai)
    = (if higher then Math_max (a_confidence rv) (ai_confidence ai) else a_confidence rv)
  ∧ a_flags (combine rv ai) = a_flags rv.
Proof.
  cbv zeta. unfold combine. case_decide.
  - by rewrite bool_decide_eq_true_2.
  - by rewrite bool_decide_eq_false_2.
Qed.

(** C3, as the code has it.  When both stages run (the AI-stage verdict
    being the fallback of [performAIAnalysis] if the classifier failed)
    and the AI-stage flags can be spread, the merged severity is the higher of the two, the
    rule-stage value being kept on a tie; the merged action follows the
    severity; the merged confidence is the maximum of the two confidences
    when the AI severity is strictly higher, and the rule-stage confidence
    otherwise; the merged flags are the rule-stage flags followed by the
    AI-stage flags, nothing removed. *)
Theorem merge_of_rule_and_ai_verdicts (content : string) (ctx : Context) (w : World)
    (l : list Flag) :
  aiStageDue content (applyRuleBasedModeration content) = true →
  ai_flags (aiResultFor (classifier w content)) = Arr l →
  let rr := applyRuleBasedModeration content in
  let ai := aiResultFor (classifier w content) in
  let higher := bool_decide (getSeverityLevel (ai_severity ai) > getSeverityLevel (r_severity rr))%Z in
  ∃ v, (analyzeContent content ctx w).1 = Ok v
     ∧ a_severity v = (if higher then ai_severity ai else r_severity rr)
     ∧ a_action v = (if higher then ai_action ai else r_action rr)
     ∧ a_confidence v = (if higher then Math_max (r_confidence rr) (ai_confidence ai)
                         else r_confidence rr)
     ∧ a_flags v = (r_flags rr ++ l)%list.
Proof.
  intros Hdue Hflags. cbv zeta.
  pose proof (ruleVerdict_fields content ctx w) as (Hs & Ha & Hc & Hf).
  pose proof (combine_fields (ruleVerdict content ctx w) (aiResultFor (classifier w content)))
    as (Cs & Ca & Cc & Cf).
  cbv zeta in Cs, Ca, Cc, Cf. rewrite Hs in Cs, Ca, Cc. rewrite Ha in Ca.
  rewrite Hc in Cc. rewrite Hf in Cf.
  exists (withAI (combine (ruleVerdict content ctx w) (aiResultFor (classifier w content))) l
            (ai_details (aiResultFor (classifier w content)))).
  split.
  - rewrite analyzeContent_ran by done. cbv zeta. by rewrite Hflags.
  - unfold withAI at 1 2 3 4. cbn [a_severity a_action a_confidence a_flags].
    rewrite Cs, Ca, Cc, Cf. done.
Qed.

Lemma merge_of_rule_and_ai_verdicts_witness :
  aiStageDue "I feel so empty and alone" (applyRuleBasedModeration "I feel so empty and alone") = true
  ∧ ∃ v, (analyzeContent "I feel so empty and alone" someContext
            (blankWorld (AIObject alarmedReply))).1 = Ok v
       ∧ a_severity v = "critical"
       ∧ a_action v = "intervention"
       ∧ a_confidence v = 0.95%Q
       ∧ a_flags v = [AIFlag "crisis" "implicit ideation"].
Proof.
  split; [vm_compute; reflexivity|].
  destruct (merge_of_rule_and_ai_verdicts "I feel so empty and alone" someContext
              (blankWorld (AIObject alarmedReply)) [AIFlag "crisis" "implicit ideation"])
    as (v & Hv & Hs & Ha & Hc & Hf);
    [vm_compute; reflexivity|reflexivity|].
  exists v. split; [exact Hv|].
  split; [rewrite Hs; vm_compute; reflexivity|].
  split; [rewrite Ha; vm_compute; reflexivity|].
  split; [rewrite Hc; vm_compute; reflexivity|].
  rewrite Hf; vm_compute; reflexivity.
Defined.

(** C3 as stated fails: the rule stage finds [hate] (high, confidence
    0.8), the AI stage answers [low] with confidence 0.9; both stages ran,
    and the merged confidence 0.8 is below the maximum of the two. *)
Lemma merge_confidence_is_not_the_maximum :
  aiInvoked (blankWorld (AIObject mildReply))
    (world_of (analyzeContent "I hate mondays a lot" someContext
                 (blankWorld (AIObject mildReply)))) = true
  ∧ r_confidence (applyRuleBasedModeration "I hate mondays a lot") = 0.8%Q
  ∧ ai_confidence (aiResultOf mildReply) = 0.9%Q
  ∧ confidenceOf (analyzeContent "I hate mondays a lot" someContext
                    (blankWorld (AIObject mildReply))) = 0.8%Q
  ∧ (confidenceOf (analyzeContent "I hate mondays a lot" someContext
                     (blankWorld (AIObject mildReply)))
     < Math_max (r_confidence (applyRuleBasedModeration "I hate mondays a lot"))
                (ai_confidence (aiResultOf mildReply)))%Q.
Proof. vm_compute. repeat split. Qed.

(* ===================================================================== *)
(** * What the store operations do *)
(* ===================================================================== *)

Ltac each_ttl :=
  repeat first [ apply Forall_nil_2 | apply Forall_cons_2; [simpl; auto|] ].

(** The write-then-index sequence shared by the moderation log and the
    emergency alerts: SETEX, LPUSH on the list, EXPIRE on the list. *)
Ltac next_fault :=
  match goal with
  | |- context [if redisFault ?w ?n then _ else _] => destruct (redisFault w n) eqn:?
  end.

Lemma write_and_index key ttl value listKey (w : World) db :
  redis w = Some db →
  let r := (setex key ttl value;; lpush listKey key;; expire listKey ttl;; mret true) w in
  filter (λ c, isSetex c = true) (issued w r.2) = [SETEX key ttl value]
  ∧ Forall (λ c, ttlOf c = None ∨ ttlOf c = Some ttl) (issued w r.2)
  ∧ console r.2 = console w
  ∧ emergencyAlerts r.2 = emergencyAlerts w
  ∧ moderationLogs r.2 = moderationLogs w
  ∧ (if redisFault w (length (redisLog w))
     then r.1 = Throw "redis command failed" ∧ redis r.2 = Some db
          ∧ issued w r.2 = [SETEX key ttl value]
     else ∃ db', redis r.2 = Some db' ∧ kv db' !! key = Some (ttl, value)).
Proof.
  intros Hdb. cbv zeta.
  unfold setex, lpush, expire, issue, issued, mbind, M_bind, mret, M_ret.
  destruct (redisFault w (length (redisLog w))) eqn:F1; simpl.
  { rewrite drop_app_length. simpl. rewrite Hdb. repeat split; try done.
    each_ttl. }
  rewrite Hdb. simpl.
  next_fault; simpl.
  { rewrite <- app_assoc, drop_app_length. simpl. repeat split; try done.
    - each_ttl.
    - eexists. split; [done|]. apply lookup_insert_eq. }
  next_fault; simpl.
  { rewrite <- !app_assoc, drop_app_length. simpl. repeat split; try done.
    - each_ttl.
    - eexists. split; [done|]. apply lookup_insert_eq. }
  rewrite <- !app_assoc, drop_app_length. simpl. repeat split; try done.
  - each_ttl.
  - eexists. split; [done|]. apply lookup_insert_eq.
Qed.

Lemma bind_dateNow {B} (k : Z → M B) w :
  (dateNow ≫= k) w = k (clock w (clockReads w)) (with_clockReads (S (clockReads w)) w).
Proof. reflexivity. Qed.

Lemma bind_get_world {B} (k : World → M B) w : (get_world ≫= k) w = k w w.
Proof. reflexivity. Qed.

Lemma bind_dateNow_run {B} (k : Z → M B) w :
  match dateNow w with
  | (Ok a, w') => k a w'
  | (Throw e, w') => (Throw e, w')
  end = k (clock w (clockReads w)) (with_clockReads (S (clockReads w)) w).
Proof. reflexivity. Qed.

Lemma storeEmergencyAlert_memory sid alert w :
  redis w = None →
  storeEmergencyAlert sid alert w =
    (Ok true,
     with_emergencyAlerts (emergencyAlerts w ++ [alertEntryAt sid alert w])
       (with_clockReads (S (S (clockReads w))) w)).
Proof.
  intros Hmem. unfold storeEmergencyAlert, try_catch.
  rewrite !bind_dateNow, bind_get_world. simpl. rewrite Hmem. reflexivity.
Qed.

Lemma storeEmergencyAlert_redis sid alert w db :
  redis w = Some db →
  let r := storeEmergencyAlert sid alert w in
  let e := alertEntryAt sid alert w in
  filter (λ c, isSetex c = true) (issued w r.2) = [SETEX (al_id e) 2592000 (SAlert e)]
  ∧ Forall (λ c, ttlOf c = None ∨ ttlOf c = Some 2592000%Z) (issued w r.2)
  ∧ emergencyAlerts r.2 = emergencyAlerts w
  ∧ (if redisFault w (length (redisLog w))
     then r.1 = Ok false ∧ redis r.2 = Some db
          ∧ issued w r.2 = [SETEX (al_id e) 2592000 (SAlert e)]
          ∧ console r.2 = (console w ++ ["Failed to store emergency alert:"])%list
     else ∃ db', redis r.2 = Some db' ∧ kv db' !! al_id e = Some (2592000%Z, SAlert e)).
Proof.
  intros Hdb. cbv zeta. unfold storeEmergencyAlert, try_catch.
  rewrite !bind_dateNow, bind_get_world. simpl. rewrite Hdb.
  set (w0 := with_clockReads (S (S (clockReads w))) (with_clockReads (S (clockReads w)) w)).
  pose proof (write_and_index
                (emergencyKey sid (clock w (clockReads w))) 2592000
                (SAlert (alertEntryAt sid alert w)) (emergencyListKey sid) w0 db Hdb)
    as (Hset & Httl & Hcon & Hal & _ & Hfault).
  cbv zeta in *. fold (alertEntryAt sid alert w).
  change (redisLog w0) with (redisLog w) in Hfault.
  change (issued w0) with (issued w) in *.
  destruct ((setex _ _ _ ≫= _) w0) as [[b|msg] w'] eqn:Hrun; simpl in *.
  - repeat split; try done.
    destruct (redisFault w (length (redisLog w))); [by destruct Hfault|done].
  - unfold consoleError, modify, mbind, M_bind, mret, M_ret. simpl.
    repeat split; try done.
    destruct (redisFault w (length (redisLog w))).
    + destruct Hfault as (_ & ? & ?). by rewrite Hcon.
    + done.
Qed.

Lemma logModerationEvent_memory sid ev w :
  redis w = None →
  RedisSessionManager.logModerationEvent sid ev w =
    (Ok true,
     with_moderationLogs (moderationLogs w ++ [moderationEntryAt sid ev w])
       (with_clockReads (S (S (clockReads w))) w)).
Proof.
  intros Hmem. unfold RedisSessionManager.logModerationEvent, try_catch.
  rewrite !bind_dateNow, bind_get_world. simpl. rewrite Hmem. reflexivity.
Qed.

Lemma logModerationEvent_redis sid ev w db :
  redis w = Some db →
  let r := RedisSessionManager.logModerationEvent sid ev w in
  let e := moderationEntryAt sid ev w in
  filter (λ c, isSetex c = true) (issued w r.2) = [SETEX (ml_id e) 604800 (SModeration e)]
  ∧ Forall (λ c, ttlOf c = None ∨ ttlOf c = Some 604800%Z) (issued w r.2)
  ∧ moderationLogs r.2 = moderationLogs w
  ∧ (if redisFault w (length (redisLog w))
     then r.1 = Ok false ∧ redis r.2 = Some db
          ∧ issued w r.2 = [SETEX (ml_id e) 604800 (SModeration e)]
          ∧ console r.2 = (console w ++ ["Failed to log moderation event:"])%list
     else ∃ db', redis r.2 = Some db' ∧ kv db' !! ml_id e = Some (604800%Z, SModeration e)).
Proof.
  intros Hdb. cbv zeta. unfold RedisSessionManager.logModerationEvent, try_catch.
  rewrite !bind_dateNow, bind_get_world. simpl. rewrite Hdb.
  set (w0 := with_clockReads (S (S (clockReads w))) (with_clockReads (S (clockReads w)) w)).
  pose proof (write_and_index
                (moderationKey sid (clock w (clockReads w))) 604800
                (SModeration (moderationEntryAt sid ev w)) (moderationListKey sid) w0 db Hdb)
    as (Hset & Httl & Hcon & _ & Hml & Hfault).
  cbv zeta in *. fold (moderationEntryAt sid ev w).
  change (redisLog w0) with (redisLog w) in Hfault.
  change (issued w0) with (issued w) in *.
  destruct ((setex _ _ _ ≫= _) w0) as [[b|msg] w'] eqn:Hrun; simpl in *.
  - repeat split; try done.
    destruct (redisFault w (length (redisLog w))); [by destruct Hfault|done].
  - unfold consoleError, modify, mbind, M_bind, mret, M_ret. simpl.
    repeat split; try done.
    destruct (redisFault w (length (redisLog w))).
    + destruct Hfault as (_ & ? & ?). by rewrite Hcon.
    + done.
Qed.

(** The service's wrapper adds nothing: the manager never throws. *)
Lemma serviceLog_world a w :
  (AIModerationService.logModerationEvent a w).2 = (RedisSessionManager.logModerationEvent (a_sessionId a) (eventOf a) w).2.
Proof.
  unfold AIModerationService.logModerationEvent, try_catch, mbind, M_bind, mret, M_ret.
  destruct (logModerationEvent_total (a_sessionId a) (eventOf a) w) as [b Hb].
  destruct (RedisSessionManager.logModerationEvent _ _ w) as [[b'|e] w']; simpl in *; done.
Qed.

Lemma bind_isoNow {B} (k : IsoString → M B) w :
  (isoNow ≫= k) w = k (ISO (clock w (clockReads w))) (with_clockReads (S (clockReads w)) w).
Proof. reflexivity. Qed.

Lemma setSessionState_memory sid st w :
  redis w = None →
  setSessionState sid st w =
    (Ok true,
     with_sessionStates (<[sid := stampMemory st (clock w (clockReads w))]> (sessionStates w))
       (with_clockReads (S (clockReads w)) w)).
Proof.
  intros Hmem. unfold setSessionState, try_catch.
  rewrite bind_get_world, Hmem, bind_dateNow. reflexivity.
Qed.

Lemma setSessionState_redis sid st w db :
  redis w = Some db →
  let r := setSessionState sid st w in
  let v := SSession (stampRedis st (clock w (clockReads w)) (ISO (clock w (S (clockReads w))))) in
  issued w r.2 = [SETEX (sessionKey sid) 86400 v]
  ∧ sessionStates r.2 = sessionStates w
  ∧ (if redisFault w (length (redisLog w))
     then r.1 = Ok false ∧ redis r.2 = Some db
     else r.1 = Ok true ∧ redis r.2 = Some (applyCmd (SETEX (sessionKey sid) 86400 v) db)).
Proof.
  intros Hdb. cbv zeta. unfold setSessionState, try_catch.
  rewrite bind_get_world, Hdb, bind_dateNow, bind_isoNow.
  unfold setex, issue, issued, consoleError, modify, mbind, M_bind, mret, M_ret. simpl.
  destruct (redisFault w (length (redisLog w))); simpl;
    rewrite drop_app_length, ?Hdb; done.
Qed.

Lemma setVoiceConfig_redis sid pid cfg w db :
  redis w = Some db →
  let r := setVoiceConfig sid pid cfg w in
  let v := SVoice {| vc_config := cfg; vc_timestamp := clock w (clockReads w);
                     vc_sessionId := sid; vc_participantId := pid |} in
  issued w r.2 = [SETEX (voiceKey sid pid) 3600 v]
  ∧ (if redisFault w (length (redisLog w))
     then r.1 = Ok false ∧ redis r.2 = Some db
     else r.1 = Ok true ∧ redis r.2 = Some (applyCmd (SETEX (voiceKey sid pid) 3600 v) db)).
Proof.
  intros Hdb. cbv zeta. unfold setVoiceConfig, try_catch.
  rewrite bind_dateNow, bind_get_world. simpl. rewrite Hdb.
  unfold setex, issue, issued, consoleError, modify, mbind, M_bind, mret, M_ret. simpl.
  destruct (redisFault w (length (redisLog w))); simpl;
    rewrite drop_app_length, ?Hdb; done.
Qed.

(** C7. With the Redis client in use, each write of the state store
    carries the TTL of its retention class, and an accepted write leaves
    the value under its key with that TTL: session snapshots 86400 s
    (24 h), voice configuration 3600 s (1 h), moderation log entries
    604800 s (7 days, on the entry and on the list), emergency alerts
    2592000 s (30 days, on the alert and on the list). *)
Theorem ttl_retention_classes (w : World) (db : RedisDb)
    (sessionId participantId : string) (state : SessionState)
    (voiceConfig : gmap string JsVal) (event : ModerationEvent) (alert : EmergencyAlert) :
  redis w = Some db →
  redisFault w (length (redisLog w)) = false →
  (∃ v db', issued w (world_of (setSessionState sessionId state w))
              = [SETEX (sessionKey sessionId) 86400 v]
          ∧ redis (world_of (setSessionState sessionId state w)) = Some db'
          ∧ kv db' !! sessionKey sessionId = Some (86400, v)%Z)
  ∧ (∃ v db', issued w (world_of (setVoiceConfig sessionId participantId voiceConfig w))
              = [SETEX (voiceKey sessionId participantId) 3600 v]
          ∧ redis (world_of (setVoiceConfig sessionId participantId voiceConfig w)) = Some db'
          ∧ kv db' !! voiceKey sessionId participantId = Some (3600, v)%Z)
  ∧ (∃ e db', Forall (λ c, ttlOf c = None ∨ ttlOf c = Some 604800%Z)
                (issued w (world_of (RedisSessionManager.logModerationEvent (Some sessionId) event w)))
          ∧ redis (world_of (RedisSessionManager.logModerationEvent (Some sessionId) event w)) = Some db'
          ∧ ml_event e = event
          ∧ kv db' !! ml_id e = Some (604800, SModeration e)%Z)
  ∧ (∃ e db', Forall (λ c, ttlOf c = None ∨ ttlOf c = Some 2592000%Z)
                (issued w (world_of (storeEmergencyAlert sessionId alert w)))
          ∧ redis (world_of (storeEmergencyAlert sessionId alert w)) = Some db'
          ∧ al_alert e = alert
          ∧ kv db' !! al_id e = Some (2592000, SAlert e)%Z)
  ∧ (86400 = 24 * 60 * 60 ∧ 3600 = 60 * 60
     ∧ 604800 = 7 * 24 * 60 * 60 ∧ 2592000 = 30 * 24 * 60 * 60)%Z.
Proof.
  intros Hdb Hok. unfold world_of. repeat split.
  - destruct (setSessionState_redis sessionId state w db Hdb) as (Hi & _ & Hr).
    rewrite Hok in Hr. destruct Hr as [_ Hr].
    eexists _, _. split; [exact Hi|]. split; [exact Hr|]. apply lookup_insert_eq.
  - destruct (setVoiceConfig_redis sessionId participantId voiceConfig w db Hdb) as (Hi & Hr).
    rewrite Hok in Hr. destruct Hr as [_ Hr].
    eexists _, _. split; [exact Hi|]. split; [exact Hr|]. apply lookup_insert_eq.
  - destruct (logModerationEvent_redis (Some sessionId) event w db Hdb) as (_ & Httl & _ & Hr).
    rewrite Hok in Hr. destruct Hr as (db' & Hr & Hkv).
    exists (moderationEntryAt (Some sessionId) event w), db'. done.
  - destruct (storeEmergencyAlert_redis sessionId alert w db Hdb) as (_ & Httl & _ & Hr).
    rewrite Hok in Hr. destruct Hr as (db' & Hr & Hkv).
    exists (alertEntryAt sessionId alert w), db'. done.
Qed.

Lemma ttl_retention_classes_witness :
  redis (redisWorld AIRejects noFault) = Some emptyDb
  ∧ redisFault (redisWorld AIRejects noFault) (length (redisLog (redisWorld AIRejects noFault))) = false
  ∧ (∃ v db', issued (redisWorld AIRejects noFault)
                (world_of (setSessionState "room-1" emptySession (redisWorld AIRejects noFault)))
              = [SETEX (sessionKey "room-1") 86400 v]
          ∧ redis (world_of (setSessionState "room-1" emptySession (redisWorld AIRejects noFault)))
            = Some db'
          ∧ kv db' !! sessionKey "room-1" = Some (86400, v)%Z)
  ∧ (∃ e db', redis (world_of (storeEmergencyAlert "room-1" sampleAlert
                                 (redisWorld AIRejects noFault))) = Some db'
          ∧ al_alert e = sampleAlert
          ∧ kv db' !! al_id e = Some (2592000, SAlert e)%Z).
Proof.
  split; [reflexivity|]. split; [reflexivity|].
  destruct (ttl_retention_classes (redisWorld AIRejects noFault) emptyDb "room-1" "anon-7"
              emptySession sampleVoice sampleEvent sampleAlert eq_refl eq_refl)
    as (Hsession & _ & _ & Halert & _).
  split; [exact Hsession|].
  destruct Halert as (e & db' & _ & Hr & He & Hkv).
  exists e, db'. done.
Defined.

(* ===================================================================== *)
(** * Dispatch of an immediate intervention *)
(* ===================================================================== *)

Lemma supportiveResponseOf_none aiAnalysis : supportiveResponseOf aiAnalysis = None.
Proof. by destruct aiAnalysis. Qed.

Lemma with_clockReads_twice a b w :
  with_clockReads a (with_clockReads b w) = with_clockReads a w.
Proof. reflexivity. Qed.

Lemma executeModerationAction_intervention a sid pid w :
  a_action a = "immediate_intervention" →
  let w1 := with_emitted
              (emitted w ++
               [ {| room := "moderators"; event := "crisis_alert";
                    payload := CrisisAlert sid pid (a_content a) (a_severity a)
                                 (ISO (clock w (S (clockReads w)))) |} ])
              (with_clockReads (S (S (clockReads w))) w) in
  executeModerationAction a sid pid w =
    (Ok (ReturnsResults
           {| ar_action := "immediate_intervention";
              ar_executed := ["moderator_notification"; "emergency_alert_logged"];
              ar_timestamp := ISO (clock w (clockReads w)) |}),
     (storeEmergencyAlert sid (crisisAlertOf a pid) w1).2).
Proof.
  intros Hact. cbv zeta.
  unfold executeModerationAction, try_catch. rewrite Hact. simpl.
  rewrite bind_isoNow.
  unfold interveneNow, crisisAlertOf. rewrite !supportiveResponseOf_none.
  unfold emit, modify, isoNow, dateNow.
  unfold mbind, M_bind, mret, M_ret. simpl.
  rewrite with_clockReads_twice.
  match goal with |- context [storeEmergencyAlert sid ?al ?w1] =>
    destruct (storeEmergencyAlert_total sid al w1) as [b Hb];
    destruct (storeEmergencyAlert sid al w1) as [[b'|e] w'] end;
  simpl in *; done.
Qed.

Lemma storeEmergencyAlert_stores sid alert w :
  storeAccepts w →
  alertStored (storeEmergencyAlert sid alert w).2 (alertEntryAt sid alert w).
Proof.
  intros Hacc. unfold alertStored. destruct (redis w) as [db|] eqn:Hdb.
  - destruct Hacc as [Hmem|Hok]; [congruence|].
    destruct (storeEmergencyAlert_redis sid alert w db Hdb) as (_ & _ & _ & Hr).
    rewrite Hok in Hr. destruct Hr as (db' & -> & Hkv). exact Hkv.
  - rewrite storeEmergencyAlert_memory by done. simpl. rewrite Hdb.
    apply elem_of_app. right. by left.
Qed.

Lemma storeEmergencyAlert_emitted sid alert : preserves emitted (storeEmergencyAlert sid alert).
Proof. frame. Qed.

Lemma crisis_rule_result :
  applyRuleBasedModeration "I want to kill myself" =
    {| r_flags := [KeywordFlag "crisis_detection" "kill myself" 10];
       r_severity := "critical"; r_action := "immediate_intervention";
       r_confidence := 0.8; r_definitive := true |}.
Proof. vm_compute. reflexivity. Qed.

(** C1. For the content "I want to kill myself", in any context: the rule
    stage matches the crisis keyword [kill myself] and its result has
    severity ['critical'], action ['immediate_intervention'] and
    [definitive = true]; [analyzeContent] returns a verdict with that
    severity and action; the AI stage is not invoked; and executing the
    verdict, from any world, emits [crisis_alert] to the moderators' room
    and hands an emergency alert to [storeEmergencyAlert], which holds it
    whenever the store accepts the write. *)
Theorem crisis_message_scenario (ctx : Context) (w : World)
    (sessionId participantId : string) (w' : World) :
  let content := "I want to kill myself" in
  let rr := applyRuleBasedModeration content in
  (∃ position, KeywordFlag "crisis_detection" "kill myself" position ∈ r_flags rr)
  ∧ r_severity rr = "critical"
  ∧ r_action rr = "immediate_intervention"
  ∧ r_definitive rr = true
  ∧ ∃ v, (analyzeContent content ctx w).1 = Ok v
     ∧ a_content v = content
     ∧ a_severity v = "critical"
     ∧ a_action v = "immediate_intervention"
     ∧ a_sessionId v = c_sessionId ctx
     ∧ a_participantId v = c_participantId ctx
     ∧ a_error v = None
     ∧ aiInvoked w (world_of (analyzeContent content ctx w)) = false
     ∧ ∃ report at_ w1 e,
         executeModerationAction v sessionId participantId w' = (Ok (ReturnsResults report),
            world_of (storeEmergencyAlert sessionId (crisisAlertOf v participantId) w1))
         ∧ ar_executed report = ["moderator_notification"; "emergency_alert_logged"]
         ∧ emitted (world_of (executeModerationAction v sessionId participantId w'))
           = (emitted w' ++
              [ {| room := "moderators"; event := "crisis_alert";
                   payload := CrisisAlert sessionId participantId content "critical" at_ |} ])%list
         ∧ al_alert e = crisisAlertOf v participantId
         ∧ ea_type (al_alert e) = "crisis_intervention"
         ∧ ea_content (al_alert e) = content
         ∧ ea_participantId (al_alert e) = participantId
         ∧ al_sessionId e = sessionId
         ∧ al_severity e = "critical"
         ∧ (storeAccepts w' →
            alertStored (world_of (executeModerationAction v sessionId participantId w')) e).
Proof.
  cbv zeta. rewrite crisis_rule_result. simpl.
  split; [exists 10%Z; by left|]. do 3 (split; [reflexivity|]).
  assert (aiStageDue "I want to kill myself"
            (applyRuleBasedModeration "I want to kill myself") = false) as Hskip.
  { by rewrite crisis_rule_result. }
  exists (ruleVerdict "I want to kill myself" ctx w).
  split; [by rewrite analyzeContent_skipped|].
  unfold ruleVerdict. rewrite crisis_rule_result.
  do 6 (split; [reflexivity|]).
  split; [unfold world_of; by rewrite aiInvoked_iff|].
  set (v := afterRules _ _ _ _).
  assert (a_action v = "immediate_intervention") as Hact by reflexivity.
  rewrite (executeModerationAction_intervention v sessionId participantId w' Hact).
  cbv zeta. unfold world_of. simpl.
  eexists _, _, _, (alertEntryAt sessionId (crisisAlertOf v participantId) _).
  split; [reflexivity|]. split; [reflexivity|].
  split; [by rewrite storeEmergencyAlert_emitted|].
  do 6 (split; [reflexivity|]).
  intros Hacc. apply storeEmergencyAlert_stores. exact Hacc.
Qed.

Lemma crisis_message_scenario_witness :
  storeAccepts (redisWorld AIRejects noFault)
  ∧ ∃ v e, (analyzeContent "I want to kill myself" someContext (blankWorld AIRejects)).1 = Ok v
      ∧ a_severity v = "critical"
      ∧ aiInvoked (blankWorld AIRejects)
          (world_of (analyzeContent "I want to kill myself" someContext (blankWorld AIRejects)))
        = false
      ∧ ea_content (al_alert e) = "I want to kill myself"
      ∧ alertStored
          (world_of (executeModerationAction v "room-1" "anon-7" (redisWorld AIRejects noFault))) e.
Proof.
  assert (storeAccepts (redisWorld AIRejects noFault)) as Hacc by (right; reflexivity).
  split; [exact Hacc|].
  destruct (crisis_message_scenario someContext (blankWorld AIRejects) "room-1" "anon-7"
              (redisWorld AIRejects noFault))
    as (_ & _ & _ & _ & v & Hv & _ & Hs & _ & _ & _ & _ & Hai
        & report & at_ & w1 & e & _ & _ & _ & _ & _ & Hc & _ & _ & _ & Hstored).
  exists v, e. split; [exact Hv|]. split; [exact Hs|]. split; [exact Hai|].
  split; [exact Hc|]. apply Hstored, Hacc.
Defined.

(* ===================================================================== *)
(** * Logging of verdicts *)
(* ===================================================================== *)

Lemma logModerationEvent_stores sid ev w :
  storeAccepts w →
  eventStored (RedisSessionManager.logModerationEvent sid ev w).2 (moderationEntryAt sid ev w).
Proof.
  intros Hacc. unfold eventStored. destruct (redis w) as [db|] eqn:Hdb.
  - destruct Hacc as [Hmem|Hok]; [congruence|].
    destruct (logModerationEvent_redis sid ev w db Hdb) as (_ & _ & _ & Hr).
    rewrite Hok in Hr. destruct Hr as (db' & -> & Hkv). exact Hkv.
  - rewrite logModerationEvent_memory by done. simpl. rewrite Hdb.
    apply elem_of_app. right. by left.
Qed.

(** A write that is not held by the store has been reported on the console. *)
Lemma logModerationEvent_stores_or_reports sid ev w :
  eventStored (RedisSessionManager.logModerationEvent sid ev w).2 (moderationEntryAt sid ev w)
  ∨ last (console (RedisSessionManager.logModerationEvent sid ev w).2) = Some "Failed to log moderation event:".
Proof.
  destruct (redis w) as [db|] eqn:Hdb.
  - destruct (logModerationEvent_redis sid ev w db Hdb) as (_ & _ & _ & Hr).
    destruct (redisFault w (length (redisLog w))).
    + right. destruct Hr as (_ & _ & _ & ->). apply last_snoc.
    + left. destruct Hr as (db' & Hr & Hkv). unfold eventStored. by rewrite Hr.
  - left. apply logModerationEvent_stores. by left.
Qed.

Lemma performAIAnalysis_backend content w :
  redis (performAIAnalysis content w).2 = redis w
  ∧ redisFault (performAIAnalysis content w).2 = redisFault w.
Proof. rewrite performAIAnalysis_run. by destruct (classifier w content). Qed.

Lemma combine_error rv ai : a_error (combine rv ai) = a_error rv.
Proof. unfold combine. by case_decide. Qed.

(** C5, as the code has it.  [analyzeContent] always returns a verdict.
    Every verdict it returns without an [error] field has been handed to
    [RedisSessionManager.logModerationEvent] as the last step before the return; the store
    then holds it as a moderation event whenever it accepts the write, and
    a write that is not held has been reported on the console. *)
Theorem verdict_is_logged_before_return (content : string) (ctx : Context) (w : World) :
  ∃ v, (analyzeContent content ctx w).1 = Ok v
     ∧ (a_error v = None →
        ∃ w1 e,
          world_of (analyzeContent content ctx w)
          = world_of (RedisSessionManager.logModerationEvent (a_sessionId v) (eventOf v) w1)
          ∧ e = moderationEntryAt (a_sessionId v) (eventOf v) w1
          ∧ ml_event e = eventOf v
          ∧ me_severity (ml_event e) = a_severity v
          ∧ me_content (ml_event e) = a_content v
          ∧ (storeAccepts w → eventStored (world_of (analyzeContent content ctx w)) e)
          ∧ (eventStored (world_of (analyzeContent content ctx w)) e
             ∨ last (console (world_of (analyzeContent content ctx w)))
               = Some "Failed to log moderation event:")).
Proof.
  unfold world_of.
  destruct (aiStageDue content (applyRuleBasedModeration content)) eqn:Hdue.
  - rewrite analyzeContent_ran by done. cbv zeta.
    destruct (ai_flags (aiResultFor (classifier w content))) as [l|].
    + eexists. split; [reflexivity|]. intros _.
      eexists _, _. cbn [snd]. rewrite serviceLog_world.
      split; [reflexivity|]. split; [reflexivity|]. do 3 (split; [reflexivity|]).
      split; [|apply logModerationEvent_stores_or_reports].
      intros Hacc. apply logModerationEvent_stores.
      destruct (performAIAnalysis_backend content (with_clockReads (S (clockReads w)) w))
        as [Hr Hf].
      unfold storeAccepts in *. rewrite Hr, Hf. exact Hacc.
    + eexists. split; [reflexivity|]. intros Herr. discriminate Herr.
  - rewrite analyzeContent_skipped by done.
    eexists. split; [reflexivity|]. intros _.
    eexists _, _. cbn [snd]. rewrite serviceLog_world.
    split; [reflexivity|]. split; [reflexivity|]. do 3 (split; [reflexivity|]).
    split; [|apply logModerationEvent_stores_or_reports].
    intros Hacc. apply logModerationEvent_stores. exact Hacc.
Qed.

Lemma verdict_is_logged_before_return_witness :
  storeAccepts (blankWorld (AIObject mildReply))
  ∧ ∃ v e, result (analyzeContent "I hate mondays a lot" someContext
                     (blankWorld (AIObject mildReply))) = Some v
      ∧ a_error v = None
      ∧ ml_event e = eventOf v
      ∧ eventStored (world_of (analyzeContent "I hate mondays a lot" someContext
                                 (blankWorld (AIObject mildReply)))) e.
Proof.
  assert (storeAccepts (blankWorld (AIObject mildReply))) as Hacc by (left; reflexivity).
  split; [exact Hacc|].
  destruct (verdict_is_logged_before_return "I hate mondays a lot" someContext
              (blankWorld (AIObject mildReply))) as (v & Hv & Hlogged).
  assert (a_error v = None) as Herr.
  { assert (Some v = Some (withAI (combine (ruleVerdict "I hate mondays a lot" someContext
                                              (blankWorld (AIObject mildReply)))
                                     (aiResultOf mildReply))
                             [AIFlag "tone" "irritated"] (Some "mild frustration"))) as Heq.
    { transitivity (result (analyzeContent "I hate mondays a lot" someContext
                              (blankWorld (AIObject mildReply)))).
      - unfold result. by rewrite Hv.
      - vm_compute. reflexivity. }
    injection Heq as ->. apply combine_error. }
  destruct (Hlogged Herr) as (w1 & e & _ & _ & He & _ & _ & Hstored & _).
  exists v, e. split; [unfold result; by rewrite Hv|]. split; [exact Herr|].
  split; [exact He|]. apply Hstored, Hacc.
Defined.

(** C5 as stated fails in two ways.  (a) In memory mode, a classifier
    reply whose [flags] cannot be spread sends [analyzeContent] to its
    [catch] block: the fallback verdict is returned and nothing is logged.
    (b) With the Redis client in use and its write rejected, the critical
    verdict is returned and no moderation event is held by the store. *)
Lemma verdict_returned_without_a_moderation_event :
  (result (analyzeContent "hello there, everyone" someContext
             (blankWorld (AIObject brokenReply)))
   = Some (fallbackVerdict "hello there, everyone" notIterable)
   ∧ moderationLogs (world_of (analyzeContent "hello there, everyone" someContext
                                 (blankWorld (AIObject brokenReply)))) = []
   ∧ console (world_of (analyzeContent "hello there, everyone" someContext
                          (blankWorld (AIObject brokenReply))))
     = ["Content analysis failed:"])
  ∧ (a_severity <$> result (analyzeContent "I want to kill myself" someContext
                              (redisWorld AIRejects firstCommandFails))) = Some "critical"
  ∧ (a_error <$> result (analyzeContent "I want to kill myself" someContext
                           (redisWorld AIRejects firstCommandFails))) = Some None
  ∧ redis (world_of (analyzeContent "I want to kill myself" someContext
                       (redisWorld AIRejects firstCommandFails))) = Some emptyDb
  ∧ moderationLogs (world_of (analyzeContent "I want to kill myself" someContext
                                (redisWorld AIRejects firstCommandFails))) = []
  ∧ console (world_of (analyzeContent "I want to kill myself" someContext
                         (redisWorld AIRejects firstCommandFails)))
    = ["Failed to log moderation event:"].
Proof. vm_compute. repeat split. Qed.

(* ===================================================================== *)
(** * A rejected emergency-alert write *)
(* ===================================================================== *)

(** C6, as the code has it.  With the Redis client in use,
    [storeEmergencyAlert] issues exactly one SETEX for the alert, whatever
    the outcome of its commands.  When that write is rejected nothing else
    is issued: the failure is reported on the console, [false] is
    returned, and the store holds what it held before; there is no second
    attempt.  [executeModerationAction] does not look at the returned
    value and still reports [emergency_alert_logged]. *)
Theorem emergency_alert_write_is_attempted_once (sessionId : string)
    (alert : EmergencyAlert) (w : World) (db : RedisDb) :
  redis w = Some db →
  redisFault w (length (redisLog w)) = true →
  let r := storeEmergencyAlert sessionId alert w in
  let e := alertEntryAt sessionId alert w in
  filter (λ c, isSetex c = true) (issued w (world_of r)) = [SETEX (al_id e) 2592000 (SAlert e)]
  ∧ issued w (world_of r) = [SETEX (al_id e) 2592000 (SAlert e)]
  ∧ r.1 = Ok false
  ∧ console (world_of r) = (console w ++ ["Failed to store emergency alert:"])%list
  ∧ redis (world_of r) = Some db
  ∧ emergencyAlerts (world_of r) = emergencyAlerts w
  ∧ (∀ analysis participantId,
       a_action analysis = "immediate_intervention" →
       let r' := executeModerationAction analysis sessionId participantId w in
       executedOf r' = ["moderator_notification"; "emergency_alert_logged"]
       ∧ length (filter (λ c, isSetex c = true) (issued w (world_of r'))) = 1%nat
       ∧ redis (world_of r') = Some db
       ∧ emergencyAlerts (world_of r') = emergencyAlerts w).
Proof.
  intros Hdb Hfail. cbv zeta. unfold world_of.
  destruct (storeEmergencyAlert_redis sessionId alert w db Hdb) as (Hset & _ & Hal & Hr).
  rewrite Hfail in Hr. destruct Hr as (Hres & Hredis & Hiss & Hcon).
  do 6 (split; [done|]).
  intros analysis participantId Hact.
  rewrite (executeModerationAction_intervention analysis sessionId participantId w Hact).
  cbv zeta. unfold executedOf. cbn [fst snd].
  match goal with |- context [storeEmergencyAlert sessionId ?al ?w1] =>
    destruct (storeEmergencyAlert_redis sessionId al w1 db Hdb) as (Hset' & _ & Hal' & Hr');
    change (redisLog w1) with (redisLog w) in Hr';
    change (redisFault w1) with (redisFault w) in Hr';
    change (issued w1) with (issued w) in *;
    change (emergencyAlerts w1) with (emergencyAlerts w) in *
  end.
  rewrite Hfail in Hr'. destruct Hr' as (_ & Hredis' & _ & _).
  cbv zeta in *. rewrite Hset'. done.
Qed.

Lemma emergency_alert_write_is_attempted_once_witness :
  redis (redisWorld AIRejects firstCommandFails) = Some emptyDb
  ∧ redisFault (redisWorld AIRejects firstCommandFails)
      (length (redisLog (redisWorld AIRejects firstCommandFails))) = true
  ∧ length (issued (redisWorld AIRejects firstCommandFails)
              (world_of (storeEmergencyAlert "room-1" sampleAlert
                           (redisWorld AIRejects firstCommandFails)))) = 1%nat
  ∧ (storeEmergencyAlert "room-1" sampleAlert (redisWorld AIRejects firstCommandFails)).1
    = Ok false
  ∧ redis (world_of (storeEmergencyAlert "room-1" sampleAlert
                       (redisWorld AIRejects firstCommandFails))) = Some emptyDb.
Proof.
  split; [reflexivity|]. split; [reflexivity|].
  destruct (emergency_alert_write_is_attempted_once "room-1" sampleAlert
              (redisWorld AIRejects firstCommandFails) emptyDb eq_refl eq_refl)
    as (_ & Hiss & Hres & _ & Hredis & _).
  split; [by rewrite Hiss|]. split; [exact Hres|exact Hredis].
Defined.

(** C6 as stated fails: the first write of the alert is rejected;
    [storeEmergencyAlert] has issued that one command and no other, has
    reported the failure and returned [false], and the alert is in no
    store.  Dispatching the crisis verdict in that world reports
    [emergency_alert_logged] all the same. *)
Lemma emergency_alert_dropped_after_one_failed_write :
  length (issued (redisWorld AIRejects firstCommandFails)
            (world_of (storeEmergencyAlert "room-1" sampleAlert
                         (redisWorld AIRejects firstCommandFails)))) = 1%nat
  ∧ result (storeEmergencyAlert "room-1" sampleAlert
              (redisWorld AIRejects firstCommandFails)) = Some false
  ∧ console (world_of (storeEmergencyAlert "room-1" sampleAlert
                         (redisWorld AIRejects firstCommandFails)))
    = ["Failed to store emergency alert:"]
  ∧ redis (world_of (storeEmergencyAlert "room-1" sampleAlert
                       (redisWorld AIRejects firstCommandFails))) = Some emptyDb
  ∧ emergencyAlerts (world_of (storeEmergencyAlert "room-1" sampleAlert
                                 (redisWorld AIRejects firstCommandFails))) = []
  ∧ executedOf (executeModerationAction crisisVerdict "room-1" "anon-7"
                  (redisWorld AIRejects firstCommandFails))
    = ["moderator_notification"; "emergency_alert_logged"]
  ∧ length (issued (redisWorld AIRejects firstCommandFails)
              (world_of (executeModerationAction crisisVerdict "room-1" "anon-7"
                           (redisWorld AIRejects firstCommandFails)))) = 1%nat
  ∧ redis (world_of (executeModerationAction crisisVerdict "room-1" "anon-7"
                       (redisWorld AIRejects firstCommandFails))) = Some emptyDb.
Proof. vm_compute. repeat split. Qed.

(* ===================================================================== *)
(** * The roster *)
(* ===================================================================== *)

Lemma upsert_nil pid data : upsert pid data [] = [data ∪ {[ "id" := VStr pid ]}].
Proof. reflexivity. Qed.

Lemma upsert_cons pid data p roster :
  upsert pid data (p :: roster) =
    if decide (hasId pid p) then (data ∪ p) :: roster else p :: upsert pid data roster.
Proof.
  unfold upsert. simpl. case_decide; [done|].
  destruct (list_find (hasId pid) roster) as [[i x]|]; done.
Qed.

Lemma upsert_length pid data roster :
  length (upsert pid data roster)
  = if decide (occurrences pid roster = 0%nat) then S (length roster) else length roster.
Proof.
  unfold occurrences. induction roster as [|p roster IH].
  - done.
  - rewrite upsert_cons, filter_cons. destruct (decide (hasId pid p)); simpl.
    + done.
    + rewrite IH. by case_decide.
Qed.

Section KeepsId.

Variables (pid : string) (data : gmap string JsVal).
Hypothesis Hkeeps : keepsId pid data.

Lemma merged_id p q : hasId pid p → hasId q (data ∪ p) ↔ q = pid.
Proof.
  unfold hasId. intros Hp. rewrite lookup_union.
  destruct Hkeeps as [-> | ->]; rewrite ?Hp;
    unfold union, option_union, union_with, option_union_with;
    split; intros; simplify_eq; done.
Qed.

Lemma fresh_id q : hasId q (data ∪ {[ "id" := VStr pid ]}) ↔ q = pid.
Proof.
  unfold hasId. rewrite lookup_union, lookup_singleton_eq.
  destruct Hkeeps as [-> | ->];
    unfold union, option_union, union_with, option_union_with;
    split; intros; simplify_eq; done.
Qed.

Lemma upsert_occurrences roster :
  occurrences pid (upsert pid data roster) = Nat.max 1 (occurrences pid roster).
Proof.
  unfold occurrences. induction roster as [|p roster IH].
  - rewrite upsert_nil, filter_cons, decide_True by (by apply fresh_id). done.
  - rewrite upsert_cons. case_decide as Hp.
    + rewrite !filter_cons, !decide_True; [simpl; lia|done|by apply merged_id].
    + rewrite !filter_cons, !decide_False by done. exact IH.
Qed.

Lemma upsert_others q roster :
  q ≠ pid → occurrences q (upsert pid data roster) = occurrences q roster.
Proof.
  intros Hq. unfold occurrences. induction roster as [|p roster IH].
  - rewrite upsert_nil, filter_cons, decide_False; [done|].
    intros Hid. by apply fresh_id in Hid.
  - rewrite upsert_cons. case_decide as Hp.
    + rewrite !filter_cons, !decide_False; [done| |].
      * unfold hasId in *. intros Hqp. rewrite Hp in Hqp. by simplify_eq.
      * intros Hid. by apply merged_id in Hid.
    + rewrite !filter_cons. case_decide; simpl; by rewrite IH.
Qed.

(** A second join with the same data changes nothing. *)
Lemma upsert_idempotent roster :
  upsert pid data (upsert pid data roster) = upsert pid data roster.
Proof.
  induction roster as [|p roster IH].
  - rewrite upsert_nil, upsert_cons, decide_True by (by apply fresh_id).
    f_equal. apply map_eq. intros k. rewrite !lookup_union.
    destruct (data !! k), ({[ "id" := VStr pid ]} !! k); done.
  - rewrite upsert_cons. case_decide as Hp.
    + rewrite upsert_cons, decide_True by (by apply merged_id).
      f_equal. apply map_eq. intros k. rewrite !lookup_union.
      destruct (data !! k), (p !! k); done.
    + rewrite upsert_cons, decide_False by done. by rewrite IH.
Qed.

End KeepsId.

(** An entry that is present is replaced where it stands, by its fields
    overlaid with those of [participantData]. *)
Lemma upsert_in_place pid data roster :
  (0 < occurrences pid roster)%nat →
  ∃ i p, list_find (hasId pid) roster = Some (i, p)
       ∧ upsert pid data roster = <[i := data ∪ p]> roster
       ∧ upsert pid data roster !! i = Some (data ∪ p)
       ∧ ∀ k, (data ∪ p) !! k = match data !! k with Some v => Some v | None => p !! k end.
Proof.
  intros Hocc. unfold upsert.
  destruct (list_find (hasId pid) roster) as [[i p]|] eqn:Hfind.
  - exists i, p. split; [done|]. split; [done|]. split.
    + apply list_find_Some in Hfind as (Hi & _ & _).
      apply list_lookup_insert_eq. by apply lookup_lt_Some in Hi.
    + intros k. rewrite lookup_union. destruct (data !! k), (p !! k); done.
  - apply list_find_None in Hfind. unfold occurrences in Hocc.
    assert (filter (hasId pid) roster = []) as Hnil.
    { clear Hocc. induction roster as [|x l IH]; [done|].
      apply Forall_cons in Hfind as [Hx Hl].
      rewrite filter_cons, decide_False by done. by apply IH. }
    rewrite Hnil in Hocc. simpl in Hocc. lia.
Qed.

(** Any number of further joins under the same identifier leaves the
    length of the roster and the number of entries under that identifier
    as the first join left them. *)
Lemma upsert_many pid datas : ∀ roster,
  Forall (keepsId pid) datas →
  (0 < occurrences pid roster)%nat →
  let final := foldl (λ r d, upsert pid d r) roster datas in
  length final = length roster ∧ occurrences pid final = occurrences pid roster.
Proof.
  induction datas as [|d ds IH]; intros roster Hall Hocc; simpl; [done|].
  apply Forall_cons in Hall as [Hd Hds].
  assert (occurrences pid (upsert pid d roster) = occurrences pid roster) as Ho.
  { rewrite upsert_occurrences by done. lia. }
  assert (length (upsert pid d roster) = length roster) as Hl.
  { rewrite upsert_length. case_decide; [lia|done]. }
  destruct (IH (upsert pid d roster) Hds) as [IHl IHo]; [lia|].
  simpl in *. by rewrite IHl, IHo, Hl, Ho.
Qed.

(* ===================================================================== *)
(** * Roster events against the store *)
(* ===================================================================== *)

Lemma updateParticipant_rewrites sid pid data :
  updateParticipant sid pid data
  = rewriteRoster sid (upsert pid data) "Failed to update participant:".
Proof. reflexivity. Qed.

Lemma removeParticipant_rewrites sid pid :
  removeParticipant sid pid
  = rewriteRoster sid (filter (λ p, ¬ hasId pid p)) "Failed to remove participant:".
Proof. reflexivity. Qed.

Lemma sessionKey_inj a b : sessionKey a = sessionKey b → a = b.
Proof. unfold sessionKey. intros H. by simplify_eq/=. Qed.

Lemma getSessionState_memory sid w :
  redis w = None → getSessionState sid w = (Ok (sessionStates w !! sid), w).
Proof.
  intros Hmem. unfold getSessionState, try_catch. rewrite bind_get_world, Hmem. reflexivity.
Qed.

Lemma getSessionState_redis sid w db :
  redis w = Some db →
  let r := getSessionState sid w in
  redis r.2 = Some db
  ∧ redisFault r.2 = redisFault w
  ∧ sessionStates r.2 = sessionStates w
  ∧ (r.1 = Ok None ∨ r.1 = Ok (storedSession w sid)).
Proof.
  intros Hdb. cbv zeta. unfold getSessionState, try_catch, storedSession.
  rewrite bind_get_world, Hdb.
  unfold get, issue, get_world, consoleError, modify, mbind, M_bind, mret, M_ret. simpl.
  destruct (redisFault w (length (redisLog w))); simpl; rewrite ?Hdb; simpl.
  - repeat split; try done. by left.
  - repeat split; try done. right. done.
Qed.

Lemma storedSession_same w w' :
  redis w' = redis w → sessionStates w' = sessionStates w →
  ∀ sid, storedSession w' sid = storedSession w sid.
Proof. intros Hr Hs sid. unfold storedSession. by rewrite Hr, Hs. Qed.

Section RewriteRoster.

Variables (sid : string) (g : list Participant → list Participant) (label : string).

(** One event, whatever the backend and whatever the client does. *)
Lemma rewriteRoster_step w :
  let r := rewriteRoster sid g label w in
  (succeeded r = true
   ∧ ∃ before after,
       storedSession w sid = Some before
       ∧ storedSession r.2 sid = Some after
       ∧ participants after = Some (g (default [] (participants before)))
       ∧ currentParticipants after
         = Some (Z.of_nat (length (g (default [] (participants before)))))
       ∧ fields after = fields before)
  ∨ (succeeded r = false ∧ storedSession r.2 sid = storedSession w sid).
Proof.
  cbv zeta. unfold rewriteRoster, try_catch, succeeded.
  destruct (redis w) as [db|] eqn:Hdb.
  - (* the Redis client *)
    destruct (getSessionState_redis sid w db Hdb) as (Hr1 & Hf1 & Hs1 & Hres).
    unfold mbind, M_bind.
    destruct (getSessionState sid w) as [o w1] eqn:Hget. simpl in *.
    assert (∀ other, storedSession w1 other = storedSession w other) as Hsame.
    { apply storedSession_same; [congruence|done]. }
    destruct Hres as [-> | ->].
    { right. simpl. done. }
    destruct (storedSession w sid) as [before|] eqn:Hbefore;
      [|right; simpl; split; [done|by rewrite Hsame]].
    destruct (setSessionState_redis sid
                (withRoster before (g (default [] (participants before)))) w1 db Hr1)
      as (_ & Hs2 & Hset).
    destruct (setSessionState sid _ w1) as [o2 w2] eqn:Hrun. simpl in *.
    destruct (redisFault w1 (length (redisLog w1))).
    + destruct Hset as [-> Hr2]. right. simpl. split; [done|].
      rewrite <- Hbefore, <- (Hsame sid). apply storedSession_same; [congruence|done].
    + destruct Hset as [-> Hr2]. left. simpl. split; [done|].
      eexists before, _. split; [done|].
      unfold storedSession at 1. rewrite Hr2. simpl. rewrite lookup_insert_eq. simpl.
      split; [reflexivity|]. by do 2 (split; [reflexivity|]).
  - (* the in-memory fallback *)
    unfold mbind, M_bind. rewrite getSessionState_memory by done.
    assert (storedSession w sid = sessionStates w !! sid) as Hstored.
    { unfold storedSession. by rewrite Hdb. }
    destruct (sessionStates w !! sid) as [before|] eqn:Hbefore.
    + rewrite setSessionState_memory by done. left. simpl. split; [done|].
      eexists before, _. split; [done|].
      unfold storedSession. simpl. rewrite Hdb, lookup_insert_eq.
      split; [reflexivity|]. by do 2 (split; [reflexivity|]).
    + right. simpl. done.
Qed.

End RewriteRoster.

Lemma runOp_step sid op w :
  stepSound {| step_session := sid; step_op := op; step_ok := succeeded (runOp sid op w);
               step_before := w; step_after := (runOp sid op w).2 |}.
Proof.
  unfold stepSound. simpl.
  destruct op as [pid data|pid]; simpl.
  - rewrite updateParticipant_rewrites.
    destruct (rewriteRoster_step sid (upsert pid data) "Failed to update participant:" w)
      as [[-> H]|[-> H]]; done.
  - rewrite removeParticipant_rewrites.
    destruct (rewriteRoster_step sid (filter (λ p, ¬ hasId pid p))
                "Failed to remove participant:" w) as [[-> H]|[-> H]]; done.
Qed.

Lemma counted_intro st roster :
  participants st = Some roster →
  currentParticipants st = Some (Z.of_nat (length roster)) →
  counted st = true.
Proof. intros Hp Hc. unfold counted. rewrite Hp, Hc. by apply bool_decide_eq_true_2. Qed.

Lemma runOp_sessionCounted sid op w :
  sessionCounted w sid → sessionCounted (runOp sid op w).2 sid.
Proof.
  intros Hinv st Hst. pose proof (runOp_step sid op w) as Hstep.
  unfold stepSound in Hstep. simpl in Hstep.
  destruct (succeeded (runOp sid op w)).
  - destruct Hstep as (before & after & Hb & Ha & Hp & Hc & _).
    rewrite Ha in Hst. injection Hst as <-. by eapply counted_intro.
  - rewrite Hstep in Hst. by eapply Hinv.
Qed.

Lemma not_inherited (name : string) :
  bool_decide (name ∈ Js.inheritedNames) = false → name ∉ Js.inheritedNames.
Proof. intros H. by apply bool_decide_eq_false in H. Qed.

(** C8.  Take a session whose identifier is not a name that the store of
    the memory fallback, a plain object, inherits from [Object.prototype],
    and a store in which the snapshot of that session, if there is one,
    has [currentParticipants == participants.length].  For every sequence
    of join/update and leave events applied to the session, after each
    event the stored [currentParticipants] of the session equals the
    length of its stored [participants]: an event that took effect has
    stored the rewritten roster together with its length, and one that did
    not (unknown session, rejected read or write) has left the snapshot of
    the session as it was.  The statement is about the session the events
    are applied to; the snapshots of other sessions are not part of it. *)
Theorem roster_count_tracks_roster (sessionId : string) (ops : list RosterOp) (w : World) :
  sessionId ∉ Js.inheritedNames →
  sessionCounted w sessionId →
  Forall (λ s, stepSound s ∧ sessionCounted (step_after s) sessionId)
         (runOps (onSession sessionId ops) w).
Proof.
  intros _. revert w.
  induction ops as [|op ops IH]; intros w Hinv; simpl; [constructor|].
  (* the event at the head, then the rest from the world it leaves *)
  pose proof (runOp_sessionCounted sessionId op w Hinv) as Hnext.
  constructor.
  - split; [apply runOp_step|exact Hnext].
  - apply IH, Hnext.
Qed.

Lemma worldWithRoom_counted : sessionCounted worldWithRoom "room-1".
Proof.
  intros st. unfold storedSession, worldWithRoom. simpl.
  intros Hst. apply lookup_singleton_Some in Hst as [_ <-]. reflexivity.
Qed.

Lemma roster_count_tracks_roster_witness :
  storedSession worldWithRoom "room-1" = Some emptySession
  ∧ counted emptySession = true
  ∧ Forall (λ s, stepSound s ∧ sessionCounted (step_after s) "room-1")
           (runOps (onSession "room-1" sampleOps) worldWithRoom)
  ∧ (step_ok <$> runOps (onSession "room-1" sampleOps) worldWithRoom)
    = [true; true; true; true; true]
  ∧ (λ s, length (storedRoster (step_after s) "room-1"))
      <$> runOps (onSession "room-1" sampleOps) worldWithRoom
    = [1; 2; 2; 2; 1]%nat.
Proof.
  split; [reflexivity|]. split; [reflexivity|].
  split.
  - apply (roster_count_tracks_roster "room-1" sampleOps worldWithRoom).
    + apply not_inherited. vm_compute. reflexivity.
    + exact worldWithRoom_counted.
  - split; vm_compute; reflexivity.
Defined.

(** C9, as the code has it.  Let [participantData] carry no [id] other
    than [participantId].  A call of [updateParticipant] that takes effect
    stores the roster with exactly one more entry under [participantId] if
    there was none, and with as many as before otherwise; entries under
    other identifiers are as many as before.  An entry already present is
    replaced where it stands by its own fields overlaid with those of
    [participantData] (the last write wins, field by field), and the
    length of the roster is unchanged.  Repeating the call changes nothing
    more, and any number of further calls under the same identifier leaves
    the length of the roster and the number of entries under that
    identifier as they are. *)
Theorem join_is_idempotent_on_membership (sessionId participantId : string)
    (participantData : gmap string JsVal) (w : World) :
  keepsId participantId participantData →
  succeeded (updateParticipant sessionId participantId participantData w) = true →
  let w' := world_of (updateParticipant sessionId participantId participantData w) in
  let roster := storedRoster w sessionId in
  let roster' := storedRoster w' sessionId in
  roster' = upsert participantId participantData roster
  ∧ occurrences participantId roster' = Nat.max 1 (occurrences participantId roster)
  ∧ (∀ other, other ≠ participantId → occurrences other roster' = occurrences other roster)
  ∧ ((0 < occurrences participantId roster)%nat →
     length roster' = length roster
     ∧ ∃ i p, list_find (hasId participantId) roster = Some (i, p)
            ∧ roster' = <[i := participantData ∪ p]> roster
            ∧ roster' !! i = Some (participantData ∪ p)
            ∧ ∀ k, (participantData ∪ p) !! k
                   = match participantData !! k with Some v => Some v | None => p !! k end)
  ∧ upsert participantId participantData roster' = roster'
  ∧ (∀ datas, Forall (keepsId participantId) datas →
       let final := foldl (λ r d, upsert participantId d r) roster' datas in
       length final = length roster'
       ∧ occurrences participantId final = occurrences participantId roster').
Proof.
  intros Hkeeps Hok. cbv zeta. unfold world_of, storedRoster.
  pose proof (runOp_step sessionId (Join participantId participantData) w) as Hstep.
  unfold stepSound in Hstep. simpl in Hstep. rewrite Hok in Hstep.
  destruct Hstep as (before & after & Hb & Ha & Hp & _).
  rewrite Hb, Ha. simpl. rewrite Hp. simpl.
  set (roster := default [] (participants before)).
  split; [done|].
  split; [by apply upsert_occurrences|].
  split; [intros other Hother; by apply upsert_others|].
  split.
  { intros Hocc. split.
    - rewrite upsert_length. case_decide; [lia|done].
    - by apply upsert_in_place. }
  split; [by apply upsert_idempotent|].
  intros datas Hall. apply upsert_many; [done|].
  rewrite upsert_occurrences by done. lia.
Qed.

Lemma join_is_idempotent_on_membership_witness :
  keepsId "anon-7" plainData
  ∧ succeeded (updateParticipant "room-1" "anon-7" plainData worldWithRoom) = true
  ∧ storedRoster (world_of (updateParticipant "room-1" "anon-7" plainData worldWithRoom)) "room-1"
    = upsert "anon-7" plainData (storedRoster worldWithRoom "room-1")
  ∧ occurrences "anon-7"
      (storedRoster (world_of (updateParticipant "room-1" "anon-7" plainData worldWithRoom))
         "room-1") = 1%nat
  ∧ upsert "anon-7" plainData
      (storedRoster (world_of (updateParticipant "room-1" "anon-7" plainData worldWithRoom))
         "room-1")
    = storedRoster (world_of (updateParticipant "room-1" "anon-7" plainData worldWithRoom))
        "room-1".
Proof.
  assert (keepsId "anon-7" plainData) as Hkeeps by (left; reflexivity).
  assert (succeeded (updateParticipant "room-1" "anon-7" plainData worldWithRoom) = true)
    as Hok by (vm_compute; reflexivity).
  split; [exact Hkeeps|]. split; [exact Hok|].
  destruct (join_is_idempotent_on_membership "room-1" "anon-7" plainData worldWithRoom
              Hkeeps Hok) as (Hroster & Hocc & _ & _ & Hidem & _).
  split; [exact Hroster|]. split; [|exact Hidem].
  rewrite Hocc. vm_compute. reflexivity.
Defined.

(** C9 as stated fails: [participantData] may carry an [id] of its own,
    which the spread lets win over [participantId].  Two joins under the
    identifier [anon-7] with such data both take effect and leave two
    identical entries, neither of them under [anon-7]: the second call
    created a duplicate and lengthened the roster. *)
Lemma repeated_join_duplicates_a_renamed_entry :
  succeeded (updateParticipant "room-1" "anon-7" renaming worldWithRoom) = true
  ∧ succeeded (updateParticipant "room-1" "anon-7" renaming
                 (world_of (updateParticipant "room-1" "anon-7" renaming worldWithRoom))) = true
  ∧ storedRoster (world_of (updateParticipant "room-1" "anon-7" renaming worldWithRoom)) "room-1"
    = [renaming]
  ∧ storedRoster afterTwoRenamingJoins "room-1" = [renaming; renaming]
  ∧ occurrences "guest" (storedRoster afterTwoRenamingJoins "room-1") = 2%nat
  ∧ occurrences "anon-7" (storedRoster afterTwoRenamingJoins "room-1") = 0%nat
  ∧ (currentParticipants <$> storedSession afterTwoRenamingJoins "room-1") = Some (Some 2%Z).
Proof. vm_compute. repeat split. Qed.

(* ===================================================================== *)
(** * The rule stage, in full *)
(* ===================================================================== *)

Lemma keywords_tuple content category rule ks : ∀ res,
  tupleOf (foldl (keywordStep (Js.toLowerCase content) category rule) res ks)
  = if bool_decide (getSeverityLevel (severity rule) > getSeverityLevel (r_severity res))%Z
       && existsb (keywordHit content) ks
    then (severity rule, action rule, 0.8%Q, bool_decide (severity rule = "critical"))
    else tupleOf res.
Proof.
  induction ks as [|k ks IH]; intros res; simpl.
  - by rewrite andb_false_r.
  - rewrite IH. unfold keywordStep. fold (keywordHit content k).
    destruct (keywordHit content k); simpl; [|done].
    destruct (decide (getSeverityLevel (severity rule)
                      > getSeverityLevel (r_severity res))%Z) as [Hgt|Hgt].
    + rewrite !(bool_decide_eq_true_2 _ Hgt). simpl.
      rewrite (bool_decide_eq_false_2 (_ > _)%Z) by lia. done.
    + rewrite !(bool_decide_eq_false_2 _ Hgt). done.
Qed.

Lemma patterns_tuple content category rule ps : ∀ res,
  tupleOf (foldl (patternStep content category rule) res ps)
  = if bool_decide (getSeverityLevel (severity rule) > getSeverityLevel (r_severity res))%Z
       && existsb (λ p, Regex.test p content) ps
    then (severity rule, action rule, 0.7%Q, r_definitive res)
    else tupleOf res.
Proof.
  induction ps as [|p ps IH]; intros res; simpl.
  - by rewrite andb_false_r.
  - rewrite IH. unfold patternStep.
    destruct (Regex.test p content); simpl; [|done].
    destruct (decide (getSeverityLevel (severity rule)
                      > getSeverityLevel (r_severity res))%Z) as [Hgt|Hgt].
    + rewrite !(bool_decide_eq_true_2 _ Hgt). simpl.
      rewrite (bool_decide_eq_false_2 (_ > _)%Z) by lia. done.
    + rewrite !(bool_decide_eq_false_2 _ Hgt). done.
Qed.

Lemma tupleOf_severity res t : tupleOf res = t → r_severity res = t.1.1.1.
Proof. by intros <-. Qed.

(** One rule of the table: it takes over when it matches and lies
    strictly above the running severity; a keyword match gives
    confidence 0.8 and decides the definitive mark, a match by patterns
    alone gives 0.7 and leaves the mark. *)
Lemma ruleStep_tuple content res category rule :
  tupleOf (ruleStep content res (category, rule))
  = if bool_decide (getSeverityLevel (severity rule) > getSeverityLevel (r_severity res))%Z
    then
      if existsb (keywordHit content) (default [] (keywords rule))
      then (severity rule, action rule, 0.8%Q, bool_decide (severity rule = "critical"))
      else if existsb (λ p, Regex.test p content) (default [] (patterns rule))
           then (severity rule, action rule, 0.7%Q, r_definitive res)
           else tupleOf res
    else tupleOf res.
Proof.
  unfold ruleStep.
  set (res1 := match keywords rule with
               | Some ks => foldl (keywordStep (Js.toLowerCase content) category rule) res ks
               | None => res
               end).
  assert (tupleOf res1
          = if bool_decide (getSeverityLevel (severity rule)
                            > getSeverityLevel (r_severity res))%Z
               && existsb (keywordHit content) (default [] (keywords rule))
            then (severity rule, action rule, 0.8%Q, bool_decide (severity rule = "critical"))
            else tupleOf res) as H1.
  { subst res1. destruct (keywords rule) as [ks|]; simpl.
    - apply keywords_tuple.
    - by rewrite andb_false_r. }
  assert (tupleOf match patterns rule with
                  | Some ps => foldl (patternStep content category rule) res1 ps
                  | None => res1
                  end
          = if bool_decide (getSeverityLevel (severity rule)
                            > getSeverityLevel (r_severity res1))%Z
               && existsb (λ p, Regex.test p content) (default [] (patterns rule))
            then (severity rule, action rule, 0.7%Q, r_definitive res1)
            else tupleOf res1) as H2.
  { destruct (patterns rule) as [ps|]; simpl.
    - apply patterns_tuple.
    - by rewrite andb_false_r. }
  rewrite H2. clear H2.
  destruct (bool_decide (getSeverityLevel (severity rule)
                         > getSeverityLevel (r_severity res))%Z) eqn:Hgt; simpl in H1.
  - destruct (existsb (keywordHit content) (default [] (keywords rule))).
    + rewrite (tupleOf_severity _ _ H1). simpl.
      rewrite (bool_decide_eq_false_2 (_ > _)%Z) by lia. done.
    + assert (r_severity res1 = r_severity res) as Hs by (by rewrite (tupleOf_severity _ _ H1)).
      assert (r_definitive res1 = r_definitive res) as Hd.
      { apply (f_equal snd) in H1. exact H1. }
      rewrite Hs, Hgt, Hd. simpl.
      destruct (existsb _ (default [] (patterns rule))); done.
  - assert (r_severity res1 = r_severity res) as Hs by (by rewrite (tupleOf_severity _ _ H1)).
    rewrite Hs, Hgt. done.
Qed.

Lemma moderationRules_by_category :
  (list_to_map moderationRules : gmap string Rule) !! "crisis_detection"
    = snd <$> moderationRules !! 0%nat
  ∧ (list_to_map moderationRules : gmap string Rule) !! "harassment"
    = snd <$> moderationRules !! 1%nat
  ∧ (list_to_map moderationRules : gmap string Rule) !! "spam"
    = snd <$> moderationRules !! 2%nat
  ∧ (list_to_map moderationRules : gmap string Rule) !! "inappropriate_content"
    = snd <$> moderationRules !! 3%nat.
Proof. repeat split; vm_compute; reflexivity. Qed.

Lemma ruleStep_next content res category rule :
  tupleOf (ruleStep content res (category, rule)) = nextTuple content rule (tupleOf res).
Proof. apply ruleStep_tuple. Qed.

Lemma categoryMatched_keywords content category rule ks :
  (list_to_map moderationRules : gmap string Rule) !! category = Some rule →
  keywords rule = Some ks → patterns rule = None →
  categoryMatched content category = existsb (keywordHit content) ks.
Proof.
  intros Hrule Hk Hp. unfold categoryMatched, ruleMatched. rewrite Hrule, Hk, Hp.
  apply orb_false_r.
Qed.

Lemma categoryMatched_patterns content category rule ps :
  (list_to_map moderationRules : gmap string Rule) !! category = Some rule →
  keywords rule = None → patterns rule = Some ps →
  categoryMatched content category = existsb (λ p, Regex.test p content) ps.
Proof.
  intros Hrule Hk Hp. unfold categoryMatched, ruleMatched. by rewrite Hrule, Hk, Hp.
Qed.

Lemma action_of_tuple res : r_action res = (tupleOf res).1.1.2.
Proof. reflexivity. Qed.

Lemma severity_of_tuple res : r_severity res = (tupleOf res).1.1.1.
Proof. reflexivity. Qed.

(** Unfolds the rule stage over the table into its four steps and names
    the four match tests; the goal is then settled in each of the sixteen
    cases. *)
Ltac name_rule_tests content :=
  destruct moderationRules_by_category as (?L0 & ?L1 & ?L2 & ?L3);
  try (erewrite (categoryMatched_keywords content "crisis_detection");
         [|rewrite L0; reflexivity|reflexivity|reflexivity]);
  try (erewrite (categoryMatched_keywords content "harassment");
         [|rewrite L1; reflexivity|reflexivity|reflexivity]);
  try (erewrite (categoryMatched_patterns content "spam");
         [|rewrite L2; reflexivity|reflexivity|reflexivity]);
  try (erewrite (categoryMatched_keywords content "inappropriate_content");
         [|rewrite L3; reflexivity|reflexivity|reflexivity]);
  unfold applyRuleBasedModeration, applyRules, moderationRules; cbn [foldl];
  rewrite !ruleStep_next; unfold nextTuple;
  cbn [keywords patterns severity action default from_option id];
  repeat match goal with
         | |- context [existsb ?f []] => change (existsb f []) with false
         end;
  repeat match goal with
         | |- context [existsb ?f (?x :: ?l)] => generalize (existsb f (x :: l)); intro
         end.

Ltac by_rule_table content :=
  name_rule_tests content;
  repeat match goal with b : bool |- _ => destruct b end; vm_compute; reflexivity.

(** X1. The rule stage is a priority table over the four categories:
    crisis_detection, then harassment, then spam, then
    inappropriate_content.  The first category of that order that matches
    fixes severity, action, confidence and the definitive mark, whatever
    else matches. *)
Theorem rule_stage_is_a_priority_table (content : string) :
  tupleOf (applyRuleBasedModeration content) =
    if categoryMatched content "crisis_detection"
    then ("critical", "immediate_intervention", 0.8%Q, true)
    else if categoryMatched content "harassment"
    then ("high", "warn_and_monitor", 0.8%Q, false)
    else if categoryMatched content "spam"
    then ("medium", "auto_filter", 0.7%Q, false)
    else if categoryMatched content "inappropriate_content"
    then ("medium", "content_filter", 0.8%Q, false)
    else ("none", "none", 0%Q, false).
Proof.
  name_rule_tests content.
  (* crisis, harassment, spam, inappropriate_content: matched or not *)
  repeat match goal with b : bool |- _ => destruct b end.
  all: vm_compute; reflexivity.
Qed.

Lemma rule_stage_action content :
  r_action (applyRuleBasedModeration content) =
    if categoryMatched content "crisis_detection" then "immediate_intervention"
    else if categoryMatched content "harassment" then "warn_and_monitor"
    else if categoryMatched content "spam" then "auto_filter"
    else if categoryMatched content "inappropriate_content" then "content_filter"
    else "none".
Proof. rewrite action_of_tuple. by_rule_table content. Qed.

Lemma confidence_of_tuple res : r_confidence res = (tupleOf res).1.2.
Proof. reflexivity. Qed.

Lemma rule_stage_confidence content :
  r_confidence (applyRuleBasedModeration content) =
    if categoryMatched content "crisis_detection" then 0.8%Q
    else if categoryMatched content "harassment" then 0.8%Q
    else if categoryMatched content "spam" then 0.7%Q
    else if categoryMatched content "inappropriate_content" then 0.8%Q
    else 0%Q.
Proof. rewrite confidence_of_tuple. by_rule_table content. Qed.

Lemma rule_stage_severity content :
  r_severity (applyRuleBasedModeration content) =
    if categoryMatched content "crisis_detection" then "critical"
    else if categoryMatched content "harassment" then "high"
    else if categoryMatched content "spam" then "medium"
    else if categoryMatched content "inappropriate_content" then "medium"
    else "none".
Proof. rewrite severity_of_tuple. by_rule_table content. Qed.

Lemma keywords_flags content category rule ks : ∀ res,
  r_flags (foldl (keywordStep (Js.toLowerCase content) category rule) res ks)
  = (r_flags res
     ++ map (λ keyword, KeywordFlag category keyword
                          (Js.indexOf (Js.toLowerCase content) (Js.toLowerCase keyword)))
            (filter (λ keyword, keywordHit content keyword = true) ks))%list.
Proof.
  induction ks as [|k ks IH]; intros res; simpl.
  - by rewrite app_nil_r.
  - rewrite IH, filter_cons. unfold keywordStep. fold (keywordHit content k).
    destruct (decide (keywordHit content k = true)) as [Hk|Hk].
    + rewrite Hk. simpl. destruct (decide _); simpl; by rewrite <- app_assoc.
    + apply not_true_is_false in Hk. by rewrite Hk.
Qed.

Lemma patterns_flags content category rule ps : ∀ res,
  r_flags (foldl (patternStep content category rule) res ps)
  = (r_flags res
     ++ map (λ pattern, PatternFlag category (Regex.toString pattern)
                          (Regex.match0 pattern content))
            (filter (λ pattern, Regex.test pattern content = true) ps))%list.
Proof.
  induction ps as [|p ps IH]; intros res; simpl.
  - by rewrite app_nil_r.
  - rewrite IH, filter_cons. unfold patternStep.
    destruct (decide (Regex.test p content = true)) as [Hp|Hp].
    + rewrite Hp. simpl. destruct (decide _); simpl; by rewrite <- app_assoc.
    + apply not_true_is_false in Hp. by rewrite Hp.
Qed.

Lemma ruleStep_flags content res entry :
  r_flags (ruleStep content res entry) = (r_flags res ++ flagsOf content entry)%list.
Proof.
  destruct entry as [category rule]. unfold ruleStep, flagsOf. simpl.
  destruct (keywords rule) as [ks|], (patterns rule) as [ps|]; simpl;
    rewrite ?patterns_flags, ?keywords_flags, ?app_nil_r, <- ?app_assoc; done.
Qed.

Lemma applyRules_flags content rules : ∀ res,
  r_flags (foldl (ruleStep content) res rules)
  = (r_flags res ++ concat (map (flagsOf content) rules))%list.
Proof.
  induction rules as [|entry rules IH]; intros res; simpl.
  - by rewrite app_nil_r.
  - by rewrite IH, ruleStep_flags, <- app_assoc.
Qed.

Lemma existsb_filter_nil {A} (f : A → bool) (l : list A) :
  filter (λ x, f x = true) l = [] ↔ existsb f l = false.
Proof.
  induction l as [|x l IH]; simpl; [done|].
  rewrite filter_cons. destruct (decide (f x = true)) as [Hx|Hx].
  - rewrite Hx. split; intros; done.
  - apply not_true_is_false in Hx. rewrite Hx. exact IH.
Qed.

Lemma flagsOf_nil content entry :
  flagsOf content entry = [] ↔ ruleMatched content entry.2 = false.
Proof.
  unfold flagsOf, ruleMatched. rewrite orb_false_iff, <- !existsb_filter_nil. split.
  - intros H. apply app_eq_nil in H as [H1 H2].
    apply map_eq_nil in H1. apply map_eq_nil in H2. done.
  - intros [-> ->]. done.
Qed.

Lemma concat_flags_nil content rules :
  concat (map (flagsOf content) rules) = [] ↔ matchedRules content rules = [].
Proof.
  unfold matchedRules. induction rules as [|entry rules IH]; simpl; [done|].
  rewrite app_nil, filter_cons, flagsOf_nil, IH.
  destruct (decide (ruleMatched content entry.2 = true)) as [Hm|Hm].
  - rewrite Hm. split; [intros [? _]; done|done].
  - apply not_true_is_false in Hm. rewrite Hm. split; [by intros [_ ?]|done].
Qed.

Lemma maxLevel_of_matched content :
  maxLevel (matchedRules content moderationRules) = 0%Z
  ↔ matchedRules content moderationRules = [].
Proof.
  split; [|by intros ->].
  intros Hmax.
  destruct (matchedRules content moderationRules) as [|entry rest] eqn:Hm; [done|].
  assert (entry ∈ moderationRules) as Hin.
  { assert (entry ∈ matchedRules content moderationRules) as He by (rewrite Hm; by left).
    unfold matchedRules in He. by apply list_elem_of_filter in He as [_ ?]. }
  assert (2 ≤ getSeverityLevel (severity entry.2))%Z as Hlevel.
  { unfold moderationRules in Hin.
    repeat (apply elem_of_cons in Hin as [->|Hin]; [vm_compute; by intros ?|]).
    by apply elem_of_nil in Hin. }
  simpl in Hmax. pose proof (maxLevel_nonneg rest). lia.
Qed.

(** X2. The flags of the rule stage are, category by category in the order
    of the table, one flag per keyword that occurs in the lower-cased
    content and then one per pattern that matches, however often each
    occurs; nothing else is flagged and no flag is dropped.  The result
    has no flag exactly when no rule matched, and that is exactly when its
    severity is ['none']. *)
Theorem rule_stage_flags_every_match (content : string) :
  r_flags (applyRuleBasedModeration content)
  = concat (map (flagsOf content) moderationRules)
  ∧ (r_flags (applyRuleBasedModeration content) = []
     ↔ matchedRules content moderationRules = [])
  ∧ (r_severity (applyRuleBasedModeration content) = "none"
     ↔ matchedRules content moderationRules = []).
Proof.
  assert (r_flags (applyRuleBasedModeration content)
          = concat (map (flagsOf content) moderationRules)) as Hflags.
  { unfold applyRuleBasedModeration, applyRules. by rewrite applyRules_flags. }
  split; [exact Hflags|]. split.
  - rewrite Hflags. apply concat_flags_nil.
  - rewrite <- maxLevel_of_matched.
    assert (getSeverityLevel (r_severity (applyRuleBasedModeration content))
            = maxLevel (matchedRules content moderationRules)) as <-.
    { unfold applyRuleBasedModeration, applyRules. rewrite applyRules_level.
      change (getSeverityLevel (r_severity initialRuleResult)) with 0%Z.
      pose proof (maxLevel_nonneg (matchedRules content moderationRules)). lia. }
    split; [by intros ->|].
    intros H0. by destruct (applyRuleBasedModeration_untouched content H0).
Qed.

(* ===================================================================== *)
(** * A crisis keyword anywhere in the message *)
(* ===================================================================== *)

Lemma append_nil_l (x : string) : "" ++ x = x.
Proof. reflexivity. Qed.

Lemma append_cons c (a x : string) : String c a ++ x = String c (a ++ x).
Proof. reflexivity. Qed.

Lemma toLowerCase_app a b :
  Js.toLowerCase (a ++ b) = Js.toLowerCase a ++ Js.toLowerCase b.
Proof.
  induction a as [|c a IH]; [done|].
  rewrite append_cons. simpl. by rewrite IH.
Qed.

Lemma startsWith_app needle rest : Js.startsWith needle (needle ++ rest) = true.
Proof.
  induction needle as [|c n IH]; [done|].
  rewrite append_cons. simpl. by rewrite decide_True.
Qed.

Lemma indexOf_from_unfold i needle hay :
  Js.indexOf_from i needle hay
  = if Js.startsWith needle hay then Some i
    else match hay with
         | EmptyString => None
         | String _ t => Js.indexOf_from (i + 1) needle t
         end.
Proof. by destruct hay. Qed.

Lemma indexOf_from_app i before needle rest :
  is_Some (Js.indexOf_from i needle (before ++ needle ++ rest)).
Proof.
  revert i. induction before as [|c a IH]; intros i.
  - rewrite append_nil_l, indexOf_from_unfold, startsWith_app. by eexists.
  - rewrite append_cons, indexOf_from_unfold.
    destruct (Js.startsWith needle _); [by eexists|apply IH].
Qed.

Lemma includes_app before needle rest :
  Js.includes (before ++ needle ++ rest) needle = true.
Proof. unfold Js.includes. apply bool_decide_eq_true_2, indexOf_from_app. Qed.

Lemma crisisKeywords_lower keyword :
  keyword ∈ crisisKeywords → Js.toLowerCase keyword = keyword.
Proof.
  unfold crisisKeywords. intros Hin.
  repeat (apply elem_of_cons in Hin as [->|Hin]; [vm_compute; reflexivity|]).
  by apply elem_of_nil in Hin.
Qed.

Lemma critical_sticks content rules : ∀ res,
  r_severity res = "critical" →
  tupleOf (foldl (ruleStep content) res rules) = tupleOf res.
Proof.
  induction rules as [|[category rule] rules IH]; intros res Hres; cbn [foldl]; [done|].
  assert (tupleOf (ruleStep content res (category, rule)) = tupleOf res) as Hstep.
  { rewrite ruleStep_tuple, Hres. rewrite bool_decide_eq_false_2; [done|].
    pose proof (level_range (severity rule)).
    change (getSeverityLevel "critical") with 4%Z. lia. }
  rewrite IH; [exact Hstep|]. rewrite (tupleOf_severity _ _ Hstep). exact Hres.
Qed.

Lemma foldl_step {A B} (f : A → B → A) (a : A) (x : B) (l : list B) :
  foldl f a (x :: l) = foldl f (f a x) l.
Proof. reflexivity. Qed.

Lemma crisis_hit_is_critical content :
  existsb (keywordHit content) crisisKeywords = true →
  tupleOf (applyRuleBasedModeration content)
  = ("critical", "immediate_intervention", 0.8%Q, true).
Proof.
  intros Hhit. unfold applyRuleBasedModeration, applyRules, moderationRules.
  rewrite foldl_step.
  match goal with |- tupleOf (foldl _ ?r1 ?rest) = _ =>
    assert (tupleOf r1 = ("critical", "immediate_intervention", 0.8%Q, true)) as H1
  end.
  { rewrite ruleStep_tuple. cbn [keywords patterns severity action default from_option id].
    fold crisisKeywords. rewrite Hhit. reflexivity. }
  rewrite critical_sticks; [done|]. by rewrite (tupleOf_severity _ _ H1).
Qed.

Lemma tupleOf_fields res s a c d :
  tupleOf res = (s, a, c, d) →
  r_severity res = s ∧ r_action res = a ∧ r_confidence res = c ∧ r_definitive res = d.
Proof. unfold tupleOf. intros [= -> -> -> ->]. done. Qed.

Lemma crisis_hit_verdict content keyword ctx w :
  keyword ∈ crisisKeywords →
  keywordHit content keyword = true →
  tupleOf (applyRuleBasedModeration content)
  = ("critical", "immediate_intervention", 0.8%Q, true)
  ∧ (∃ position,
       KeywordFlag "crisis_detection" keyword position
       ∈ r_flags (applyRuleBasedModeration content))
  ∧ ∃ v, (analyzeContent content ctx w).1 = Ok v
       ∧ a_severity v = "critical"
       ∧ a_action v = "immediate_intervention"
       ∧ a_confidence v = 0.8%Q
       ∧ a_flags v = r_flags (applyRuleBasedModeration content)
       ∧ a_error v = None
       ∧ aiInvoked w (world_of (analyzeContent content ctx w)) = false.
Proof.
  intros Hin Hhit.
  assert (existsb (keywordHit content) crisisKeywords = true) as Hany.
  { by eapply existsb_intro. }
  pose proof (crisis_hit_is_critical content Hany) as Htuple.
  split; [exact Htuple|]. split.
  { eexists. unfold applyRuleBasedModeration, applyRules. rewrite applyRules_flags.
    apply elem_of_app. right. unfold moderationRules. cbn [map concat].
    apply elem_of_app. left. unfold flagsOf.
    cbn [fst snd keywords patterns default from_option id]. fold crisisKeywords.
    apply elem_of_app. left. apply list_elem_of_In.
    apply (in_map (λ k, KeywordFlag "crisis_detection" k
                          (Js.indexOf (Js.toLowerCase content) (Js.toLowerCase k)))).
    apply list_elem_of_In, list_elem_of_filter. done. }
  apply tupleOf_fields in Htuple as (Ts & Ta & Tc & Td).
  assert (aiStageDue content (applyRuleBasedModeration content) = false) as Hskip.
  { unfold aiStageDue. rewrite Td. apply andb_false_r. }
  pose proof (ruleVerdict_fields content ctx w) as (Hs & Ha & Hc & Hf).
  exists (ruleVerdict content ctx w).
  split; [by rewrite analyzeContent_skipped|].
  split; [by rewrite Hs|]. split; [by rewrite Ha|]. split; [by rewrite Hc|].
  split; [exact Hf|]. split; [reflexivity|].
  unfold world_of. by rewrite aiInvoked_iff.
Qed.

(** X3. A crisis keyword anywhere in a message, in any letter case, makes
    the message critical: the rule stage answers critical /
    immediate_intervention / 0.8 / definitive and flags the keyword, and
    [analyzeContent] returns that verdict without an [error] field and
    without ever calling the classifier, whatever the classifier would
    have said and whatever the store does. *)
Theorem crisis_keyword_anywhere (before hit after keyword : string)
    (ctx : Context) (w : World) :
  keyword ∈ crisisKeywords →
  Js.toLowerCase hit = keyword →
  let content := before ++ hit ++ after in
  tupleOf (applyRuleBasedModeration content)
  = ("critical", "immediate_intervention", 0.8%Q, true)
  ∧ (∃ position,
       KeywordFlag "crisis_detection" keyword position
       ∈ r_flags (applyRuleBasedModeration content))
  ∧ ∃ v, (analyzeContent content ctx w).1 = Ok v
       ∧ a_severity v = "critical"
       ∧ a_action v = "immediate_intervention"
       ∧ a_confidence v = 0.8%Q
       ∧ a_flags v = r_flags (applyRuleBasedModeration content)
       ∧ a_error v = None
       ∧ aiInvoked w (world_of (analyzeContent content ctx w)) = false.
Proof.
  intros Hin Hlower content.
  apply crisis_hit_verdict; [exact Hin|].
  unfold keywordHit, content. rewrite !toLowerCase_app, Hlower.
  rewrite (crisisKeywords_lower keyword Hin). apply includes_app.
Qed.

Lemma crisis_keyword_anywhere_witness :
  "want to die" ∈ crisisKeywords
  ∧ Js.toLowerCase "WANT TO DIE" = "want to die"
  ∧ tupleOf (applyRuleBasedModeration ("some days I just " ++ "WANT TO DIE" ++ ", honestly"))
    = ("critical", "immediate_intervention", 0.8%Q, true)
  ∧ ∃ v, (analyzeContent ("some days I just " ++ "WANT TO DIE" ++ ", honestly")
            someContext (redisWorld (AIObject mildReply) firstCommandFails)).1 = Ok v
       ∧ a_severity v = "critical".
Proof.
  assert ("want to die" ∈ crisisKeywords) as Hin.
  { unfold crisisKeywords. do 8 right. left. }
  split; [exact Hin|]. split; [reflexivity|].
  destruct (crisis_keyword_anywhere "some days I just " "WANT TO DIE" ", honestly"
              "want to die" someContext (redisWorld (AIObject mildReply) firstCommandFails)
              Hin eq_refl) as (Ht & _ & v & Hv & Hs & _).
  split; [exact Ht|]. exists v. done.
Defined.

(* ===================================================================== *)
(** * The dispatch of a verdict *)
(* ===================================================================== *)

Lemma executeModerationAction_no_protocol a sid pid w :
  emergencyProtocols (a_action a) = None →
  executeModerationAction a sid pid w = (Ok ReturnsUndefined, w).
Proof.
  intros Hnone. unfold executeModerationAction, try_catch. by rewrite Hnone.
Qed.

Lemma executeModerationAction_warning a sid pid w :
  a_action a = "warn_and_monitor" →
  executeModerationAction a sid pid w =
    (Ok (ReturnsResults
           {| ar_action := "warn_and_monitor"; ar_executed := ["warning_sent"];
              ar_timestamp := ISO (clock w (clockReads w)) |}),
     with_emitted
       (emitted w ++
        [ {| room := "sanctuary_" ++ sid; event := "moderation_warning";
             payload := ModerationWarning pid "content_warning"
                          "Please keep the conversation supportive and appropriate for all participants."
                          (ISO (clock w (S (clockReads w)))) |} ])
       (with_clockReads (S (S (clockReads w))) w)).
Proof.
  intros Hact. unfold executeModerationAction, try_catch. rewrite Hact. reflexivity.
Qed.

Lemma executeModerationAction_filter a sid pid w :
  a_action a = "auto_filter" →
  executeModerationAction a sid pid w =
    (Ok (ReturnsResults
           {| ar_action := "auto_filter"; ar_executed := ["message_blocked"];
              ar_timestamp := ISO (clock w (clockReads w)) |}),
     with_emitted
       (emitted w ++
        [ {| room := "sanctuary_" ++ sid; event := "message_filtered";
             payload := MessageFiltered pid "Content filtered by automated moderation"
                          (ISO (clock w (S (clockReads w)))) |} ])
       (with_clockReads (S (S (clockReads w))) w)).
Proof.
  intros Hact. unfold executeModerationAction, try_catch. rewrite Hact. reflexivity.
Qed.

Lemma emergencyProtocols_names action :
  action ≠ "immediate_intervention" → action ≠ "warn_and_monitor" →
  action ≠ "auto_filter" → action ∉ Js.inheritedNames → emergencyProtocols action = None.
Proof.
  intros H1 H2 H3 H4. unfold emergencyProtocols. by rewrite !decide_False.
Qed.

Lemma emergencyProtocols_inherited action :
  action ∈ Js.inheritedNames → emergencyProtocols action = Some noProtocolFields.
Proof.
  intros Hin. unfold emergencyProtocols.
  assert (action ≠ "immediate_intervention" ∧ action ≠ "warn_and_monitor"
          ∧ action ≠ "auto_filter") as (H1 & H2 & H3).
  { unfold Js.inheritedNames in Hin.
    repeat (apply elem_of_cons in Hin as [->|Hin]; [done|]). by apply elem_of_nil in Hin. }
  rewrite !decide_False by done. by rewrite decide_True.
Qed.

(** The action is an inherited name: the lookup is truthy, no branch
    applies, and an empty report is returned. *)
Lemma executeModerationAction_inherited a sid pid w :
  a_action a ∈ Js.inheritedNames →
  executeModerationAction a sid pid w =
    (Ok (ReturnsResults
           {| ar_action := a_action a; ar_executed := [];
              ar_timestamp := ISO (clock w (clockReads w)) |}),
     with_clockReads (S (clockReads w)) w).
Proof.
  intros Hin. unfold executeModerationAction, try_catch.
  rewrite (emergencyProtocols_inherited _ Hin), bind_isoNow.
  assert (a_action a ≠ "immediate_intervention" ∧ a_action a ≠ "warn_and_monitor"
          ∧ a_action a ≠ "auto_filter") as (H1 & H2 & H3).
  { unfold Js.inheritedNames in Hin.
    repeat (apply elem_of_cons in Hin as [->|Hin]; [done|]). by apply elem_of_nil in Hin. }
  rewrite decide_False by done.
  rewrite !(bool_decide_eq_false_2 (a_action a = _)) by done. reflexivity.
Qed.

Lemma storeEmergencyAlert_frame sid alert :
  preserves emitted (storeEmergencyAlert sid alert).
Proof. frame. Qed.

(** X4. What the dispatch of a verdict leaves alone.  Unless the action
    is ['immediate_intervention'], [executeModerationAction] emits
    nothing outside the room of the session, issues no Redis command and
    stores no alert.  An action that names no protocol leaves the world
    untouched and returns nothing; an action that is a name inherited
    from [Object.prototype] passes the protocol test and yields a report
    in which nothing was executed.  Whenever a report is returned for
    ['warn_and_monitor'] or ['auto_filter'], exactly one event went out,
    [moderation_warning] respectively [message_filtered], and the report
    names the one step taken. *)
Theorem dispatch_reaches_moderators_only_on_intervention (analysis : Analysis)
    (sessionId participantId : string) (w : World) :
  let r := executeModerationAction analysis sessionId participantId w in
  (a_action analysis ≠ "immediate_intervention" →
     Forall (λ e, room e = "sanctuary_" ++ sessionId) (newEmissions w (world_of r))
     ∧ redis (world_of r) = redis w
     ∧ redisLog (world_of r) = redisLog w
     ∧ emergencyAlerts (world_of r) = emergencyAlerts w)
  ∧ (emergencyProtocols (a_action analysis) = None → r = (Ok ReturnsUndefined, w))
  ∧ (a_action analysis ∈ Js.inheritedNames →
     ∃ report, r.1 = Ok (ReturnsResults report)
             ∧ ar_action report = a_action analysis
             ∧ ar_executed report = []
             ∧ newEmissions w (world_of r) = [])
  ∧ (a_action analysis = "warn_and_monitor" →
     ∀ report, r.1 = Ok (ReturnsResults report) →
       ar_executed report = ["warning_sent"]
       ∧ (event <$> newEmissions w (world_of r)) = ["moderation_warning"])
  ∧ (a_action analysis = "auto_filter" →
     ∀ report, r.1 = Ok (ReturnsResults report) →
       ar_executed report = ["message_blocked"]
       ∧ (event <$> newEmissions w (world_of r)) = ["message_filtered"]).
Proof.
  cbv zeta. unfold world_of, newEmissions.
  destruct (decide (a_action analysis = "immediate_intervention")) as [Hi|Hi].
  { split; [done|]. split; [by rewrite Hi|].
    split; [rewrite Hi; intros Hin; exfalso; unfold Js.inheritedNames in Hin;
            repeat (apply elem_of_cons in Hin as [Hin|Hin]; [discriminate Hin|]);
            by apply elem_of_nil in Hin|].
    split; intros Hact; by rewrite Hact in Hi. }
  destruct (decide (a_action analysis = "warn_and_monitor")) as [Hw|Hw].
  { rewrite (executeModerationAction_warning analysis sessionId participantId w Hw).
    cbn [fst snd emitted with_emitted]. rewrite drop_app_length.
    split; [intros _; by repeat constructor|]. split; [by rewrite Hw|].
    split; [rewrite Hw; intros Hin; exfalso; unfold Js.inheritedNames in Hin;
            repeat (apply elem_of_cons in Hin as [Hin|Hin]; [discriminate Hin|]);
            by apply elem_of_nil in Hin|].
    split; [intros _ report [= <-]; done|]. intros Hact. by rewrite Hact in Hw. }
  destruct (decide (a_action analysis = "auto_filter")) as [Hf|Hf].
  { rewrite (executeModerationAction_filter analysis sessionId participantId w Hf).
    cbn [fst snd emitted with_emitted]. rewrite drop_app_length.
    split; [intros _; by repeat constructor|]. split; [by rewrite Hf|].
    split; [rewrite Hf; intros Hin; exfalso; unfold Js.inheritedNames in Hin;
            repeat (apply elem_of_cons in Hin as [Hin|Hin]; [discriminate Hin|]);
            by apply elem_of_nil in Hin|].
    split; [intros Hact; by rewrite Hact in Hf|]. intros _ report [= <-]. done. }
  destruct (decide (a_action analysis ∈ Js.inheritedNames)) as [Hin|Hin].
  { rewrite (executeModerationAction_inherited analysis sessionId participantId w Hin).
    cbn [fst snd emitted with_clockReads]. rewrite drop_all.
    split; [intros _; by repeat constructor|].
    split; [by rewrite (emergencyProtocols_inherited _ Hin)|].
    split; [intros _; by eexists|]. done. }
  rewrite (executeModerationAction_no_protocol analysis sessionId participantId w)
    by (by apply emergencyProtocols_names).
  cbn [fst snd]. rewrite drop_all.
  split; [intros _; by repeat constructor|]. done.
Qed.

(* ===================================================================== *)
(** * Which verdicts are acted upon *)
(* ===================================================================== *)

Lemma promptActions_no_protocol action :
  action ∈ promptActions → emergencyProtocols action = None.
Proof.
  unfold promptActions. rewrite !elem_of_cons, elem_of_nil.
  intros [->|[->|[->|[->|[->|[]]]]]]; reflexivity.
Qed.

(** X5. A verdict the classifier decides is never acted upon.  When the
    AI stage runs, the classifier rates the message above the rule stage
    and answers with one of the actions its prompt offers, [analyzeContent]
    returns the classifier's severity and action, and
    [executeModerationAction] on that verdict finds no protocol: it
    returns nothing and changes nothing, whatever the severity. *)
Theorem classifier_verdict_is_never_acted_upon (content : string) (ctx : Context)
    (w : World) (l : list Flag) :
  aiStageDue content (applyRuleBasedModeration content) = true →
  ai_flags (aiResultFor (classifier w content)) = Arr l →
  (getSeverityLevel (ai_severity (aiResultFor (classifier w content)))
   > getSeverityLevel (r_severity (applyRuleBasedModeration content)))%Z →
  ai_action (aiResultFor (classifier w content)) ∈ promptActions →
  ∃ v, (analyzeContent content ctx w).1 = Ok v
     ∧ a_severity v = ai_severity (aiResultFor (classifier w content))
     ∧ a_action v = ai_action (aiResultFor (classifier w content))
     ∧ ∀ sessionId participantId w',
         executeModerationAction v sessionId participantId w' = (Ok ReturnsUndefined, w').
Proof.
  intros Hdue Hflags Hgt Hact.
  pose proof (ruleVerdict_fields content ctx w) as (Hs & _).
  pose proof (combine_fields (ruleVerdict content ctx w) (aiResultFor (classifier w content)))
    as (Cs & Ca & _).
  cbv zeta in Hs, Cs, Ca. rewrite Hs in Cs, Ca.
  rewrite (bool_decide_eq_true_2 _ Hgt) in Cs, Ca.
  pose proof (analyzeContent_ran content ctx w Hdue) as Hrun. cbv zeta in Hrun.
  rewrite Hflags in Hrun. rewrite Hrun. eexists. split; [reflexivity|].
  cbn [a_severity a_action withAI]. split; [exact Cs|]. split; [exact Ca|].
  intros sid pid w'. apply executeModerationAction_no_protocol.
  cbn [a_action withAI]. rewrite Ca. by apply promptActions_no_protocol.
Qed.

Lemma classifier_verdict_is_never_acted_upon_witness :
  ∃ v, (analyzeContent quietMessage someContext (blankWorld (AIObject alarmedReply))).1 = Ok v
     ∧ a_severity v = "critical"
     ∧ a_action v = "intervention"
     ∧ executeModerationAction v "room-1" "anon-7" (blankWorld (AIObject alarmedReply))
       = (Ok ReturnsUndefined, blankWorld (AIObject alarmedReply)).
Proof.
  destruct (classifier_verdict_is_never_acted_upon quietMessage someContext
              (blankWorld (AIObject alarmedReply)) [AIFlag "crisis" "implicit ideation"])
    as (v & Hv & Hs & Ha & Hnone).
  - vm_compute; reflexivity.
  - reflexivity.
  - vm_compute; reflexivity.
  - vm_compute. do 4 right. left.
  - exists v. split; [exact Hv|]. split; [exact Hs|]. split; [exact Ha|]. apply Hnone.
Defined.

(** X6. Which rule verdicts are acted upon: the action of the rule stage
    names a protocol exactly when the crisis, harassment or spam rule
    matched.  A message that only the inappropriate_content rule matches
    is rated medium with the action ['content_filter'], which no protocol
    handles: the dispatch of any verdict carrying that action returns
    nothing and changes nothing. *)
Theorem rule_verdict_is_acted_upon_iff (content : string) :
  bool_decide (is_Some (emergencyProtocols (r_action (applyRuleBasedModeration content))))
  = categoryMatched content "crisis_detection"
    || categoryMatched content "harassment"
    || categoryMatched content "spam"
  ∧ (categoryMatched content "crisis_detection" = false →
     categoryMatched content "harassment" = false →
     categoryMatched content "spam" = false →
     categoryMatched content "inappropriate_content" = true →
     r_severity (applyRuleBasedModeration content) = "medium"
     ∧ r_action (applyRuleBasedModeration content) = "content_filter"
     ∧ ∀ analysis sessionId participantId w,
         a_action analysis = r_action (applyRuleBasedModeration content) →
         executeModerationAction analysis sessionId participantId w
         = (Ok ReturnsUndefined, w)).
Proof.
  rewrite rule_stage_action, rule_stage_severity. split.
  - destruct (categoryMatched content "crisis_detection"),
             (categoryMatched content "harassment"),
             (categoryMatched content "spam"),
             (categoryMatched content "inappropriate_content"); reflexivity.
  - intros -> -> -> ->. split; [done|]. split; [done|].
    intros analysis sid pid w Hact. apply executeModerationAction_no_protocol.
    by rewrite Hact.
Qed.

(** X7. Flags the classifier returns in a shape that cannot be spread
    cost the whole verdict: whatever the rule stage found, [analyzeContent]
    returns severity ['none'], action ['none'], confidence 0, no flags and
    the error message, records no moderation event and issues no Redis
    command; the classifier was called once and two lines went to the
    console. *)
Theorem unspreadable_flags_discard_the_rule_verdict (content : string) (ctx : Context)
    (w : World) :
  aiStageDue content (applyRuleBasedModeration content) = true →
  ai_flags (aiResultFor (classifier w content)) = NotIterable →
  let r := analyzeContent content ctx w in
  r.1 = Ok (fallbackVerdict content notIterable)
  ∧ moderationLogs (world_of r) = moderationLogs w
  ∧ redisLog (world_of r) = redisLog w
  ∧ redis (world_of r) = redis w
  ∧ aiCalls (world_of r) = (aiCalls w ++ [content])%list
  ∧ console (world_of r) = (console w ++ ["Content analysis failed:"])%list.
Proof.
  intros Hdue Hflags. cbv zeta. unfold world_of.
  pose proof (analyzeContent_ran content ctx w Hdue) as Hrun. cbv zeta in Hrun.
  rewrite Hflags in Hrun. rewrite Hrun. cbn [fst snd].
  rewrite performAIAnalysis_run.
  change (classifier (with_clockReads (S (clockReads w)) w) content)
    with (classifier w content).
  destruct (classifier w content) as [| |j]; try discriminate Hflags.
  repeat split.
Qed.

Lemma unspreadable_flags_discard_the_rule_verdict_witness :
  r_severity (applyRuleBasedModeration "I hate mondays a lot") = "high"
  ∧ (analyzeContent "I hate mondays a lot" someContext (blankWorld (AIObject brokenReply))).1
    = Ok (fallbackVerdict "I hate mondays a lot" notIterable)
  ∧ moderationLogs (world_of (analyzeContent "I hate mondays a lot" someContext
                                (blankWorld (AIObject brokenReply)))) = [].
Proof.
  split; [vm_compute; reflexivity|].
  destruct (unspreadable_flags_discard_the_rule_verdict "I hate mondays a lot" someContext
              (blankWorld (AIObject brokenReply))) as (Hv & Hlogs & _).
  - vm_compute; reflexivity.
  - reflexivity.
  - split; [exact Hv|exact Hlogs].
Defined.

(* ===================================================================== *)
(** * Voice configurations *)
(* ===================================================================== *)

Lemma setVoiceConfig_memory sid pid cfg w :
  redis w = None →
  setVoiceConfig sid pid cfg w =
    (Ok true,
     with_voiceConfigs (<[voiceKey sid pid := voiceDataAt sid pid cfg w]> (voiceConfigs w))
       (with_clockReads (S (clockReads w)) w)).
Proof.
  intros Hmem. unfold setVoiceConfig, try_catch.
  rewrite bind_dateNow, bind_get_world. simpl. rewrite Hmem. reflexivity.
Qed.

Lemma setVoiceConfig_redisFault sid pid cfg : preserves redisFault (setVoiceConfig sid pid cfg).
Proof. frame. Qed.

Lemma getVoiceConfig_memory sid pid w :
  redis w = None →
  getVoiceConfig sid pid w = (Ok (SVoice <$> voiceConfigs w !! voiceKey sid pid), w).
Proof.
  intros Hmem. unfold getVoiceConfig, try_catch. rewrite bind_get_world, Hmem. reflexivity.
Qed.

Lemma getVoiceConfig_redis sid pid w db :
  redis w = Some db →
  (getVoiceConfig sid pid w).1
  = Ok (if redisFault w (length (redisLog w)) then None
        else snd <$> kv db !! voiceKey sid pid).
Proof.
  intros Hdb. unfold getVoiceConfig, try_catch. rewrite bind_get_world, Hdb.
  unfold get, issue, get_world, consoleError, modify, mbind, M_bind, mret, M_ret. simpl.
  destruct (redisFault w (length (redisLog w))); simpl; by rewrite ?Hdb.
Qed.

Lemma append_assoc (a b c : string) : (a ++ b) ++ c = a ++ (b ++ c).
Proof. induction a as [|x a IH]; [done|]. by rewrite !append_cons, IH. Qed.

Lemma voiceKey_colon s p q : voiceKey (s ++ ":" ++ p) q = voiceKey s (p ++ ":" ++ q).
Proof. unfold voiceKey. by rewrite !append_assoc. Qed.

Lemma kv_after_setex key ttl value db key' :
  kv (applyCmd (SETEX key ttl value) db) !! key'
  = if decide (key' = key) then Some (ttl, value) else kv db !! key'.
Proof.
  simpl. destruct (decide _) as [->|Hne].
  - apply lookup_insert_eq.
  - by apply lookup_insert_ne.
Qed.

Lemma voice_round_trip sid pid cfg w sid' pid' :
  storeAccepts w →
  let set := setVoiceConfig sid pid cfg w in
  result set = Some true
  ∧ result (getVoiceConfig sid' pid' (world_of set))
    = if decide (voiceKey sid' pid' = voiceKey sid pid)
      then Some (Some (SVoice (voiceDataAt sid pid cfg w)))
      else result (getVoiceConfig sid' pid' w).
Proof.
  intros Haccepts. cbv zeta. unfold result, world_of.
  destruct (redis w) as [db|] eqn:Hdb.
  - destruct Haccepts as [Hmem|Hok]; [congruence|].
    destruct (setVoiceConfig_redis sid pid cfg w db Hdb) as (_ & Hset).
    pose proof (setVoiceConfig_redisFault sid pid cfg w) as Hfault.
    rewrite Hok in Hset. destruct Hset as [Hret Hdb1].
    rewrite Hret. split; [done|].
    rewrite (getVoiceConfig_redis sid' pid' _ _ Hdb1), Hfault, Hok.
    rewrite (getVoiceConfig_redis sid' pid' _ _ Hdb), Hok, kv_after_setex.
    by destruct (decide _).
  - rewrite setVoiceConfig_memory by done. split; [done|].
    rewrite !getVoiceConfig_memory by done. cbn [fst snd].
    change (voiceConfigs (with_voiceConfigs ?m _)) with m.
    destruct (decide _) as [->|Hne].
    + by rewrite lookup_insert_eq.
    + by rewrite lookup_insert_ne.
Qed.

(** X8. A voice configuration that was stored is read back: in memory
    mode, and with the Redis client when no command fails,
    [getVoiceConfig] after [setVoiceConfig] for the same session and
    participant returns the configuration with the instant, session and
    participant recorded at the write, and the read of any other key
    returns what it returned before. *)
Theorem voice_config_round_trip (sessionId participantId : string)
    (voiceConfig : gmap string JsVal) (w : World) :
  storeAccepts w →
  let set := setVoiceConfig sessionId participantId voiceConfig w in
  result set = Some true
  ∧ result (getVoiceConfig sessionId participantId (world_of set))
    = Some (Some (SVoice (voiceDataAt sessionId participantId voiceConfig w)))
  ∧ ∀ sessionId' participantId',
      voiceKey sessionId' participantId' ≠ voiceKey sessionId participantId →
      result (getVoiceConfig sessionId' participantId' (world_of set))
      = result (getVoiceConfig sessionId' participantId' w).
Proof.
  intros Haccepts. cbv zeta.
  destruct (voice_round_trip sessionId participantId voiceConfig w
              sessionId participantId Haccepts) as [Hset Hget].
  split; [exact Hset|]. split.
  - cbv zeta in Hget. by rewrite decide_True in Hget.
  - intros sid' pid' Hne.
    destruct (voice_round_trip sessionId participantId voiceConfig w sid' pid' Haccepts)
      as [_ Hother].
    cbv zeta in Hother. by rewrite decide_False in Hother.
Qed.

Lemma voice_config_round_trip_witness :
  storeAccepts (redisWorld AIRejects noFault)
  ∧ result (getVoiceConfig "room-1" "anon-7"
              (world_of (setVoiceConfig "room-1" "anon-7" sampleVoice
                           (redisWorld AIRejects noFault))))
    = Some (Some (SVoice (voiceDataAt "room-1" "anon-7" sampleVoice
                            (redisWorld AIRejects noFault)))).
Proof.
  assert (storeAccepts (redisWorld AIRejects noFault)) as Haccepts by (right; reflexivity).
  split; [exact Haccepts|].
  destruct (voice_config_round_trip "room-1" "anon-7" sampleVoice
              (redisWorld AIRejects noFault) Haccepts) as (_ & Hget & _).
  exact Hget.
Defined.

(** X9. The key of a voice configuration does not separate its two
    identifiers: participant [q] of session [s:p] and participant [p:q]
    of session [s] share one key.  A configuration stored for the first
    is what [getVoiceConfig] returns for the second, under the session
    and participant of the first. *)
Theorem voice_config_keys_alias (s p q : string) (voiceConfig : gmap string JsVal)
    (w : World) :
  storeAccepts w →
  voiceKey (s ++ ":" ++ p) q = voiceKey s (p ++ ":" ++ q)
  ∧ result (getVoiceConfig s (p ++ ":" ++ q)
              (world_of (setVoiceConfig (s ++ ":" ++ p) q voiceConfig w)))
    = Some (Some (SVoice (voiceDataAt (s ++ ":" ++ p) q voiceConfig w))).
Proof.
  intros Haccepts. split; [apply voiceKey_colon|].
  destruct (voice_round_trip (s ++ ":" ++ p) q voiceConfig w s (p ++ ":" ++ q) Haccepts)
    as [_ Hget].
  cbv zeta in Hget. rewrite decide_True in Hget; [exact Hget|].
  symmetry. apply voiceKey_colon.
Qed.

Lemma voice_config_keys_alias_witness :
  storeAccepts (blankWorld AIRejects)
  ∧ (vc_sessionId <$> (voiceConfigs
                         (world_of (setVoiceConfig "room:1" "anon" sampleVoice
                                      (blankWorld AIRejects)))
                       !! voiceKey "room" "1:anon")) = Some "room:1"
  ∧ result (getVoiceConfig "room" "1:anon"
              (world_of (setVoiceConfig "room:1" "anon" sampleVoice (blankWorld AIRejects))))
    = Some (Some (SVoice (voiceDataAt "room:1" "anon" sampleVoice (blankWorld AIRejects)))).
Proof.
  assert (storeAccepts (blankWorld AIRejects)) as Haccepts by (left; reflexivity).
  split; [exact Haccepts|]. split; [vm_compute; reflexivity|].
  destruct (voice_config_keys_alias "room" "1" "anon" sampleVoice (blankWorld AIRejects)
              Haccepts) as [_ Hget].
  exact Hget.
Defined.

(* ===================================================================== *)
(** * Reading the moderation log *)
(* ===================================================================== *)

Lemma with_redis_same w db : redis w = Some db → with_redis (Some db) w = w.
Proof. destruct w. simpl. by intros ->. Qed.

Lemma issue_accepted c w db :
  redis w = Some db → redisFault w (length (redisLog w)) = false →
  issue c w = (Ok tt, with_redis (Some (applyCmd c db)) (with_redisLog (redisLog w ++ [c]) w)).
Proof.
  intros Hdb Hok. unfold issue. cbv zeta. rewrite Hok.
  change (redis (with_redisLog (redisLog w ++ [c]) w)) with (redis w). by rewrite Hdb.
Qed.

Lemma get_accepted key w db :
  redis w = Some db → redisFault w (length (redisLog w)) = false →
  get key w = (Ok (readKey db key), with_redisLog (redisLog w ++ [GET key]) w).
Proof.
  intros Hdb Hok. unfold get, mbind, M_bind. rewrite (issue_accepted _ _ db) by done.
  cbn [applyCmd]. rewrite with_redis_same by done.
  unfold get_world, mret, M_ret. cbn [redis with_redisLog]. by rewrite Hdb.
Qed.

Lemma lrange_accepted key stop w db :
  redis w = Some db → redisFault w (length (redisLog w)) = false →
  lrange key stop w
  = (Ok (rangeFromStart stop (default [] (lists db !! key))),
     with_redisLog (redisLog w ++ [GET key]) w).
Proof.
  intros Hdb Hok. unfold lrange, mbind, M_bind. rewrite (issue_accepted _ _ db) by done.
  cbn [applyCmd]. rewrite with_redis_same by done.
  unfold get_world, mret, M_ret. cbn [redis with_redisLog]. by rewrite Hdb.
Qed.

Lemma fetchLogs_reliable db keys : ∀ logs w,
  redis w = Some db → reliable w →
  fetchLogs keys logs w
  = (Ok (logs ++ omap (readKey db) keys)%list,
     with_redisLog (redisLog w ++ (GET <$> keys)) w).
Proof.
  induction keys as [|key keys IH]; intros logs w Hdb Hok.
  - simpl. rewrite !app_nil_r. by destruct w.
  - cbn [fetchLogs]. unfold mbind, M_bind. rewrite (get_accepted _ _ db) by done.
    rewrite IH by done. cbn [redisLog with_redisLog omap list_omap fmap list_fmap].
    f_equal.
    + f_equal. destruct (readKey db key); [by rewrite <- app_assoc|done].
    + by rewrite <- app_assoc.
Qed.

Lemma getModerationLogs_memory sid limit w :
  redis w = None →
  getModerationLogs sid limit w = (Ok (SModeration <$> slice0 limit (sessionLogs w sid)), w).
Proof.
  intros Hmem. unfold getModerationLogs, try_catch. rewrite bind_get_world, Hmem. reflexivity.
Qed.

Lemma getModerationLogs_redis sid limit w db :
  redis w = Some db → reliable w →
  getModerationLogs sid limit w
  = (Ok (omap (readKey db) (rangeFromStart (limit - 1) (listedKeys db sid))),
     with_redisLog
       (redisLog w ++ GET (moderationListKey (Some sid))
          :: (GET <$> rangeFromStart (limit - 1) (listedKeys db sid)))
       w).
Proof.
  intros Hdb Hok. unfold getModerationLogs, try_catch. rewrite bind_get_world, Hdb.
  unfold mbind, M_bind. rewrite (lrange_accepted _ _ _ db) by done.
  rewrite (fetchLogs_reliable db) by done.
  cbn [redisLog with_redisLog app]. by rewrite <- app_assoc.
Qed.

Lemma getModerationLogs_rejected sid limit w db :
  redis w = Some db → redisFault w (length (redisLog w)) = true →
  getModerationLogs sid limit w
  = (Ok [],
     with_console (console w ++ ["Failed to get moderation logs:"])
       (with_redisLog (redisLog w ++ [GET (moderationListKey (Some sid))]) w)).
Proof.
  intros Hdb Hko. unfold getModerationLogs, try_catch. rewrite bind_get_world, Hdb.
  unfold lrange, issue, mbind, M_bind. cbv zeta. rewrite Hko. reflexivity.
Qed.

Lemma getModerationLogs_total sid limit : total (getModerationLogs sid limit).
Proof. unfold getModerationLogs. never_throws. Qed.

Lemma logModerationEvent_reliable sid ev w db :
  redis w = Some db → reliable w →
  let e := moderationEntryAt sid ev w in
  RedisSessionManager.logModerationEvent sid ev w
  = (Ok true,
     with_redis (Some (dbAfterLog db e))
       (with_redisLog
          (redisLog w ++ [ SETEX (ml_id e) 604800 (SModeration e);
                           LPUSH (moderationListKey sid) (ml_id e);
                           EXPIRE (moderationListKey sid) 604800 ])
          (with_clockReads (S (S (clockReads w))) w))).
Proof.
  intros Hdb Hok. cbv zeta. unfold RedisSessionManager.logModerationEvent, try_catch.
  rewrite !bind_dateNow, bind_get_world. cbn [redis with_clockReads]. rewrite Hdb.
  unfold setex, lpush, expire, mbind, M_bind.
  erewrite issue_accepted; [|exact Hdb|apply Hok].
  erewrite issue_accepted; [|reflexivity|apply Hok].
  erewrite issue_accepted; [|reflexivity|apply Hok].
  unfold mret, M_ret. f_equal. destruct w; cbn. by rewrite <- !app_assoc.
Qed.

Lemma slice0_take {A} (limit : Z) (l : list A) :
  (0 ≤ limit)%Z → slice0 limit l = take (Z.to_nat limit) l.
Proof. intros Hpos. unfold slice0. by rewrite bool_decide_eq_false_2 by lia. Qed.

Lemma rangeFromStart_take {A} (stop : Z) (l : list A) :
  (0 ≤ stop)%Z → rangeFromStart stop l = take (Z.to_nat (stop + 1)) l.
Proof.
  intros Hpos. unfold rangeFromStart. cbv zeta.
  rewrite (bool_decide_eq_false_2 (stop < 0)%Z) by lia.
  by rewrite bool_decide_eq_false_2 by lia.
Qed.

Lemma rangeFromStart_all {A} (l : list A) : rangeFromStart (-1) l = l.
Proof.
  unfold rangeFromStart. cbv zeta. rewrite (bool_decide_eq_true_2 (-1 < 0)%Z) by lia.
  destruct l as [|x l]; [done|].
  rewrite bool_decide_eq_false_2 by (simpl length; lia).
  apply take_ge. simpl length. lia.
Qed.

Lemma rangeFromStart_slice0 {A} (limit : Z) (l : list A) :
  rangeFromStart (limit - 1) l = if decide (limit = 0) then l else slice0 limit l.
Proof.
  destruct (decide (limit = 0)) as [->|Hne]; [apply rangeFromStart_all|].
  destruct (decide (0 < limit)%Z) as [Hpos|Hneg].
  - rewrite rangeFromStart_take, slice0_take by lia. f_equal. lia.
  - unfold rangeFromStart, slice0. cbv zeta.
    rewrite (bool_decide_eq_true_2 (limit - 1 < 0)%Z) by lia.
    rewrite (bool_decide_eq_true_2 (limit < 0)%Z) by lia.
    case_bool_decide as Hlen.
    + replace (Z.to_nat _) with 0%nat by lia. done.
    + f_equal. lia.
Qed.

Lemma sessionLogs_logged sid ev w :
  sessionLogs (with_moderationLogs (moderationLogs w ++ [moderationEntryAt (Some sid) ev w])
                 (with_clockReads (S (S (clockReads w))) w)) sid
  = (sessionLogs w sid ++ [moderationEntryAt (Some sid) ev w])%list.
Proof.
  unfold sessionLogs. cbn [moderationLogs with_moderationLogs with_clockReads].
  rewrite filter_app. f_equal. rewrite filter_cons, decide_True by done. done.
Qed.

Lemma listedKeys_logged db e sid :
  moderationListKey (ml_sessionId e) = moderationListKey (Some sid) →
  listedKeys (dbAfterLog db e) sid = ml_id e :: listedKeys db sid.
Proof.
  intros Hsid. unfold listedKeys, dbAfterLog. rewrite Hsid. cbn [applyCmd lists kv list_ttl].
  by rewrite lookup_insert_eq.
Qed.

Lemma readKey_logged db e key :
  readKey (dbAfterLog db e) key
  = if decide (key = ml_id e) then Some (SModeration e) else readKey db key.
Proof.
  unfold readKey, dbAfterLog. cbn [applyCmd lists kv list_ttl].
  destruct (decide _) as [->|Hne].
  - by rewrite lookup_insert_eq.
  - by rewrite lookup_insert_ne.
Qed.

(** X10. In memory mode [getModerationLogs] returns the oldest entries of
    the session, in the order they were logged, at most [limit] of them.
    Once the session holds [limit] entries, an event logged later is
    never returned; below that, it is returned last. *)
Theorem memory_log_returns_the_oldest (sessionId : string) (limit : Z)
    (event : ModerationEvent) (w : World) :
  redis w = None → (0 ≤ limit)%Z →
  let logged := RedisSessionManager.logModerationEvent (Some sessionId) event w in
  let entry := moderationEntryAt (Some sessionId) event w in
  result (getModerationLogs sessionId limit w)
  = Some (SModeration <$> take (Z.to_nat limit) (sessionLogs w sessionId))
  ∧ result logged = Some true
  ∧ sessionLogs (world_of logged) sessionId = (sessionLogs w sessionId ++ [entry])%list
  ∧ ((limit ≤ Z.of_nat (length (sessionLogs w sessionId)))%Z →
     result (getModerationLogs sessionId limit (world_of logged))
     = result (getModerationLogs sessionId limit w))
  ∧ ((Z.of_nat (length (sessionLogs w sessionId)) < limit)%Z →
     result (getModerationLogs sessionId limit (world_of logged))
     = Some (SModeration <$> (sessionLogs w sessionId ++ [entry]))%list).
Proof.
  intros Hmem Hpos. cbv zeta. unfold world_of.
  rewrite logModerationEvent_memory by done. cbn [fst snd].
  rewrite !getModerationLogs_memory by done. unfold result. cbn [fst].
  rewrite sessionLogs_logged, !slice0_take by done.
  split; [done|]. split; [done|]. split; [done|]. split.
  - intros Hfull. by rewrite take_app_le by lia.
  - intros Hroom. rewrite take_ge; [done|]. rewrite length_app. simpl. lia.
Qed.

Lemma memory_log_returns_the_oldest_witness :
  redis (world_of (RedisSessionManager.logModerationEvent (Some "room-1") sampleEvent
                     (blankWorld AIRejects))) = None
  ∧ (0 ≤ 1)%Z
  ∧ result (getModerationLogs "room-1" 1
              (world_of (RedisSessionManager.logModerationEvent (Some "room-1") laterEvent
                 (world_of (RedisSessionManager.logModerationEvent (Some "room-1") sampleEvent
                              (blankWorld AIRejects))))))
    = result (getModerationLogs "room-1" 1
                (world_of (RedisSessionManager.logModerationEvent (Some "room-1") sampleEvent
                             (blankWorld AIRejects)))).
Proof.
  split; [reflexivity|]. split; [lia|].
  destruct (memory_log_returns_the_oldest "room-1" 1 laterEvent
              (world_of (RedisSessionManager.logModerationEvent (Some "room-1") sampleEvent
                           (blankWorld AIRejects))))
    as (_ & _ & _ & Hfull & _); [reflexivity|lia|].
  apply Hfull. vm_compute. discriminate.
Defined.

Lemma omap_pointwise {A B} (f g : A → option B) (l : list A) :
  (∀ x, f x = g x) → omap f l = omap g l.
Proof.
  intros Hfg. induction l as [|x l IH]; [done|]. cbn [omap list_omap]. by rewrite Hfg, IH.
Qed.

Lemma redis_head sid limit ev w db :
  redis w = Some db → reliable w → (1 ≤ limit)%Z →
  let logged := RedisSessionManager.logModerationEvent (Some sid) ev w in
  let entry := moderationEntryAt (Some sid) ev w in
  result (getModerationLogs sid limit logged.2)
  = Some (SModeration entry
          :: omap (λ key, if decide (key = ml_id entry) then Some (SModeration entry)
                          else readKey db key)
                  (take (Z.to_nat (limit - 1)) (listedKeys db sid))).
Proof.
  intros Hdb Hok Hlimit. cbv zeta.
  rewrite (logModerationEvent_reliable _ _ _ db) by done. cbv zeta. cbn [fst snd].
  erewrite getModerationLogs_redis; [|reflexivity|intros n; apply Hok].
  unfold result. cbn [fst]. f_equal.
  rewrite listedKeys_logged by done.
  rewrite rangeFromStart_take by lia.
  replace (Z.to_nat (limit - 1 + 1)) with (S (Z.to_nat (limit - 1))) by lia.
  cbn [take omap list_omap]. rewrite readKey_logged, decide_True by done.
  f_equal. apply omap_pointwise. intros key. apply readKey_logged.
Qed.

(** X11. With the Redis client and no failing command, the event just
    logged is the first entry [getModerationLogs] returns, for every
    [limit] of at least 1; the entries after it are read from the earlier
    keys of the list, and an earlier key equal to the new one reads as
    the new entry. *)
Theorem redis_log_returns_the_newest_first (sessionId : string) (limit : Z)
    (event : ModerationEvent) (w : World) (db : RedisDb) :
  redis w = Some db → reliable w → (1 ≤ limit)%Z →
  let logged := RedisSessionManager.logModerationEvent (Some sessionId) event w in
  let entry := moderationEntryAt (Some sessionId) event w in
  result logged = Some true
  ∧ result (getModerationLogs sessionId limit (world_of logged))
    = Some (SModeration entry
            :: omap (λ key, if decide (key = ml_id entry) then Some (SModeration entry)
                            else readKey db key)
                    (take (Z.to_nat (limit - 1)) (listedKeys db sessionId))).
Proof.
  intros Hdb Hok Hlimit. cbv zeta. split.
  - by rewrite (logModerationEvent_reliable _ _ _ db).
  - by apply redis_head.
Qed.

Lemma redis_log_returns_the_newest_first_witness :
  redis (redisWorld AIRejects noFault) = Some emptyDb
  ∧ reliable (redisWorld AIRejects noFault)
  ∧ (1 ≤ 5)%Z
  ∧ result (getModerationLogs "room-1" 5
              (world_of (RedisSessionManager.logModerationEvent (Some "room-1") laterEvent
                 (world_of (RedisSessionManager.logModerationEvent (Some "room-1") sampleEvent
                              (redisWorld AIRejects noFault))))))
    = Some [ SModeration
               (moderationEntryAt (Some "room-1") laterEvent
                  (world_of (RedisSessionManager.logModerationEvent (Some "room-1") sampleEvent
                               (redisWorld AIRejects noFault))));
             SModeration
               (moderationEntryAt (Some "room-1") sampleEvent (redisWorld AIRejects noFault)) ].
Proof.
  split; [reflexivity|]. split; [intros n; reflexivity|]. split; [lia|].
  destruct (redis_log_returns_the_newest_first "room-1" 5 laterEvent
              (world_of (RedisSessionManager.logModerationEvent (Some "room-1") sampleEvent
                           (redisWorld AIRejects noFault)))
              (dbAfterLog emptyDb
                 (moderationEntryAt (Some "room-1") sampleEvent (redisWorld AIRejects noFault))))
    as [_ Hget]; [reflexivity|intros n; reflexivity|lia|].
  rewrite Hget. vm_compute. reflexivity.
Defined.

(** X12. With the Redis client, two events of one session whose keys are
    built in the same millisecond share a key.  The second write replaces
    the first entry, the list holds the key twice, and
    [getModerationLogs] returns the second entry twice: the first event
    can no longer be read. *)
Theorem same_instant_events_share_a_key (sessionId : string) (limit : Z)
    (first second : ModerationEvent) (w : World) (db : RedisDb) :
  redis w = Some db → reliable w → (2 ≤ limit)%Z →
  clock w (S (S (clockReads w))) = clock w (clockReads w) →
  let w1 := world_of (RedisSessionManager.logModerationEvent (Some sessionId) first w) in
  let w2 := world_of (RedisSessionManager.logModerationEvent (Some sessionId) second w1) in
  let e1 := moderationEntryAt (Some sessionId) first w in
  let e2 := moderationEntryAt (Some sessionId) second w1 in
  ml_id e1 = ml_id e2
  ∧ redis w2 = Some (dbAfterLog (dbAfterLog db e1) e2)
  ∧ readKey (dbAfterLog (dbAfterLog db e1) e2) (ml_id e1) = Some (SModeration e2)
  ∧ take 2 (listedKeys (dbAfterLog (dbAfterLog db e1) e2) sessionId) = [ml_id e2; ml_id e2]
  ∧ (take 2 <$> result (getModerationLogs sessionId limit w2))
    = Some [SModeration e2; SModeration e2].
Proof.
  intros Hdb Hok Hlimit Hclock. cbv zeta. unfold world_of.
  rewrite (logModerationEvent_reliable _ _ w db) by done. cbv zeta. cbn [snd].
  set (e1 := moderationEntryAt (Some sessionId) first w).
  match goal with |- context [moderationEntryAt (Some sessionId) second ?w'] =>
    set (w1 := w')
  end.
  set (e2 := moderationEntryAt (Some sessionId) second w1).
  assert (ml_id e1 = ml_id e2) as Hid.
  { unfold e1, e2, w1, moderationEntryAt.
    cbn [ml_id clock clockReads with_redis with_redisLog with_clockReads].
    by rewrite Hclock. }
  assert (redis w1 = Some (dbAfterLog db e1)) as Hdb1 by reflexivity.
  assert (reliable w1) as Hok1 by (intros n; apply Hok).
  pose proof (redis_head sessionId limit second w1 (dbAfterLog db e1) Hdb1 Hok1) as Hread.
  cbv zeta in Hread. fold e2 in Hread.
  rewrite (logModerationEvent_reliable _ _ w1 (dbAfterLog db e1)) in * by done.
  cbv zeta in *. cbn [snd] in *. fold e2 in Hread |- *.
  split; [exact Hid|]. split; [reflexivity|].
  split; [by rewrite readKey_logged, decide_True|].
  split; [by rewrite !listedKeys_logged, Hid|].
  rewrite Hread by lia. unfold result. cbn [fst fmap option_fmap option_map].
  rewrite listedKeys_logged by done.
  replace (Z.to_nat (limit - 1)) with (S (Z.to_nat (limit - 2))) by lia.
  cbn [take omap list_omap]. by rewrite decide_True.
Qed.

Lemma same_instant_events_share_a_key_witness :
  redis (frozenClock (redisWorld AIRejects noFault)) = Some emptyDb
  ∧ reliable (frozenClock (redisWorld AIRejects noFault))
  ∧ (2 ≤ 5)%Z
  ∧ (take 2 <$> result (getModerationLogs "room-1" 5
       (world_of (RedisSessionManager.logModerationEvent (Some "room-1") laterEvent
          (world_of (RedisSessionManager.logModerationEvent (Some "room-1") sampleEvent
                       (frozenClock (redisWorld AIRejects noFault))))))))
    = Some [ SModeration
               (moderationEntryAt (Some "room-1") laterEvent
                  (world_of (RedisSessionManager.logModerationEvent (Some "room-1")
                               sampleEvent (frozenClock (redisWorld AIRejects noFault)))));
             SModeration
               (moderationEntryAt (Some "room-1") laterEvent
                  (world_of (RedisSessionManager.logModerationEvent (Some "room-1")
                               sampleEvent (frozenClock (redisWorld AIRejects noFault))))) ].
Proof.
  split; [reflexivity|]. split; [intros n; reflexivity|]. split; [lia|].
  destruct (same_instant_events_share_a_key "room-1" 5 sampleEvent laterEvent
              (frozenClock (redisWorld AIRejects noFault)) emptyDb)
    as (_ & _ & _ & _ & Hget); [reflexivity|intros n; reflexivity|lia|reflexivity|].
  exact Hget.
Defined.

(** X13. How many entries a [limit] admits.  Read through the Redis
    client, the range [0 .. limit - 1] of a list is what [slice(0, limit)]
    takes from it for every [limit] except 0, where the range is the
    whole list and the slice is empty: [getModerationLogs] with [limit] 0
    returns nothing in memory mode and every readable entry of the
    session with the Redis client. *)
Theorem limit_zero_reads_everything_from_redis (sessionId : string) (w : World) :
  (∀ (limit : Z) (keys : list string),
     rangeFromStart (limit - 1) keys = if decide (limit = 0) then keys else slice0 limit keys)
  ∧ (redis w = None → result (getModerationLogs sessionId 0 w) = Some [])
  ∧ (∀ db, redis w = Some db → reliable w →
       result (getModerationLogs sessionId 0 w)
       = Some (omap (readKey db) (listedKeys db sessionId))).
Proof.
  split; [intros limit keys; apply rangeFromStart_slice0|]. split.
  - intros Hmem. by rewrite getModerationLogs_memory.
  - intros db Hdb Hok. rewrite (getModerationLogs_redis _ _ _ db) by done.
    unfold result. cbn [fst]. by rewrite rangeFromStart_slice0, decide_True.
Qed.

(* ===================================================================== *)
(** * Behaviour of a participant and summary of a session *)
(* ===================================================================== *)

Lemma recentLogsOf_run pid tw logs : ∀ w,
  ∃ kept n,
    recentLogsOf pid tw logs w = (Ok kept, with_clockReads n w)
    ∧ kept `sublist_of` logs
    ∧ (∀ log, log ∈ logs → participantIdOf log = Some (VStr pid) →
        (∃ t, timestampOf log = Some t
              ∧ ∀ m, (clockReads w ≤ m < clockReads w + length logs)%nat →
                     (clock w m - t < tw)%Z) →
        log ∈ kept).
Proof.
  induction logs as [|log logs IH]; intros w.
  - exists [], (clockReads w). split; [by destruct w|]. split; [done|].
    intros log Hin. by apply elem_of_nil in Hin.
  - cbn [recentLogsOf]. unfold mbind, M_bind.
    destruct (decide (participantIdOf log = Some (VStr pid))) as [Hpid|Hpid].
    + rewrite (bool_decide_eq_true_2 _ Hpid). rewrite bind_dateNow_run.
      destruct (IH (with_clockReads (S (clockReads w)) w)) as (kept & n & Hrun & Hsub & Hkeep).
      unfold mret, M_ret at 1. rewrite Hrun.
      eexists _, n. split; [reflexivity|]. split.
      * destruct (timestampOf log) as [t|]; [|by apply sublist_cons].
        destruct (bool_decide (clock w (clockReads w) - t < tw)%Z);
          [by apply sublist_skip|by apply sublist_cons].
      * intros log' Hin Hp (t & Ht & Hwin). apply elem_of_cons in Hin as [->|Hin].
        -- rewrite Ht. rewrite bool_decide_eq_true_2 by (apply Hwin; simpl; lia).
           apply elem_of_cons. by left.
        -- assert (log' ∈ kept) as Hk.
           { apply Hkeep; [done|done|]. exists t. split; [done|].
             intros m Hm. apply Hwin. simpl in *. lia. }
           destruct (timestampOf log) as [t'|]; [|done].
           destruct (bool_decide (clock w (clockReads w) - t' < tw)%Z);
             [apply elem_of_cons; by right|done].
    + rewrite (bool_decide_eq_false_2 _ Hpid). unfold mret, M_ret at 1.
      destruct (IH w) as (kept & n & Hrun & Hsub & Hkeep). rewrite Hrun.
      eexists _, n. split; [reflexivity|]. split; [by apply sublist_cons|].
      intros log' Hin Hp (t & Ht & Hwin). apply elem_of_cons in Hin as [->|Hin]; [done|].
      apply Hkeep; [done|done|]. exists t. split; [done|].
      intros m Hm. apply Hwin. simpl. lia.
Qed.

Lemma countOf_bump key key' counts :
  countOf key (bump key' counts)
  = if decide (key = key') then S (countOf key counts) else countOf key counts.
Proof.
  unfold countOf, bump. destruct (decide _) as [->|Hne].
  - by rewrite lookup_insert_eq.
  - by rewrite lookup_insert_ne.
Qed.

Lemma countOf_tallied key logs : ∀ counts,
  countOf key (foldl (λ counts log, bump (keyOf (severityOf log)) counts) counts logs)
  = (countOf key counts + length (filter (λ log, keyOf (severityOf log) = key) logs))%nat.
Proof.
  induction logs as [|log logs IH]; intros counts; simpl; [lia|].
  rewrite IH, countOf_bump, filter_cons.
  destruct (decide (key = keyOf (severityOf log))) as [->|Hne].
  - rewrite decide_True by done. simpl. lia.
  - by rewrite decide_False.
Qed.

Lemma critical_is_flagged log : keyOf (severityOf log) = "critical" → flagged log.
Proof.
  unfold flagged. destruct (severityOf log) as [[s|n|b]|]; simpl; try done.
  by intros ->.
Qed.

Lemma filter_length_mono {A} (P Q : A → Prop) `{∀ x, Decision (P x)} `{∀ x, Decision (Q x)}
    (l : list A) :
  (∀ x, P x → Q x) → (length (filter P l) ≤ length (filter Q l))%nat.
Proof.
  intros HPQ. induction l as [|x l IH]; [done|]. rewrite !filter_cons.
  destruct (decide (P x)) as [HP|HP].
  - rewrite decide_True by auto. simpl. lia.
  - destruct (decide (Q x)); simpl; lia.
Qed.

Lemma filter_length_pos {A} (P : A → Prop) `{∀ x, Decision (P x)} (l : list A) x :
  x ∈ l → P x → (0 < length (filter P l))%nat.
Proof.
  intros Hin HP. assert (x ∈ filter P l) as Hx by (by apply list_elem_of_filter).
  destruct (filter P l); [by apply elem_of_nil in Hx|simpl; lia].
Qed.

Lemma filter_length_pos_inv {A} (P : A → Prop) `{∀ x, Decision (P x)} (l : list A) :
  (0 < length (filter P l))%nat → ∃ x, x ∈ l ∧ P x.
Proof.
  intros Hpos. destruct (filter P l) as [|x rest] eqn:Hf; [simpl in Hpos; lia|].
  assert (x ∈ filter P l) as Hin by (rewrite Hf; apply elem_of_cons; by left).
  apply list_elem_of_filter in Hin as [HP Hin]. by exists x.
Qed.

Lemma behaviorOf_bounds pid tw kept :
  let b := behaviorOf pid tw kept in
  (b_flaggedCount b ≤ b_messageCount b)%nat
  ∧ b_messageCount b = length kept
  ∧ (0 ≤ b_riskScore b ≤ 100)%Z
  ∧ b_patterns b `sublist_of` ["high_volume"; "frequently_flagged"; "crisis_indicators"]
  ∧ (∀ key, countOf key (b_severityDistribution b)
            = length (filter (λ log, keyOf (severityOf log) = key) kept))
  ∧ ("crisis_indicators" ∈ b_patterns b
     ↔ (0 < countOf "critical" (b_severityDistribution b))%nat)
  ∧ ((0 < countOf "critical" (b_severityDistribution b))%nat → (65 ≤ b_riskScore b)%Z)
  ∧ (b_messageCount b = 0%nat → b = blankBehavior pid tw).
Proof.
  cbv zeta. unfold behaviorOf. cbv zeta.
  cbn [b_flaggedCount b_messageCount b_riskScore b_patterns b_severityDistribution].
  set (dist := foldl _ ∅ kept).
  assert (∀ key, countOf key dist
                 = length (filter (λ log, keyOf (severityOf log) = key) kept)) as Hdist.
  { intros key. unfold dist. rewrite countOf_tallied. unfold countOf at 1.
    by rewrite lookup_empty. }
  assert (countOf "critical" dist ≤ length (filter flagged kept))%nat as Hcrit.
  { rewrite Hdist. apply filter_length_mono. intros log. apply critical_is_flagged. }
  pose proof (length_filter flagged kept) as Hflag.
  set (p1 := if bool_decide (10 < length kept)%nat then ["high_volume"] else []).
  set (p2 := if frequentlyFlagged _ _ then ["frequently_flagged"] else []).
  set (p3 := if bool_decide (0 < countOf "critical" dist)%nat
             then ["crisis_indicators"] else []).
  split; [exact Hflag|]. split; [done|]. split; [lia|]. split.
  { subst p1 p2 p3.
    destruct (bool_decide (10 < _)%nat), (frequentlyFlagged _ _), (bool_decide (0 < _)%nat);
      repeat first [ apply sublist_nil | apply sublist_skip | apply sublist_cons ]. }
  split; [exact Hdist|]. split.
  { subst p1 p2 p3. split.
    - intros Hin.
      destruct (decide (0 < countOf "critical" dist)%nat) as [Hc|Hc]; [done|].
      rewrite (bool_decide_eq_false_2 _ Hc) in Hin.
      destruct (bool_decide (10 < length kept)%nat), (frequentlyFlagged _ _);
        simpl in Hin;
        repeat (apply elem_of_cons in Hin as [Hin|Hin]; [discriminate Hin|]);
        by apply elem_of_nil in Hin.
    - intros Hc. rewrite (bool_decide_eq_true_2 (0 < countOf "critical" dist)%nat) by done.
      rewrite !elem_of_app. right. right. apply elem_of_cons. by left. }
  split.
  { intros Hc.
    assert (1 ≤ length (p1 ++ p2 ++ p3))%nat.
    { subst p3. rewrite (bool_decide_eq_true_2 (0 < countOf "critical" dist)%nat) by done.
      rewrite !length_app. simpl. lia. }
    lia. }
  intros Hzero. apply nil_length_inv in Hzero. subst kept.
  subst dist p1 p2 p3. reflexivity.
Qed.

Lemma fetchLogs_length keys : ∀ logs w,
  match (fetchLogs keys logs w).1 with
  | Ok found => (length found ≤ length logs + length keys)%nat
  | Throw _ => True
  end.
Proof.
  induction keys as [|key keys IH]; intros logs w.
  - simpl. lia.
  - cbn [fetchLogs]. unfold mbind, M_bind.
    destruct (get key w) as [[data|e] w1]; [|done].
    specialize (IH (match data with Some v => (logs ++ [v])%list | None => logs end) w1).
    destruct (fetchLogs keys _ w1) as [[found|e] w2]; [|done].
    cbn [fst] in *. destruct data; rewrite ?length_app in IH; simpl in *; lia.
Qed.

Lemma rangeFromStart_length {A} (stop : Z) (l : list A) :
  (0 ≤ stop)%Z → (length (rangeFromStart stop l) ≤ Z.to_nat (stop + 1))%nat.
Proof. intros Hpos. rewrite rangeFromStart_take by done. rewrite length_take. lia. Qed.

Lemma getModerationLogs_length sid limit w :
  (1 ≤ limit)%Z →
  ∃ logs w', getModerationLogs sid limit w = (Ok logs, w')
             ∧ (length logs ≤ Z.to_nat limit)%nat
             ∧ (redis w = None → w' = w ∧ Forall (λ log, ∃ e, log = SModeration e) logs).
Proof.
  intros Hlimit. destruct (redis w) as [db|] eqn:Hdb.
  - unfold getModerationLogs, try_catch. rewrite bind_get_world, Hdb.
    unfold lrange, mbind, M_bind.
    destruct (issue (GET (moderationListKey (Some sid))) w) as [[[]|e] w1];
      [|eexists _, _; split; [reflexivity|]; simpl; split; [lia|done]].
    unfold get_world, mret, M_ret.
    pose proof (fetchLogs_length
                  (rangeFromStart (limit - 1)
                     (default [] ((lists <$> redis w1) ≫= (.!! moderationListKey (Some sid)))))
                  [] w1) as Hlen.
    pose proof (rangeFromStart_length (limit - 1)
                  (default [] ((lists <$> redis w1) ≫= (.!! moderationListKey (Some sid)))))
      as Hkeys.
    destruct (fetchLogs _ [] w1) as [[found|e] w2].
    + eexists _, _. split; [reflexivity|]. cbn [fst] in Hlen. simpl in Hlen.
      split; [|done]. replace (Z.to_nat (limit - 1 + 1)) with (Z.to_nat limit) in Hkeys by lia.
      lia.
    + eexists _, _. split; [reflexivity|]. simpl. split; [lia|done].
  - rewrite getModerationLogs_memory by done. eexists _, _. split; [reflexivity|].
    split.
    + rewrite length_fmap, slice0_take, length_take by lia. lia.
    + intros _. split; [done|]. apply Forall_fmap, Forall_true. intros e. by exists e.
Qed.

Lemma recentLogsOf_inWindow pid tw logs : ∀ w,
  ∃ n, recentLogsOf pid tw logs w
       = (Ok (inWindow (clock w) (clockReads w) pid tw logs), with_clockReads n w).
Proof.
  induction logs as [|log logs IH]; intros w.
  - exists (clockReads w). by destruct w.
  - cbn [recentLogsOf inWindow]. unfold mbind, M_bind.
    destruct (decide (participantIdOf log = Some (VStr pid))) as [Hpid|Hpid].
    + rewrite (bool_decide_eq_true_2 _ Hpid). rewrite bind_dateNow_run.
      destruct (IH (with_clockReads (S (clockReads w)) w)) as (n & Hrun).
      unfold mret, M_ret at 1. rewrite Hrun. exists n. reflexivity.
    + rewrite (bool_decide_eq_false_2 _ Hpid). unfold mret, M_ret at 1.
      destruct (IH w) as (n & Hrun). rewrite Hrun. exists n. reflexivity.
Qed.

Lemma inWindow_spec clock pid tw logs : ∀ n,
  inWindow clock n pid tw logs `sublist_of` logs
  ∧ Forall (λ log, participantIdOf log = Some (VStr pid)
                   ∧ ∃ t m, timestampOf log = Some t
                            ∧ (n ≤ m < n + length logs)%nat
                            ∧ (clock m - t < tw)%Z)
           (inWindow clock n pid tw logs)
  ∧ (∀ log, log ∈ logs → participantIdOf log = Some (VStr pid) →
       (∃ t, timestampOf log = Some t
             ∧ ∀ m, (n ≤ m < n + length logs)%nat → (clock m - t < tw)%Z) →
       log ∈ inWindow clock n pid tw logs).
Proof.
  induction logs as [|log logs IH]; intros n.
  - split; [done|]. split; [constructor|]. intros log Hin. by apply elem_of_nil in Hin.
  - cbn [inWindow].
    destruct (decide (participantIdOf log = Some (VStr pid))) as [Hpid|Hpid].
    + rewrite (bool_decide_eq_true_2 _ Hpid). cbv zeta.
      destruct (IH (S n)) as (Hsub & Hall & Hkeep).
      assert (Forall (λ log', participantIdOf log' = Some (VStr pid)
                       ∧ ∃ t m, timestampOf log' = Some t
                                ∧ (n ≤ m < n + length (log :: logs))%nat
                                ∧ (clock m - t < tw)%Z)
                     (inWindow clock (S n) pid tw logs)) as Hall'.
      { eapply Forall_impl; [exact Hall|]. intros log' (Hp & t & m & Ht & Hm & Hw).
        split; [done|]. exists t, m. split; [done|]. split; [simpl; lia|done]. }
      destruct (timestampOf log) as [t|] eqn:Ht.
      * destruct (decide (clock n - t < tw)%Z) as [Hw|Hw].
        -- rewrite (bool_decide_eq_true_2 _ Hw). split; [by apply sublist_skip|]. split.
           ++ constructor; [|exact Hall']. split; [done|]. exists t, n.
              split; [done|]. split; [simpl; lia|done].
           ++ intros log' Hin Hp Hwin. apply elem_of_cons in Hin as [->|Hin];
                [apply elem_of_cons; by left|].
              apply elem_of_cons. right. apply Hkeep; [done|done|].
              destruct Hwin as (t' & Ht' & Hwin). exists t'. split; [done|].
              intros m Hm. apply Hwin. simpl. lia.
        -- rewrite (bool_decide_eq_false_2 _ Hw). split; [by apply sublist_cons|].
           split; [exact Hall'|].
           intros log' Hin Hp Hwin. apply elem_of_cons in Hin as [->|Hin].
           ++ destruct Hwin as (t' & Ht' & Hwin). rewrite Ht in Ht'. injection Ht' as <-.
              destruct Hw. apply Hwin. simpl. lia.
           ++ apply Hkeep; [done|done|].
              destruct Hwin as (t' & Ht' & Hwin). exists t'. split; [done|].
              intros m Hm. apply Hwin. simpl. lia.
      * split; [by apply sublist_cons|]. split; [exact Hall'|].
        intros log' Hin Hp Hwin. apply elem_of_cons in Hin as [->|Hin].
        -- destruct Hwin as (t' & Ht' & _). rewrite Ht in Ht'. discriminate Ht'.
        -- apply Hkeep; [done|done|].
           destruct Hwin as (t' & Ht' & Hwin). exists t'. split; [done|].
           intros m Hm. apply Hwin. simpl. lia.
    + rewrite (bool_decide_eq_false_2 _ Hpid).
      destruct (IH n) as (Hsub & Hall & Hkeep).
      split; [by apply sublist_cons|]. split.
      * eapply Forall_impl; [exact Hall|]. intros log' (Hp & t & m & Ht & Hm & Hw).
        split; [done|]. exists t, m. split; [done|]. split; [simpl; lia|done].
      * intros log' Hin Hp Hwin. apply elem_of_cons in Hin as [->|Hin]; [done|].
        apply Hkeep; [done|done|].
        destruct Hwin as (t' & Ht' & Hwin). exists t'. split; [done|].
        intros m Hm. apply Hwin. simpl. lia.
Qed.

(** X14. What [analyzeParticipantBehavior] reports is computed from the
    entries of the participant in the window.  The call reads at most 100
    entries of the session with [getModerationLogs] and always returns an
    analysis, never an error.  The entries it counts are those of the
    participant that were less than [timeWindow] old at the reading of the
    clock they were compared with, in the order of the log: the message
    count is their number, the flagged count the number of those whose
    severity is not none, and every count of the severity distribution
    (under a key that a plain object does not inherit) the number of those
    of that severity.  The patterns are, in this order, high_volume for
    more than 10 entries, frequently_flagged when more than three in ten
    are flagged, and crisis_indicators exactly when one of the entries is
    critical; the risk score is the smaller of 100 and 10 per flagged
    entry plus 50 per critical entry plus 20 per entry of severity high
    plus 5 per pattern.  Hence the flagged count is at most the message
    count, the score lies between 0 and 100 and is at least 65 with a
    critical entry, and a participant without entries in the window gets
    score 0 and no pattern. *)
Theorem behavior_analysis_bounds (sessionId participantId : string) (timeWindow : Z)
    (w : World) :
  ∃ logs w1 b,
    getModerationLogs sessionId 100 w = (Ok logs, w1)
    ∧ (length logs ≤ 100)%nat
    ∧ (analyzeParticipantBehavior sessionId participantId timeWindow w).1
      = Ok (BehaviorOf b)
    ∧ let kept := inWindow (clock w1) (clockReads w1) participantId timeWindow logs in
      let flaggedCount := length (filter flagged kept) in
      let critical := length (ofSeverity "critical" kept) in
      let high := length (ofSeverity "high" kept) in
      kept `sublist_of` logs
      ∧ Forall (λ log, participantIdOf log = Some (VStr participantId)
                       ∧ ∃ t m, timestampOf log = Some t
                                ∧ (clockReads w1 ≤ m < clockReads w1 + length logs)%nat
                                ∧ (clock w1 m - t < timeWindow)%Z) kept
      ∧ (∀ log, log ∈ logs → participantIdOf log = Some (VStr participantId) →
           (∃ t, timestampOf log = Some t
                 ∧ ∀ m, (clockReads w1 ≤ m < clockReads w1 + length logs)%nat →
                        (clock w1 m - t < timeWindow)%Z) →
           log ∈ kept)
      ∧ b_participantId b = participantId
      ∧ b_timeWindow b = (inject_Z timeWindow / 1000)%Q
      ∧ b_messageCount b = length kept
      ∧ b_flaggedCount b = flaggedCount
      ∧ (∀ key, key ∉ Js.inheritedNames →
           countOf key (b_severityDistribution b) = length (ofSeverity key kept))
      ∧ b_patterns b
        = ((if bool_decide (10 < length kept)%nat then ["high_volume"] else [])
           ++ (if frequentlyFlagged flaggedCount (length kept)
               then ["frequently_flagged"] else [])
           ++ (if bool_decide (0 < critical)%nat then ["crisis_indicators"] else []))%list
      ∧ b_riskScore b
        = Z.min 100 (Z.of_nat flaggedCount * 10 + Z.of_nat critical * 50
                     + Z.of_nat high * 20 + Z.of_nat (length (b_patterns b)) * 5)
      ∧ ("crisis_indicators" ∈ b_patterns b
         ↔ ∃ log, log ∈ kept ∧ keyOf (severityOf log) = "critical")
      ∧ (b_flaggedCount b ≤ b_messageCount b ≤ 100)%nat
      ∧ (0 ≤ b_riskScore b ≤ 100)%Z
      ∧ ((∃ log, log ∈ kept ∧ keyOf (severityOf log) = "critical") →
         (65 ≤ b_riskScore b)%Z)
      ∧ (kept = [] → b = blankBehavior participantId timeWindow).
Proof.
  destruct (getModerationLogs_length sessionId 100 w) as (logs & w1 & Hlogs & Hlen & _);
    [lia|].
  destruct (recentLogsOf_inWindow participantId timeWindow logs w1) as (n & Hkept).
  destruct (inWindow_spec (clock w1) participantId timeWindow logs (clockReads w1))
    as (Hsub & Hall & Hkeep).
  set (kept := inWindow (clock w1) (clockReads w1) participantId timeWindow logs) in *.
  destruct (behaviorOf_bounds participantId timeWindow kept)
    as (Hflag & Hcount & Hscore & _ & Hdist & Hcrisis & Hhigh & Hblank).
  cbv zeta in *.
  exists logs, w1, (behaviorOf participantId timeWindow kept).
  split; [exact Hlogs|]. split; [lia|]. split.
  { unfold analyzeParticipantBehavior, try_catch, mbind, M_bind. by rewrite Hlogs, Hkept. }
  assert (∀ key, countOf key (b_severityDistribution (behaviorOf participantId timeWindow kept))
                 = length (ofSeverity key kept)) as Hdist' by exact Hdist.
  assert ((0 < length (ofSeverity "critical" kept))%nat
          ↔ ∃ log, log ∈ kept ∧ keyOf (severityOf log) = "critical") as Hex.
  { unfold ofSeverity. split.
    - intros Hpos. by apply filter_length_pos_inv in Hpos.
    - intros (log & Hin & Hc). by apply (filter_length_pos _ _ log). }
  split; [exact Hsub|]. split; [exact Hall|]. split; [exact Hkeep|].
  split; [reflexivity|]. split; [reflexivity|]. split; [reflexivity|].
  split; [reflexivity|]. split; [intros key _; apply Hdist'|].
  split; [unfold behaviorOf; cbn [b_patterns]; by rewrite Hdist'|].
  split; [unfold behaviorOf; cbn [b_patterns b_riskScore]; by rewrite !Hdist'|].
  split; [by rewrite Hcrisis, Hdist'|].
  split.
  { split; [exact Hflag|]. rewrite Hcount. apply sublist_length in Hsub. lia. }
  split; [exact Hscore|].
  split; [intros Hc; apply Hhigh; rewrite Hdist'; by apply Hex|].
  intros Hnil. apply Hblank. rewrite Hcount. fold kept in Hnil. by rewrite Hnil.
Qed.

(** X15. With the Redis client, a read of the moderation list that is
    rejected is not reported: [analyzeParticipantBehavior] returns the
    analysis of a participant of whom nothing is known (no message, no
    pattern, risk score 0), whatever the store holds; the only trace is
    a line on the console. *)
Theorem rejected_read_looks_like_a_clean_record (sessionId participantId : string)
    (timeWindow : Z) (w : World) (db : RedisDb) :
  redis w = Some db →
  redisFault w (length (redisLog w)) = true →
  let r := analyzeParticipantBehavior sessionId participantId timeWindow w in
  r.1 = Ok (BehaviorOf (blankBehavior participantId timeWindow))
  ∧ console (world_of r) = (console w ++ ["Failed to get moderation logs:"])%list
  ∧ redis (world_of r) = Some db.
Proof.
  intros Hdb Hko. cbv zeta. unfold world_of.
  unfold analyzeParticipantBehavior, try_catch, mbind, M_bind.
  rewrite (getModerationLogs_rejected _ _ _ db) by done.
  cbn [recentLogsOf]. unfold mret, M_ret. cbn [fst snd].
  split; [reflexivity|]. split; [reflexivity|]. exact Hdb.
Qed.

Lemma rejected_read_looks_like_a_clean_record_witness :
  (∃ db e, redis (world_of (RedisSessionManager.logModerationEvent (Some "room-1") crisisEvent
                              (redisWorld AIRejects fourthCommandFails))) = Some db
           ∧ readKey db (ml_id e) = Some (SModeration e)
           ∧ me_severity (ml_event e) = "critical"
           ∧ listedKeys db "room-1" = [ml_id e])
  ∧ (analyzeParticipantBehavior "room-1" "anon-7" defaultTimeWindow
       (world_of (RedisSessionManager.logModerationEvent (Some "room-1") crisisEvent
                    (redisWorld AIRejects fourthCommandFails)))).1
    = Ok (BehaviorOf (blankBehavior "anon-7" defaultTimeWindow)).
Proof.
  split.
  { eexists _, (moderationEntryAt (Some "room-1") crisisEvent
                  (redisWorld AIRejects fourthCommandFails)).
    split; [vm_compute; reflexivity|]. split; [vm_compute; reflexivity|].
    split; [reflexivity|]. vm_compute. reflexivity. }
  destruct (rejected_read_looks_like_a_clean_record "room-1" "anon-7" defaultTimeWindow
              (world_of (RedisSessionManager.logModerationEvent (Some "room-1") crisisEvent
                           (redisWorld AIRejects fourthCommandFails)))
              (dbAfterLog emptyDb (moderationEntryAt (Some "room-1") crisisEvent
                                     (redisWorld AIRejects fourthCommandFails))))
    as (Hret & _); [vm_compute; reflexivity|vm_compute; reflexivity|].
  exact Hret.
Defined.

(** In memory mode, a verdict the rule stage settles alone is appended
    to the log under the session and participant of the context. *)
Lemma analyzeContent_memory_skipped content ctx w :
  redis w = None →
  aiStageDue content (applyRuleBasedModeration content) = false →
  let v := ruleVerdict content ctx w in
  let w0 := with_clockReads (S (clockReads w)) w in
  analyzeContent content ctx w
  = (Ok v,
     with_moderationLogs
       (moderationLogs w ++ [moderationEntryAt (c_sessionId ctx) (eventOf v) w0])
       (with_clockReads (S (S (S (clockReads w)))) w)).
Proof.
  intros Hmem Hskip. cbv zeta. rewrite analyzeContent_skipped by done.
  rewrite serviceLog_world, logModerationEvent_memory by done. reflexivity.
Qed.

Lemma crisis_skips_ai content :
  existsb (keywordHit content) crisisKeywords = true →
  aiStageDue content (applyRuleBasedModeration content) = false
  ∧ r_severity (applyRuleBasedModeration content) = "critical"
  ∧ r_action (applyRuleBasedModeration content) = "immediate_intervention".
Proof.
  intros Hhit. pose proof (crisis_hit_is_critical content Hhit) as Htuple.
  apply tupleOf_fields in Htuple as (Hs & Ha & _ & Hd).
  split; [|done]. unfold aiStageDue. rewrite Hd. apply andb_false_r.
Qed.

Lemma entry_fields sid ev w :
  ml_sessionId (moderationEntryAt sid ev w) = sid
  ∧ ml_event (moderationEntryAt sid ev w) = ev
  ∧ ml_timestamp (moderationEntryAt sid ev w) = clock w (S (clockReads w)).
Proof. done. Qed.

Lemma eventOf_fields a :
  me_severity (eventOf a) = a_severity a
  ∧ me_action (eventOf a) = a_action a
  ∧ me_participantId (eventOf a) = a_participantId a
  ∧ me_flags (eventOf a) = a_flags a.
Proof. done. Qed.

Lemma ruleVerdict_context content ctx w :
  a_sessionId (ruleVerdict content ctx w) = c_sessionId ctx
  ∧ a_participantId (ruleVerdict content ctx w) = c_participantId ctx.
Proof. done. Qed.

(** The analysis of a participant whose critical entry is the newest of
    a session that the array holds in full. *)
Lemma behavior_after_critical_entry sid pid tw w older entry :
  redis w = None →
  sessionLogs w sid = (older ++ [entry])%list →
  (length older < 100)%nat →
  me_participantId (ml_event entry) = Some pid →
  me_severity (ml_event entry) = "critical" →
  (∀ m, (clockReads w ≤ m < clockReads w + 100)%nat →
        (clock w m - ml_timestamp entry < tw)%Z) →
  ∃ b, behaviorIn (analyzeParticipantBehavior sid pid tw w) = Some b
     ∧ "crisis_indicators" ∈ b_patterns b
     ∧ (1 ≤ b_flaggedCount b)%nat
     ∧ (65 ≤ b_riskScore b)%Z.
Proof.
  intros Hmem Hlogs Hroom Hpid Hsev Hclock.
  unfold analyzeParticipantBehavior, try_catch, mbind, M_bind, behaviorIn.
  rewrite getModerationLogs_memory by done.
  rewrite Hlogs, slice0_take, take_ge by (rewrite ?length_app; simpl; lia).
  destruct (recentLogsOf_run pid tw (SModeration <$> (older ++ [entry])%list) w)
    as (kept & n & Hrun & _ & Hkeep).
  rewrite Hrun. unfold mret, M_ret. cbn [fst].
  assert (SModeration entry ∈ kept) as Hin.
  { apply Hkeep.
    - rewrite fmap_app. apply elem_of_app. right. apply elem_of_cons. by left.
    - simpl. by rewrite Hpid.
    - exists (ml_timestamp entry). split; [reflexivity|].
      intros m Hm. apply Hclock. rewrite length_fmap, length_app in Hm. simpl in Hm. lia. }
  assert (keyOf (severityOf (SModeration entry)) = "critical") as Hkey by exact Hsev.
  destruct (behaviorOf_bounds pid tw kept) as (_ & _ & _ & _ & Hdist & Hcrisis & Hscore & _).
  cbv zeta in *.
  assert (0 < countOf "critical" (b_severityDistribution (behaviorOf pid tw kept)))%nat
    as Hcount.
  { rewrite Hdist. by apply (filter_length_pos _ _ (SModeration entry)). }
  eexists. split; [reflexivity|]. split; [by apply Hcrisis|]. split; [|by apply Hscore].
  apply (filter_length_pos _ _ (SModeration entry)); [done|].
  by apply critical_is_flagged.
Qed.

(** X16. A crisis message shows in the behaviour analysis of its author.
    In memory mode, after [analyzeContent] has analysed a message with a
    crisis keyword for a participant of a session that holds fewer than
    100 entries, [analyzeParticipantBehavior] for that participant, run
    while the clock is within the time window of the entry, reports the
    pattern crisis_indicators, at least one flagged message and a risk
    score of at least 65. *)
Theorem crisis_message_raises_the_risk_score (content sessionId participantId : string)
    (timeWindow : Z) (w : World) :
  redis w = None →
  existsb (keywordHit content) crisisKeywords = true →
  (length (sessionLogs w sessionId) < 100)%nat →
  (∀ n, (n < clockReads w + 103)%nat →
        (clock w n - clock w (S (S (clockReads w))) < timeWindow)%Z) →
  let w1 := world_of (analyzeContent content (contextOf sessionId participantId) w) in
  ∃ b, behaviorIn (analyzeParticipantBehavior sessionId participantId timeWindow w1) = Some b
     ∧ "crisis_indicators" ∈ b_patterns b
     ∧ (1 ≤ b_flaggedCount b)%nat
     ∧ (65 ≤ b_riskScore b)%Z.
Proof.
  intros Hmem Hhit Hroom Hclock. cbv zeta. unfold world_of.
  destruct (crisis_skips_ai content Hhit) as (Hskip & Hsev & Hact).
  rewrite analyzeContent_memory_skipped by done. cbv zeta. cbn [snd].
  destruct (ruleVerdict_fields content (contextOf sessionId participantId) w) as (Hs & _).
  cbv zeta in Hs. rewrite Hsev in Hs.
  destruct (ruleVerdict_context content (contextOf sessionId participantId) w) as (_ & Hp).
  generalize dependent (ruleVerdict content (contextOf sessionId participantId) w).
  intros v Hs Hp.
  apply (behavior_after_critical_entry _ _ _ _ (sessionLogs w sessionId)
           (moderationEntryAt (Some sessionId) (eventOf v)
              (with_clockReads (S (clockReads w)) w))).
  - exact Hmem.
  - unfold sessionLogs. cbn [moderationLogs with_moderationLogs with_clockReads c_sessionId
                              contextOf].
    rewrite filter_app, filter_cons, decide_True by done. done.
  - exact Hroom.
  - cbn [ml_event moderationEntryAt]. destruct (eventOf_fields v) as (_ & _ & -> & _).
    exact Hp.
  - cbn [ml_event moderationEntryAt]. destruct (eventOf_fields v) as (-> & _). exact Hs.
  - intros m Hm. apply Hclock. cbn [clockReads with_moderationLogs with_clockReads] in Hm.
    lia.
Qed.

Lemma crisis_message_raises_the_risk_score_witness :
  redis (blankWorld AIRejects) = None
  ∧ existsb (keywordHit "I want to die") crisisKeywords = true
  ∧ ∃ b, behaviorIn (analyzeParticipantBehavior "room-1" "anon-7" defaultTimeWindow
                       (world_of (analyzeContent "I want to die" (contextOf "room-1" "anon-7")
                                    (blankWorld AIRejects)))) = Some b
       ∧ (65 ≤ b_riskScore b)%Z.
Proof.
  split; [reflexivity|]. split; [vm_compute; reflexivity|].
  destruct (crisis_message_raises_the_risk_score "I want to die" "room-1" "anon-7"
              defaultTimeWindow (blankWorld AIRejects))
    as (b & Hb & _ & _ & Hscore).
  - reflexivity.
  - vm_compute; reflexivity.
  - simpl. lia.
  - intros n Hn. unfold blankWorld, defaultTimeWindow. simpl in *. lia.
  - exists b. split; [exact Hb|exact Hscore].
Defined.

Lemma tally_moderation entries : ∀ severityBreakdown topFlags w,
  tally (SModeration <$> entries) severityBreakdown topFlags w
  = (Ok (foldl (λ counts log, bump (keyOf (severityOf log)) counts) severityBreakdown
               (SModeration <$> entries),
         foldl (λ counts e, foldl (λ counts flag, bump (flagType flag) counts) counts
                              (me_flags (ml_event e))) topFlags entries),
     w).
Proof.
  induction entries as [|e entries IH]; intros sb tf w; [done|].
  cbn [fmap list_fmap tally flagsField foldl]. by rewrite IH.
Qed.

Lemma tally_run logs : ∀ severityBreakdown topFlags w,
  (tally logs severityBreakdown topFlags w).2 = w
  ∧ match (tally logs severityBreakdown topFlags w).1 with
    | Ok counts =>
        counts.1 = foldl (λ counts log, bump (keyOf (severityOf log)) counts)
                         severityBreakdown logs
    | Throw _ => True
    end.
Proof.
  induction logs as [|log logs IH]; intros sb tf w; [done|].
  cbn [tally foldl]. destruct (flagsField log) as [message|flags]; [done|]. apply IH.
Qed.

Lemma generateSessionSummary_memory sid w :
  redis w = None →
  generateSessionSummary sid w
  = (Ok (SummaryOf (memorySummary sid (take 50 (sessionLogs w sid)))), w).
Proof.
  intros Hmem. unfold generateSessionSummary, try_catch, mbind, M_bind.
  rewrite getModerationLogs_memory by done.
  rewrite slice0_take by (unfold defaultLimit; lia).
  change (Z.to_nat defaultLimit) with 50%nat.
  by rewrite tally_moderation.
Qed.

Lemma summaryOf_bounds sid logs topFlags :
  let s := summaryOf sid logs
             (foldl (λ counts log, bump (keyOf (severityOf log)) counts) ∅ logs) topFlags in
  s_totalMessages s = length logs
  ∧ (s_flaggedMessages s ≤ s_totalMessages s)%nat
  ∧ (s_interventions s ≤ s_totalMessages s)%nat
  ∧ (∀ key, countOf key (s_severityBreakdown s)
            = length (filter (λ log, keyOf (severityOf log) = key) logs))
  ∧ (countOf "critical" (s_severityBreakdown s) ≤ s_flaggedMessages s)%nat
  ∧ (s_overallRisk s = "high"
     ↔ ∃ log, log ∈ logs
              ∧ (actionOf log = Some (VStr "immediate_intervention")
                 ∨ keyOf (severityOf log) = "critical"))
  ∧ (s_overallRisk s = "medium"
     ↔ s_overallRisk s ≠ "high" ∧ (3 < countOf "high" (s_severityBreakdown s))%nat)
  ∧ (s_overallRisk s = "high" ∨ s_overallRisk s = "medium" ∨ s_overallRisk s = "low").
Proof.
  cbv zeta. unfold summaryOf. cbv zeta.
  cbn [s_totalMessages s_flaggedMessages s_interventions s_severityBreakdown s_overallRisk].
  set (dist := foldl _ ∅ logs).
  assert (∀ key, countOf key dist
                 = length (filter (λ log, keyOf (severityOf log) = key) logs)) as Hdist.
  { intros key. unfold dist. rewrite countOf_tallied. unfold countOf at 1.
    by rewrite lookup_empty. }
  set (interventions :=
         length (filter (λ log, actionOf log = Some (VStr "immediate_intervention")) logs)).
  split; [done|]. split; [apply length_filter|]. split; [apply length_filter|].
  split; [exact Hdist|]. split.
  { rewrite Hdist. apply filter_length_mono. intros log. apply critical_is_flagged. }
  assert (bool_decide (0 < interventions)%nat || bool_decide (0 < countOf "critical" dist)%nat
          = true
          ↔ ∃ log, log ∈ logs
                   ∧ (actionOf log = Some (VStr "immediate_intervention")
                      ∨ keyOf (severityOf log) = "critical")) as Hhigh.
  { rewrite orb_true_iff, !bool_decide_eq_true, Hdist. unfold interventions. split.
    - intros [Hpos|Hpos].
      + apply filter_length_pos_inv in Hpos as (log & Hin & Ha).
        exists log. split; [done|by left].
      + apply filter_length_pos_inv in Hpos as (log & Hin & Hc).
        exists log. split; [done|by right].
    - intros (log & Hin & [Ha|Hc]).
      + left. by apply (filter_length_pos _ _ log).
      + right. by apply (filter_length_pos _ _ log). }
  destruct (bool_decide (0 < interventions)%nat || bool_decide (0 < countOf "critical" dist)%nat)
    eqn:Hrisk.
  - split; [split; [intros _; by apply Hhigh|done]|].
    split; [split; [done|intros [Hne _]; done]|]. by left.
  - assert (¬ ∃ log, log ∈ logs
                     ∧ (actionOf log = Some (VStr "immediate_intervention")
                        ∨ keyOf (severityOf log) = "critical")) as Hnone.
    { intros Hex. apply Hhigh in Hex. discriminate Hex. }
    destruct (decide (3 < countOf "high" dist)%nat) as [H3|H3].
    + rewrite (bool_decide_eq_true_2 _ H3).
      split; [split; [done|intros Hex; by destruct Hnone]|].
      split; [split; [done|done]|]. right. by left.
    + rewrite (bool_decide_eq_false_2 _ H3).
      split; [split; [done|intros Hex; by destruct Hnone]|].
      split; [split; [done|intros [_ Hgt]; done]|]. right. by right.
Qed.

Lemma generateSessionSummary_run sid w :
  ∃ logs w1,
    getModerationLogs sid defaultLimit w = (Ok logs, w1)
    ∧ (length logs ≤ 50)%nat
    ∧ ((∃ topFlags,
          (generateSessionSummary sid w).1
          = Ok (SummaryOf
                  (summaryOf sid logs
                     (foldl (λ counts log, bump (keyOf (severityOf log)) counts) ∅ logs)
                     topFlags)))
       ∨ ((∃ message, (generateSessionSummary sid w).1 = Ok (SummaryError message))
          ∧ memoryMode w = false)).
Proof.
  destruct (getModerationLogs_length sid defaultLimit w) as (logs & w1 & Hlogs & Hlen & Hmemory);
    [unfold defaultLimit; lia|].
  exists logs, w1. split; [done|]. split; [exact Hlen|].
  unfold generateSessionSummary, try_catch, mbind, M_bind. rewrite Hlogs.
  destruct (tally_run logs ∅ ∅ w1) as [Hworld Hcounts].
  destruct (tally logs ∅ ∅ w1) as [[[sb tf]|message] w2] eqn:Htally; cbn [fst snd] in *.
  - left. exists tf. unfold mret, M_ret. cbn [fst]. by rewrite Hcounts.
  - right. split; [by eexists|].
    unfold memoryMode. destruct (redis w) as [db|] eqn:Hdb; [done|].
    destruct Hmemory as [-> Hall]; [done|].
    assert (∃ entries, logs = SModeration <$> entries) as [entries ->].
    { clear -Hall. induction logs as [|log logs IH]; [by exists []|].
      apply Forall_cons in Hall as [[e ->] Hall]. destruct (IH Hall) as [entries ->].
      by exists (e :: entries). }
    rewrite tally_moderation in Htally. discriminate Htally.
Qed.

(** X17. What [generateSessionSummary] reports is computed from the
    entries it read.  The call reads at most 50 entries of the session
    with [getModerationLogs] and never throws: it returns a summary or an
    error object.  Whenever it returns a summary, the total is the number
    of entries read, the flagged count the number of those whose severity
    is not none, the interventions the number of those whose action is
    immediate_intervention, and every count of the severity breakdown
    (under a key that a plain object does not inherit) the number of those
    of that severity.  The overall risk is high exactly when an entry
    carries the action immediate_intervention or the severity critical,
    medium exactly when none does and more than three entries are of
    severity high, and low otherwise.  Hence flagged messages,
    interventions and critical entries are at most the total, and the
    critical ones are among the flagged. *)
Theorem session_summary_bounds (sessionId : string) (w : World) :
  let r := generateSessionSummary sessionId w in
  ∃ logs w1,
    getModerationLogs sessionId defaultLimit w = (Ok logs, w1)
    ∧ (length logs ≤ 50)%nat
    ∧ ((∃ s, r.1 = Ok (SummaryOf s)) ∨ (∃ message, r.1 = Ok (SummaryError message)))
    ∧ ∀ s, r.1 = Ok (SummaryOf s) →
        let alarming :=
          ∃ log, log ∈ logs
                 ∧ (actionOf log = Some (VStr "immediate_intervention")
                    ∨ keyOf (severityOf log) = "critical") in
        s_sessionId s = sessionId
        ∧ s_totalMessages s = length logs
        ∧ s_flaggedMessages s = length (filter flagged logs)
        ∧ s_interventions s
          = length (filter (λ log, actionOf log = Some (VStr "immediate_intervention")) logs)
        ∧ (∀ key, key ∉ Js.inheritedNames →
             countOf key (s_severityBreakdown s) = length (ofSeverity key logs))
        ∧ (s_overallRisk s = "high" ↔ alarming)
        ∧ (s_overallRisk s = "medium"
           ↔ ¬ alarming ∧ (3 < length (ofSeverity "high" logs))%nat)
        ∧ (s_overallRisk s = "low"
           ↔ ¬ alarming ∧ (length (ofSeverity "high" logs) ≤ 3)%nat)
        ∧ (s_totalMessages s ≤ 50)%nat
        ∧ (s_flaggedMessages s ≤ s_totalMessages s)%nat
        ∧ (s_interventions s ≤ s_totalMessages s)%nat
        ∧ (length (ofSeverity "critical" logs) ≤ s_flaggedMessages s)%nat.
Proof.
  cbv zeta.
  destruct (generateSessionSummary_run sessionId w)
    as (logs & w1 & Hlogs & Hlen & Hrun).
  exists logs, w1. split; [exact Hlogs|]. split; [exact Hlen|]. split.
  { destruct Hrun as [[topFlags Hrun]|[Herror _]]; [left; by eexists|by right]. }
  intros s Hs.
  destruct Hrun as [[topFlags Hrun]|[[message Herror] _]];
    [|rewrite Herror in Hs; discriminate Hs].
  rewrite Hrun in Hs. injection Hs as <-.
  destruct (summaryOf_bounds sessionId logs topFlags)
    as (Htotal & Hflag & Hint & Hdist & Hcrit & Hhigh & Hmedium & Hrisk).
  cbv zeta in *.
  set (s := summaryOf sessionId logs _ topFlags) in *.
  assert (∀ key, countOf key (s_severityBreakdown s) = length (ofSeverity key logs))
    as Hdist' by exact Hdist.
  split; [reflexivity|]. split; [exact Htotal|]. split; [reflexivity|].
  split; [reflexivity|]. split; [intros key _; apply Hdist'|].
  split; [exact Hhigh|]. split.
  { rewrite Hmedium, Hhigh, Hdist'. done. }
  split.
  { rewrite <- Hhigh, <- Hdist'. split.
    - intros Hlow. split; [rewrite Hlow; discriminate|].
      destruct (decide (3 < countOf "high" (s_severityBreakdown s))%nat) as [H3|H3]; [|lia].
      assert (s_overallRisk s = "medium") as Hm.
      { apply Hmedium. split; [rewrite Hlow; discriminate|done]. }
      rewrite Hlow in Hm. discriminate Hm.
    - intros [Hnot Hle]. destruct Hrisk as [Hr|[Hr|Hr]]; [done| |done].
      apply Hmedium in Hr as [_ Hgt]. lia. }
  split; [rewrite Htotal; exact Hlen|]. split; [exact Hflag|]. split; [exact Hint|].
  rewrite <- Hdist'. exact Hcrit.
Qed.

(** A session of the array with one entry, which called for an
    intervention. *)
Lemma session_summary_bounds_witness :
  ∃ s, (generateSessionSummary "room-1"
          (with_moderationLogs
             [moderationEntryAt (Some "room-1") crisisEvent (blankWorld AIRejects)]
             (blankWorld AIRejects))).1 = Ok (SummaryOf s)
     ∧ s_totalMessages s = 1%nat
     ∧ s_interventions s = 1%nat
     ∧ s_overallRisk s = "high".
Proof.
  destruct (session_summary_bounds "room-1"
              (with_moderationLogs
                 [moderationEntryAt (Some "room-1") crisisEvent (blankWorld AIRejects)]
                 (blankWorld AIRejects)))
    as (logs & w1 & Hlogs & _ & [[s Hs]|[message Herror]] & Hsummary).
  - exists s. split; [exact Hs|].
    destruct (Hsummary s Hs) as (_ & Htotal & _ & Hint & _ & Hhigh & _).
    rewrite getModerationLogs_memory in Hlogs by reflexivity.
    injection Hlogs as <- <-.
    split; [exact Htotal|]. split; [exact Hint|].
    apply Hhigh. eexists. split; [apply elem_of_cons; left; reflexivity|].
    left. reflexivity.
  - vm_compute in Herror. discriminate Herror.
Defined.

(** The summary of a session whose newest entry, held by the array among
    its first fifty, called for an intervention. *)
Lemma summary_after_intervention sid w older entry :
  redis w = None →
  sessionLogs w sid = (older ++ [entry])%list →
  (length older < 50)%nat →
  me_action (ml_event entry) = "immediate_intervention" →
  ∃ s, summaryIn (generateSessionSummary sid w) = Some s
     ∧ s_overallRisk s = "high"
     ∧ (1 ≤ s_interventions s)%nat
     ∧ s_totalMessages s = S (length older).
Proof.
  intros Hmem Hlogs Hroom Haction. rewrite generateSessionSummary_memory by done.
  rewrite Hlogs, take_ge by (rewrite length_app; simpl; lia).
  unfold summaryIn. cbn [fst]. eexists. split; [reflexivity|].
  unfold memorySummary, summaryOf. cbv zeta.
  cbn [s_overallRisk s_interventions s_totalMessages].
  assert (0 < length (filter (λ log, actionOf log = Some (VStr "immediate_intervention"))
                             (SModeration <$> (older ++ [entry])%list)))%nat as Hpos.
  { apply (filter_length_pos _ _ (SModeration entry)).
    - rewrite fmap_app. apply elem_of_app. right. apply elem_of_cons. by left.
    - simpl. by rewrite Haction. }
  rewrite (bool_decide_eq_true_2 _ Hpos). split; [done|]. split; [lia|].
  rewrite length_fmap, length_app. simpl. lia.
Qed.

(** X18. A crisis message in the summary of its session, in memory mode.
    After [analyzeContent] has analysed a message with a crisis keyword
    for a session that holds fewer than 50 entries,
    [generateSessionSummary] counts it as an intervention and rates the
    session high.  For a session that already holds 50 entries the
    summary is what it was before the message: the entry is logged but
    never summarised. *)
Theorem crisis_message_in_the_summary (content sessionId participantId : string)
    (w : World) :
  redis w = None →
  existsb (keywordHit content) crisisKeywords = true →
  let w1 := world_of (analyzeContent content (contextOf sessionId participantId) w) in
  ((length (sessionLogs w sessionId) < 50)%nat →
   ∃ s, summaryIn (generateSessionSummary sessionId w1) = Some s
      ∧ s_overallRisk s = "high"
      ∧ (1 ≤ s_interventions s)%nat
      ∧ s_totalMessages s = S (length (sessionLogs w sessionId)))
  ∧ ((50 ≤ length (sessionLogs w sessionId))%nat →
     length (sessionLogs w1 sessionId) = S (length (sessionLogs w sessionId))
     ∧ (generateSessionSummary sessionId w1).1 = (generateSessionSummary sessionId w).1).
Proof.
  intros Hmem Hhit. cbv zeta. unfold world_of.
  destruct (crisis_skips_ai content Hhit) as (Hskip & Hsev & Hact).
  rewrite analyzeContent_memory_skipped by done. cbv zeta. cbn [snd].
  destruct (ruleVerdict_fields content (contextOf sessionId participantId) w)
    as (_ & Ha & _).
  cbv zeta in Ha. rewrite Hact in Ha.
  generalize dependent (ruleVerdict content (contextOf sessionId participantId) w).
  intros v Ha.
  set (entry := moderationEntryAt (c_sessionId (contextOf sessionId participantId))
                  (eventOf v) (with_clockReads (S (clockReads w)) w)).
  set (w1 := with_moderationLogs _ _).
  assert (sessionLogs w1 sessionId = (sessionLogs w sessionId ++ [entry])%list) as Hlogs.
  { unfold sessionLogs, w1. cbn [moderationLogs with_moderationLogs].
    rewrite filter_app, filter_cons, decide_True by done. done. }
  split.
  - intros Hroom.
    by apply (summary_after_intervention _ _ (sessionLogs w sessionId) entry).
  - intros Hfull. split; [rewrite Hlogs, length_app; simpl; lia|].
    rewrite !generateSessionSummary_memory by done. cbn [fst].
    by rewrite Hlogs, take_app_le by lia.
Qed.

Lemma crisis_message_in_the_summary_witness :
  redis (blankWorld AIRejects) = None
  ∧ existsb (keywordHit "I want to die") crisisKeywords = true
  ∧ ∃ s, summaryIn (generateSessionSummary "room-1"
                      (world_of (analyzeContent "I want to die" (contextOf "room-1" "anon-7")
                                   (blankWorld AIRejects)))) = Some s
       ∧ s_overallRisk s = "high"
       ∧ s_totalMessages s = 1%nat.
Proof.
  split; [reflexivity|]. split; [vm_compute; reflexivity|].
  destruct (crisis_message_in_the_summary "I want to die" "room-1" "anon-7"
              (blankWorld AIRejects)) as [Hfresh _].
  - reflexivity.
  - vm_compute; reflexivity.
  - destruct Hfresh as (s & Hs & Hrisk & _ & Htotal); [simpl; lia|].
    exists s. split; [exact Hs|]. split; [exact Hrisk|exact Htotal].
Defined.

(* ===================================================================== *)
(** * What routes a message past the classifier *)
(* ===================================================================== *)

Lemma startsWith_split needle : ∀ hay,
  Js.startsWith needle hay = true → ∃ rest, hay = needle ++ rest.
Proof.
  induction needle as [|c needle IH]; intros hay Hstarts.
  - by exists hay.
  - destruct hay as [|d hay]; [done|]. simpl in Hstarts.
    destruct (decide (c = d)) as [->|]; [|done].
    destruct (IH hay Hstarts) as [rest ->]. exists rest. by rewrite append_cons.
Qed.

Lemma indexOf_from_split needle hay : ∀ i,
  is_Some (Js.indexOf_from i needle hay) → occursIn needle hay.
Proof.
  induction hay as [|c hay IH]; intros i Hfound; rewrite indexOf_from_unfold in Hfound.
  - destruct (Js.startsWith needle "") eqn:Hstarts; [|by destruct Hfound].
    apply startsWith_split in Hstarts as [rest Hrest]. exists "", rest. exact Hrest.
  - destruct (Js.startsWith needle (String c hay)) eqn:Hstarts.
    + apply startsWith_split in Hstarts as [rest Hrest]. exists "", rest. exact Hrest.
    + destruct (IH _ Hfound) as (before & after & ->).
      exists (String c before), after. by rewrite append_cons.
Qed.

Lemma includes_iff hay needle : Js.includes hay needle = true ↔ occursIn needle hay.
Proof.
  unfold Js.includes. rewrite bool_decide_eq_true. split.
  - apply indexOf_from_split.
  - intros (before & after & ->). apply indexOf_from_app.
Qed.

Lemma crisis_matched_iff content :
  categoryMatched content "crisis_detection" = true ↔ mentionsCrisis content.
Proof.
  destruct moderationRules_by_category as (L0 & _).
  erewrite (categoryMatched_keywords content "crisis_detection");
    [|rewrite L0; reflexivity|reflexivity|reflexivity].
  fold crisisKeywords. unfold mentionsCrisis. rewrite existsb_exists. split.
  - intros (keyword & Hin & Hhit). apply list_elem_of_In in Hin. exists keyword.
    split; [done|]. unfold keywordHit in Hhit. apply includes_iff in Hhit.
    by rewrite (crisisKeywords_lower keyword Hin) in Hhit.
  - intros (keyword & Hin & Hocc). exists keyword. split; [by apply list_elem_of_In|].
    unfold keywordHit. rewrite (crisisKeywords_lower keyword Hin). by apply includes_iff.
Qed.

Lemma definitive_of_tuple res : r_definitive res = (tupleOf res).2.
Proof. reflexivity. Qed.

Lemma rule_stage_definitive content :
  r_definitive (applyRuleBasedModeration content)
  = categoryMatched content "crisis_detection".
Proof. rewrite definitive_of_tuple. by_rule_table content. Qed.

(** X19. The crisis keywords decide the route of a message.  The rule
    stage rates a message critical, and marks its verdict definitive,
    exactly when the message in lower case contains one of the eleven
    crisis keywords; and [analyzeContent] calls the classifier exactly
    for the messages of more than 10 code units that contain none. *)
Theorem crisis_keywords_decide_the_route (content : string) (ctx : Context) (w : World) :
  (r_severity (applyRuleBasedModeration content) = "critical" ↔ mentionsCrisis content)
  ∧ (r_definitive (applyRuleBasedModeration content) = true ↔ mentionsCrisis content)
  ∧ (aiInvoked w (world_of (analyzeContent content ctx w)) = true
     ↔ (10 < String.length content)%nat ∧ ¬ mentionsCrisis content).
Proof.
  pose proof (crisis_matched_iff content) as Hcrisis.
  pose proof (rule_stage_definitive content) as Hdef.
  pose proof (rule_stage_severity content) as Hsev.
  split; [|split].
  - rewrite Hsev, <- Hcrisis.
    destruct (categoryMatched content "crisis_detection"),
             (categoryMatched content "harassment"),
             (categoryMatched content "spam"),
             (categoryMatched content "inappropriate_content"); done.
  - by rewrite Hdef.
  - unfold world_of. rewrite aiInvoked_iff. unfold aiStageDue.
    rewrite andb_true_iff, bool_decide_eq_true, negb_true_iff, Hdef, <- Hcrisis.
    split.
    + intros [Hlen Hnot]. split; [lia|]. by rewrite Hnot.
    + intros [Hlen Hnot]. split; [lia|]. by destruct (categoryMatched _ _).
Qed.

Lemma level_of_unknown severity :
  severity ∉ ["low"; "medium"; "high"; "critical"] → getSeverityLevel severity = 0%Z.
Proof.
  intros Hnot. unfold getSeverityLevel.
  repeat (destruct (decide _) as [->|?]; [done || (exfalso; apply Hnot; set_solver)|]).
  done.
Qed.

(** X20. A severity that is not one of the names low, medium, high and
    critical, spelt exactly so, counts as none: when the classifier
    answers with such a severity, [analyzeContent] returns severity,
    action and confidence of the rule stage, whatever action and
    confidence the classifier gave, and only appends the classifier's
    flags. *)
Theorem unknown_severity_is_ignored (content : string) (ctx : Context) (w : World)
    (l : list Flag) :
  aiStageDue content (applyRuleBasedModeration content) = true →
  ai_flags (aiResultFor (classifier w content)) = Arr l →
  ai_severity (aiResultFor (classifier w content)) ∉ ["low"; "medium"; "high"; "critical"] →
  ∃ v, (analyzeContent content ctx w).1 = Ok v
     ∧ a_severity v = r_severity (applyRuleBasedModeration content)
     ∧ a_action v = r_action (applyRuleBasedModeration content)
     ∧ a_confidence v = r_confidence (applyRuleBasedModeration content)
     ∧ a_flags v = (r_flags (applyRuleBasedModeration content) ++ l)%list.
Proof.
  intros Hdue Hflags Hunknown.
  pose proof (ruleVerdict_fields content ctx w) as (Hs & Ha & Hc & Hf).
  pose proof (combine_fields (ruleVerdict content ctx w) (aiResultFor (classifier w content)))
    as (Cs & Ca & Cc & Cf).
  cbv zeta in *. rewrite (level_of_unknown _ Hunknown) in Cs, Ca, Cc.
  pose proof (level_range (a_severity (ruleVerdict content ctx w))) as Hrange.
  rewrite (bool_decide_eq_false_2 (0 > _)%Z) in Cs, Ca, Cc by lia.
  pose proof (analyzeContent_ran content ctx w Hdue) as Hrun. cbv zeta in Hrun.
  rewrite Hflags in Hrun. rewrite Hrun. eexists. split; [reflexivity|].
  cbn [a_severity a_action a_confidence a_flags withAI].
  rewrite Cs, Ca, Cc, Cf, Hs, Ha, Hc, Hf. done.
Qed.

Lemma unknown_severity_is_ignored_witness :
  getSeverityLevel "CRITICAL" = 0%Z
  ∧ ∃ v, (analyzeContent quietMessage someContext (blankWorld (AIObject shoutedReply))).1 = Ok v
       ∧ a_severity v = "none"
       ∧ a_action v = "none"
       ∧ a_flags v = [AIFlag "crisis" "explicit plan"].
Proof.
  split; [reflexivity|].
  destruct (unknown_severity_is_ignored quietMessage someContext
              (blankWorld (AIObject shoutedReply)) [AIFlag "crisis" "explicit plan"])
    as (v & Hv & Hs & Ha & _ & Hf).
  - vm_compute; reflexivity.
  - reflexivity.
  - vm_compute. intros Hin.
    repeat (apply elem_of_cons in Hin as [Hin|Hin]; [discriminate Hin|]).
    by apply elem_of_nil in Hin.
  - exists v. split; [exact Hv|]. split; [by rewrite Hs|]. split; [by rewrite Ha|].
    by rewrite Hf.
Defined.

(* ===================================================================== *)
(** * The shapes of the spam rule *)
(* ===================================================================== *)

Lemma first_match_unfold p s :
  Regex.first_match p s
  = match Regex.here p s with
    | Some m => Some m
    | None => match s with
              | EmptyString => None
              | String _ t => Regex.first_match p t
              end
    end.
Proof. by destruct s. Qed.

Lemma first_match_app p before s :
  is_Some (Regex.here p s) → is_Some (Regex.first_match p (before ++ s)).
Proof.
  intros Hhere. induction before as [|c before IH].
  - rewrite append_nil_l, first_match_unfold. by destruct (Regex.here p s).
  - rewrite append_cons, first_match_unfold.
    by destruct (Regex.here p (String c (before ++ s))).
Qed.

Lemma span_app p u rest :
  every p u = true → ∃ more, Regex.span p (u ++ rest) = u ++ more.
Proof.
  induction u as [|c u IH]; intros Hall.
  - rewrite append_nil_l. by eexists.
  - simpl in Hall. apply andb_true_iff in Hall as [Hc Hall].
    destruct (IH Hall) as [more Hmore]. exists more.
    rewrite !append_cons. simpl. by rewrite Hc, Hmore.
Qed.

Lemma length_append (a b : string) :
  String.length (a ++ b) = (String.length a + String.length b)%nat.
Proof. induction a as [|c a IH]; [done|]. rewrite append_cons. simpl. by rewrite IH. Qed.

Lemma every_repeatChar c n : every (λ d, bool_decide (d = c)) (repeatChar c n) = true.
Proof. induction n as [|n IH]; [done|]. simpl. by rewrite bool_decide_eq_true_2. Qed.

Lemma length_repeatChar c n : String.length (repeatChar c n) = n.
Proof. induction n as [|n IH]; [done|]. simpl. by rewrite IH. Qed.

Lemma repeated_here_run c n rest :
  Regex.is_line_terminator c = false → (10 ≤ n)%nat →
  is_Some (Regex.repeated_here (String c (repeatChar c n) ++ rest)).
Proof.
  intros Hline Hn. rewrite append_cons. unfold Regex.repeated_here. rewrite Hline. cbv zeta.
  destruct (span_app (λ d, bool_decide (d = c)) (repeatChar c n) rest
              (every_repeatChar c n)) as [more ->].
  rewrite length_append, length_repeatChar.
  destruct (Nat.leb_spec 10 (n + String.length more)); [by eexists|lia].
Qed.

Lemma caps_here_run u rest :
  every Regex.is_upper u = true → (20 ≤ String.length u)%nat →
  is_Some (Regex.caps_here (u ++ rest)).
Proof.
  intros Hall Hlen. unfold Regex.caps_here. cbv zeta.
  destruct (span_app Regex.is_upper u rest Hall) as [more ->].
  rewrite length_append.
  destruct (Nat.leb_spec 20 (String.length u + String.length more)); [by eexists|lia].
Qed.

Lemma lit_ci_app lit rest : Regex.lit_ci lit (lit ++ rest) = Some (lit, rest).
Proof.
  induction lit as [|a lit IH]; [by destruct rest|].
  rewrite append_cons. cbn [Regex.lit_ci]. by rewrite decide_True, IH.
Qed.

Lemma lit_ci_no_s rest : Regex.lit_ci "s" ("://" ++ rest) = None.
Proof. reflexivity. Qed.

Lemma address_tail c rest :
  Regex.is_space c = false →
  ∃ tail, Regex.span (λ c, negb (Regex.is_space c)) (String c rest) = String c tail.
Proof. intros Hspace. simpl. rewrite Hspace. by eexists. Qed.

Lemma url_here_http c rest :
  Regex.is_space c = false → is_Some (Regex.url_here ("http://" ++ String c rest)).
Proof.
  intros Hspace. destruct (address_tail c rest Hspace) as [tail Htail].
  change ("http://" ++ String c rest) with ("http" ++ ("://" ++ String c rest)).
  unfold Regex.url_here. rewrite lit_ci_app, lit_ci_no_s, lit_ci_app, Htail.
  by rewrite decide_False.
Qed.

Lemma url_here_https c rest :
  Regex.is_space c = false → is_Some (Regex.url_here ("https://" ++ String c rest)).
Proof.
  intros Hspace. destruct (address_tail c rest Hspace) as [tail Htail].
  change ("https://" ++ String c rest) with ("http" ++ ("s" ++ ("://" ++ String c rest))).
  unfold Regex.url_here. rewrite !lit_ci_app, Htail.
  by rewrite decide_False.
Qed.

Lemma spamShape_matches u rest :
  spamShape u → ∃ pattern, pattern ∈ [Regex.RepeatedChars; Regex.AllCaps; Regex.Url]
                           ∧ is_Some (Regex.here pattern (u ++ rest)).
Proof.
  intros [(c & n & Hline & Hn & ->)|[[Hall Hlen]|(c & tail & Hspace & [->| ->])]].
  - exists Regex.RepeatedChars. split; [set_solver|]. by apply repeated_here_run.
  - exists Regex.AllCaps. split; [set_solver|]. by apply caps_here_run.
  - exists Regex.Url. split; [set_solver|]. simpl Regex.here.
    rewrite append_assoc, append_cons. by apply url_here_http.
  - exists Regex.Url. split; [set_solver|]. simpl Regex.here.
    rewrite append_assoc, append_cons. by apply url_here_https.
Qed.

(** X21. The spam rule catches its three shapes wherever they stand in a
    message: a code unit other than a line terminator followed by ten
    copies of itself, twenty capital letters in a row, and an http or
    https address.  Such a message is rated at least medium and carries
    a pattern flag of the spam rule with the text that matched; unless a
    crisis or harassment keyword is in it as well, the verdict of the
    rule stage is medium, auto_filter, with confidence 0.7. *)
Theorem spam_shapes_are_caught (before u after : string) :
  spamShape u →
  let content := before ++ u ++ after in
  categoryMatched content "spam" = true
  ∧ (2 ≤ getSeverityLevel (r_severity (applyRuleBasedModeration content)))%Z
  ∧ (categoryMatched content "crisis_detection" = false →
     categoryMatched content "harassment" = false →
     r_severity (applyRuleBasedModeration content) = "medium"
     ∧ r_action (applyRuleBasedModeration content) = "auto_filter"
     ∧ r_confidence (applyRuleBasedModeration content) = 0.7%Q)
  ∧ ∃ pattern matched,
      PatternFlag "spam" (Regex.toString pattern) (Some matched)
      ∈ r_flags (applyRuleBasedModeration content).
Proof.
  intros Hshape content.
  destruct (spamShape_matches u after Hshape) as (pattern & Hin & Hhere).
  pose proof (first_match_app pattern before (u ++ after) Hhere) as Hfound.
  fold content in Hfound.
  assert (Regex.test pattern content = true) as Htest.
  { unfold Regex.test. by apply bool_decide_eq_true_2. }
  assert (categoryMatched content "spam" = true) as Hspam.
  { destruct moderationRules_by_category as (_ & _ & L2 & _).
    erewrite (categoryMatched_patterns content "spam");
      [|rewrite L2; reflexivity|reflexivity|reflexivity].
    by apply (existsb_intro _ _ pattern). }
  generalize dependent content. intros content Hfound Htest Hspam.
  split; [exact Hspam|]. split; [|split].
  - rewrite rule_stage_severity, Hspam.
    destruct (categoryMatched content "crisis_detection"),
             (categoryMatched content "harassment"); vm_compute; discriminate.
  - intros Hcrisis Hharassment.
    rewrite rule_stage_severity, rule_stage_action, rule_stage_confidence.
    by rewrite Hcrisis, Hharassment, Hspam.
  - destruct Hfound as [matched Hmatched]. exists pattern, matched.
    unfold applyRuleBasedModeration, applyRules. rewrite applyRules_flags.
    apply elem_of_app. right. unfold moderationRules. cbn [map concat].
    apply elem_of_app. right. apply elem_of_app. right. apply elem_of_app. left.
    unfold flagsOf. cbn [fst snd keywords patterns default from_option id].
    apply elem_of_app. right. apply list_elem_of_In.
    replace (Some matched) with (Regex.match0 pattern content) by exact Hmatched.
    apply (in_map (λ p, PatternFlag "spam" (Regex.toString p) (Regex.match0 p content))).
    apply list_elem_of_In, list_elem_of_filter. done.
Qed.

Lemma spam_shapes_are_caught_witness :
  spamShape "https://example.org/win"
  ∧ categoryMatched ("look at " ++ "https://example.org/win" ++ " now") "spam" = true
  ∧ r_action (applyRuleBasedModeration ("look at " ++ "https://example.org/win" ++ " now"))
    = "auto_filter".
Proof.
  assert (spamShape "https://example.org/win") as Hshape.
  { right. right. exists "e"%char, "xample.org/win". split; [reflexivity|]. by right. }
  split; [exact Hshape|].
  destruct (spam_shapes_are_caught "look at " "https://example.org/win" " now" Hshape)
    as (Hspam & _ & Hverdict & _).
  split; [exact Hspam|].
  destruct Hverdict as (_ & Haction & _); [vm_compute; reflexivity|vm_compute; reflexivity|].
  exact Haction.
Defined.

(* ===================================================================== *)
(** * Session snapshots *)
(* ===================================================================== *)

Lemma getSessionState_accepted sid w db :
  redis w = Some db → redisFault w (length (redisLog w)) = false →
  (getSessionState sid w).1 = Ok (asSession <$> readKey db (sessionKey sid)).
Proof.
  intros Hdb Hok. unfold getSessionState, try_catch. rewrite bind_get_world, Hdb.
  unfold mbind, M_bind. by rewrite (get_accepted _ _ db).
Qed.

Lemma setSessionState_redisFault sid st : preserves redisFault (setSessionState sid st).
Proof. frame. Qed.

Lemma session_round_trip sid st w other :
  storeAccepts w →
  let set := setSessionState sid st w in
  result set = Some true
  ∧ result (getSessionState other (world_of set))
    = if decide (other = sid) then Some (Some (snapshotAt st w))
      else result (getSessionState other w).
Proof.
  intros Haccepts. cbv zeta. unfold result, world_of, snapshotAt, memoryMode.
  destruct (redis w) as [db|] eqn:Hdb.
  - destruct Haccepts as [Hmem|Hok]; [congruence|].
    destruct (setSessionState_redis sid st w db Hdb) as (_ & _ & Hset).
    pose proof (setSessionState_redisFault sid st w) as Hfault.
    cbv zeta in Hset. rewrite Hok in Hset. destruct Hset as [Hret Hdb1].
    rewrite Hret. split; [done|].
    rewrite (getSessionState_accepted other _ _ Hdb1) by (rewrite Hfault; apply Hok).
    rewrite (getSessionState_accepted other _ _ Hdb) by apply Hok.
    unfold readKey. rewrite kv_after_setex.
    destruct (decide (other = sid)) as [->|Hne].
    + by rewrite decide_True.
    + rewrite decide_False; [done|]. intros Hkey. by apply sessionKey_inj in Hkey.
  - rewrite setSessionState_memory by done. split; [done|].
    rewrite !getSessionState_memory by done. cbn [fst snd].
    change (sessionStates (with_sessionStates ?m _)) with m.
    destruct (decide (other = sid)) as [->|Hne].
    + by rewrite lookup_insert_eq.
    + by rewrite lookup_insert_ne.
Qed.

(** X22. A session snapshot that was stored is read back.  For a session
    identifier other than ["__proto__"] (in memory mode the assignment
    under that name replaces the prototype of the store, and with it what
    other names read): in memory mode, and with the Redis client when no
    command fails, [getSessionState] after [setSessionState] returns the
    state with its roster, count and other fields, stamped with the
    instant of the write; reads of other sessions return what they
    returned before.  The two backends do not store the same object: the
    Redis path replaces [lastUpdated] by the instant of the write, the
    memory fallback keeps the one it was given. *)
Theorem session_state_round_trip (sessionId : string) (state : SessionState) (w : World) :
  sessionId ≠ "__proto__" →
  storeAccepts w →
  let set := setSessionState sessionId state w in
  result set = Some true
  ∧ (∃ stored,
       result (getSessionState sessionId (world_of set)) = Some (Some stored)
       ∧ participants stored = participants state
       ∧ currentParticipants stored = currentParticipants state
       ∧ fields stored = fields state
       ∧ timestamp stored = Some (clock w (clockReads w))
       ∧ lastUpdated stored
         = if memoryMode w then lastUpdated state
           else Some (ISO (clock w (S (clockReads w)))))
  ∧ ∀ other, other ≠ sessionId →
      result (getSessionState other (world_of set)) = result (getSessionState other w).
Proof.
  intros _ Haccepts. cbv zeta.
  destruct (session_round_trip sessionId state w sessionId Haccepts) as [Hset Hget].
  split; [exact Hset|]. split.
  - cbv zeta in Hget. rewrite decide_True in Hget by done.
    exists (snapshotAt state w). split; [exact Hget|].
    unfold snapshotAt. by destruct (memoryMode w).
  - intros other Hne.
    destruct (session_round_trip sessionId state w other Haccepts) as [_ Hother].
    cbv zeta in Hother. by rewrite decide_False in Hother.
Qed.

Lemma session_state_round_trip_witness :
  bool_decide ("room-1" = "__proto__") = false
  ∧ storeAccepts (redisWorld AIRejects noFault)
  ∧ ∃ stored,
      result (getSessionState "room-1"
                (world_of (setSessionState "room-1" emptySession
                             (redisWorld AIRejects noFault))))
      = Some (Some stored)
      ∧ timestamp stored = Some 1700000000000%Z
      ∧ lastUpdated stored = Some (ISO 1700000000001).
Proof.
  assert (storeAccepts (redisWorld AIRejects noFault)) as Haccepts by (right; reflexivity).
  assert ("room-1" ≠ "__proto__") as Hname by discriminate.
  split; [reflexivity|]. split; [exact Haccepts|].
  destruct (session_state_round_trip "room-1" emptySession (redisWorld AIRejects noFault)
              Hname Haccepts) as (_ & (stored & Hget & _ & _ & _ & Hstamp & Hupdated) & _).
  exists stored. split; [exact Hget|]. split; [exact Hstamp|exact Hupdated].
Defined.

(* ===================================================================== *)
(** * Leaving a session *)
(* ===================================================================== *)

Lemma leave_cons pid (p : Participant) (roster : list Participant) :
  filter (λ p, ¬ hasId pid p) (p :: roster)
  = if decide (hasId pid p) then filter (λ p, ¬ hasId pid p) roster
    else p :: filter (λ p, ¬ hasId pid p) roster.
Proof.
  rewrite filter_cons. destruct (decide (hasId pid p)) as [Hp|Hp].
  - by rewrite decide_False by (intros Hn; by apply Hn).
  - by rewrite decide_True.
Qed.

Lemma leave_occurrences pid (roster : list Participant) :
  occurrences pid (filter (λ p, ¬ hasId pid p) roster) = 0%nat.
Proof.
  unfold occurrences. induction roster as [|p roster IH]; [done|].
  rewrite leave_cons. destruct (decide (hasId pid p)) as [Hp|Hp]; [exact IH|].
  by rewrite filter_cons, decide_False.
Qed.

Lemma leave_others pid other (roster : list Participant) :
  other ≠ pid →
  occurrences other (filter (λ p, ¬ hasId pid p) roster) = occurrences other roster.
Proof.
  intros Hne. unfold occurrences. induction roster as [|p roster IH]; [done|].
  rewrite leave_cons, (filter_cons (hasId other) p).
  destruct (decide (hasId pid p)) as [Hp|Hp].
  - rewrite decide_False; [exact IH|].
    unfold hasId in *. intros Ho. rewrite Hp in Ho. by simplify_eq.
  - rewrite filter_cons. destruct (decide (hasId other p)); simpl; by rewrite IH.
Qed.

Lemma leave_length pid (roster : list Participant) :
  (length (filter (λ p, ¬ hasId pid p) roster) + occurrences pid roster)%nat = length roster.
Proof.
  unfold occurrences. induction roster as [|p roster IH]; [done|].
  rewrite leave_cons, (filter_cons (hasId pid) p).
  destruct (decide (hasId pid p)); simpl; lia.
Qed.

Lemma leave_idempotent pid (roster : list Participant) :
  filter (λ p, ¬ hasId pid p) (filter (λ p, ¬ hasId pid p) roster)
  = filter (λ p, ¬ hasId pid p) roster.
Proof.
  induction roster as [|p roster IH]; [done|].
  rewrite leave_cons. destruct (decide (hasId pid p)) as [Hp|Hp]; [exact IH|].
  by rewrite leave_cons, decide_False, IH.
Qed.

Lemma leave_undoes_join pid data (roster : list Participant) :
  keepsId pid data → occurrences pid roster = 0%nat →
  filter (λ p, ¬ hasId pid p) (upsert pid data roster) = roster.
Proof.
  intros Hkeeps. unfold occurrences. induction roster as [|p roster IH]; intros Hnone.
  - rewrite upsert_nil, leave_cons, decide_True; [done|]. by apply fresh_id.
  - rewrite filter_cons in Hnone. rewrite upsert_cons.
    destruct (decide (hasId pid p)) as [Hp|Hp]; [done|].
    by rewrite leave_cons, decide_False, IH.
Qed.

(** X23. What leaving does to the roster.  A [removeParticipant] that
    reports success has stored the roster without any entry of the
    participant: every entry under that identifier is gone, however many
    there were, the entries of the other participants are kept in their
    order, and a second leave changes nothing.  Leaving undoes a join
    that added the participant, provided the join data did not rename
    the entry. *)
Theorem leave_removes_every_entry (sessionId participantId : string) (w : World) :
  succeeded (removeParticipant sessionId participantId w) = true →
  let w' := world_of (removeParticipant sessionId participantId w) in
  let roster := storedRoster w sessionId in
  let roster' := storedRoster w' sessionId in
  roster' = filter (λ p, ¬ hasId participantId p) roster
  ∧ occurrences participantId roster' = 0%nat
  ∧ (∀ other, other ≠ participantId → occurrences other roster' = occurrences other roster)
  ∧ (length roster' + occurrences participantId roster)%nat = length roster
  ∧ filter (λ p, ¬ hasId participantId p) roster' = roster'
  ∧ (∀ data prior, keepsId participantId data → occurrences participantId prior = 0%nat →
       roster = upsert participantId data prior → roster' = prior).
Proof.
  intros Hok. cbv zeta. unfold world_of, storedRoster.
  pose proof (runOp_step sessionId (Leave participantId) w) as Hstep.
  unfold stepSound in Hstep. simpl in Hstep. rewrite Hok in Hstep.
  destruct Hstep as (before & after & Hb & Ha & Hp & _).
  rewrite Hb, Ha. simpl. rewrite Hp. simpl.
  set (roster := default [] (participants before)).
  split; [done|].
  split; [apply leave_occurrences|].
  split; [intros other Hother; by apply leave_others|].
  split; [apply leave_length|].
  split; [apply leave_idempotent|].
  intros data prior Hkeeps Hnone ->. by apply leave_undoes_join.
Qed.

Lemma leave_removes_every_entry_witness :
  succeeded (removeParticipant "room-1" "guest" afterTwoRenamingJoins) = true
  ∧ storedRoster afterTwoRenamingJoins "room-1" = [renaming; renaming]
  ∧ storedRoster (world_of (removeParticipant "room-1" "guest" afterTwoRenamingJoins))
      "room-1" = [].
Proof.
  assert (succeeded (removeParticipant "room-1" "guest" afterTwoRenamingJoins) = true)
    as Hok by (vm_compute; reflexivity).
  split; [exact Hok|]. split; [vm_compute; reflexivity|].
  destruct (leave_removes_every_entry "room-1" "guest" afterTwoRenamingJoins Hok)
    as (Hroster & _).
  rewrite Hroster. vm_compute. reflexivity.
Defined.

(* ===================================================================== *)
(** * Events without a session *)
(* ===================================================================== *)

(** X24. An event logged without a session identifier goes, with the
    Redis client, on the list named after the text [undefined]: it is the
    first entry [getModerationLogs] returns for the session named
    ["undefined"].  In memory mode the same call does not return it. *)
Theorem sessionless_events_are_listed_under_undefined (limit : Z) (event : ModerationEvent)
    (w : World) :
  (1 ≤ limit)%Z →
  let logged := RedisSessionManager.logModerationEvent None event w in
  let entry := moderationEntryAt None event w in
  moderationListKey None = moderationListKey (Some "undefined")
  ∧ (∀ db, redis w = Some db → reliable w →
       ∃ rest, result (getModerationLogs "undefined" limit (world_of logged))
               = Some (SModeration entry :: rest))
  ∧ (redis w = None →
       moderationLogs (world_of logged) = (moderationLogs w ++ [entry])%list
       ∧ result (getModerationLogs "undefined" limit (world_of logged))
         = result (getModerationLogs "undefined" limit w)).
Proof.
  intros Hlimit. cbv zeta. unfold world_of. split; [reflexivity|]. split.
  - intros db Hdb Hok.
    rewrite (logModerationEvent_reliable _ _ _ db) by done. cbv zeta. cbn [snd].
    erewrite getModerationLogs_redis; [|reflexivity|intros n; apply Hok].
    unfold result. cbn [fst].
    rewrite listedKeys_logged by reflexivity.
    rewrite rangeFromStart_take by lia.
    replace (Z.to_nat (limit - 1 + 1)) with (S (Z.to_nat (limit - 1))) by lia.
    cbn [take omap list_omap]. rewrite readKey_logged, decide_True by done.
    by eexists.
  - intros Hmem. rewrite logModerationEvent_memory by done. cbn [snd].
    split; [reflexivity|].
    rewrite !getModerationLogs_memory by done. unfold result, sessionLogs. cbn [fst].
    cbn [moderationLogs with_moderationLogs with_clockReads].
    by rewrite filter_app, filter_cons, decide_False, app_nil_r.
Qed.

Lemma sessionless_events_are_listed_under_undefined_witness :
  (1 ≤ 5)%Z
  ∧ (∃ rest,
       result (getModerationLogs "undefined" 5
                 (world_of (RedisSessionManager.logModerationEvent None sampleEvent
                              (redisWorld AIRejects noFault))))
       = Some (SModeration (moderationEntryAt None sampleEvent (redisWorld AIRejects noFault))
               :: rest))
  ∧ result (getModerationLogs "undefined" 5
              (world_of (RedisSessionManager.logModerationEvent None sampleEvent
                           (blankWorld AIRejects))))
    = result (getModerationLogs "undefined" 5 (blankWorld AIRejects)).
Proof.
  split; [lia|].
  destruct (sessionless_events_are_listed_under_undefined 5 sampleEvent
              (redisWorld AIRejects noFault)) as (_ & Hredis & _); [lia|].
  destruct (sessionless_events_are_listed_under_undefined 5 sampleEvent
              (blankWorld AIRejects)) as (_ & _ & Hmemory); [lia|].
  split.
  - apply (Hredis emptyDb); [reflexivity|intros n; reflexivity].
  - apply Hmemory. reflexivity.
Defined.
